(** * ribbon-3d: the ribbon builder of [src/lib/ribbon.js]

    A shallow embedding of the ribbon builder (the function exported by
    [src/lib/ribbon.js]) and the properties its specification states.

    Numbers.  JavaScript numbers are modelled as real numbers [R]: the
    model is exact arithmetic, without rounding, NaN or infinities.
    [Math.floor] returns an integer, kept as a [Z]; [Math.atan2],
    [Math.cos], [Math.sin] and [Math.PI] are the functions of the
    Standard Library's real analysis. The model and JavaScript part
    ways where JavaScript divides by zero: when a vector of length zero
    is normalized, which the specification makes a precondition
    violation (a segment of the filtered path with no extent in the XY
    plane).

    Arrays of three numbers are the record [vec3]; arrays of points are
    lists; the arrays of three and four points are tuples, read with
    the projections [cs0 .. cs2] and [q0 .. q3]. Exceptions are an
    explicit [result].

    The builder requires two helpers whose files are not among the
    sources, [removeParallel2D] and [intersect2D]. In the definition of
    the builder they are parameters; module [Spec] models them from
    the specification for the statements that need their results. *)

From Stdlib Require Import Reals Lra Lia List ZArith Psatz Bool.
Import ListNotations.
Local Open Scope R_scope.

(** ** Results of fallible code *)

(** The failures of one call: the two the specification names, and the
    [TypeError] JavaScript raises when a property of [undefined] is
    read. *)
Inductive error : Type :=
| InvalidInput
| DegenerateGeometry
| TypeError.

Inductive result (A : Type) : Type :=
| Ok (a : A)
| Err (e : error).

Arguments Ok {A} a.
Arguments Err {A} e.

Definition bind {A B : Type} (r : result A) (k : A -> result B) : result B :=
  match r with
  | Ok a => k a
  | Err e => Err e
  end.

Notation "x <- r ;; k" := (bind r (fun x => k))
  (at level 61, r at next level, right associativity).

(** ** Comparisons of numbers, as booleans *)

Definition ltb (x y : R) : bool := if Rlt_dec x y then true else false.
Definition leb (x y : R) : bool := if Rle_dec x y then true else false.
Definition eqb (x y : R) : bool := if Req_dec_T x y then true else false.

(** ** Points and the vector library

    [vecks.vec3], an external library: the operations the builder
    imports, with the Euclidean meaning the specification fixes for
    them. *)

Record vec3 : Type := V3 { c0 : R; c1 : R; c2 : R }.

Module v3.

Definition add (a b : vec3) : vec3 :=
  V3 (c0 a + c0 b) (c1 a + c1 b) (c2 a + c2 b).

Definition sub (a b : vec3) : vec3 :=
  V3 (c0 a - c0 b) (c1 a - c1 b) (c2 a - c2 b).

Definition cross (a b : vec3) : vec3 :=
  V3 (c1 a * c2 b - c2 a * c1 b)
     (c2 a * c0 b - c0 a * c2 b)
     (c0 a * c1 b - c1 a * c0 b).

Definition multiply (a : vec3) (factor : R) : vec3 :=
  V3 (c0 a * factor) (c1 a * factor) (c2 a * factor).

Definition neg (a : vec3) : vec3 := V3 (- c0 a) (- c1 a) (- c2 a).

Definition length (a : vec3) : R :=
  sqrt (c0 a * c0 a + c1 a * c1 a + c2 a * c2 a).

Definition norm (a : vec3) : vec3 :=
  V3 (c0 a / length a) (c1 a / length a) (c2 a / length a).

End v3.

(** ** Line segments: [class LineSegment] *)

Module LineSegment.

Record t : Type := Build {
  from : vec3;
  to : vec3;
  direction : vec3;
  length : R
}.

(** [constructor(from, to)] *)
Definition new (from to : vec3) : t :=
  {| from := from;
     to := to;
     direction := v3.norm (v3.sub to from);
     length := v3.length (v3.sub to from) |}.

End LineSegment.

(** A line given by two points, the argument [[from, to]] of
    [intersect2D]. *)
Definition line : Type := (vec3 * vec3)%type.

(** Faces and quads: arrays of three and of four points. *)
Definition triangle : Type := (vec3 * vec3 * vec3)%type.
Definition quad : Type := (vec3 * vec3 * vec3 * vec3)%type.

(** [q[0]], [q[1]], [q[2]], [q[3]] *)
Definition q0 (q : quad) : vec3 := fst (fst (fst q)).
Definition q1 (q : quad) : vec3 := snd (fst (fst q)).
Definition q2 (q : quad) : vec3 := snd (fst q).
Definition q3 (q : quad) : vec3 := snd q.

Record options : Type := { width : R; closed : bool }.

(** The returned object [{triangles, outline}]. *)
Record mesh : Type := { triangles : list triangle; outline : list vec3 }.

(** [left3D[2] = 0] *)
Definition set2 (p : vec3) (z : R) : vec3 := V3 (c0 p) (c1 p) z.

(** [array.push(x)] *)
Definition push {A : Type} (l : list A) (x : A) : list A := l ++ [x].

(** ** Cap fans: the body of [capSupports.forEach] (lines 191-220) *)

Definition sliceAngle : R := 10.

(** [Math.atan2(y, x)], by the quadrant of [(x, y)]. *)
Definition atan2 (y x : R) : R :=
  if Rlt_dec 0 x then atan (y / x)
  else if Rlt_dec x 0 then
    (if Rle_dec 0 y then atan (y / x) + PI else atan (y / x) - PI)
  else if Rlt_dec 0 y then PI / 2
  else if Rlt_dec y 0 then - (PI / 2)
  else 0.

(** A cap support [cs] is the array [[cs[0], cs[1], cs[2]]]; [cs[1]] is
    the pivot. *)
Definition cs0 (cs : triangle) : vec3 := fst (fst cs).
Definition cs1 (cs : triangle) : vec3 := snd (fst cs).
Definition cs2 (cs : triangle) : vec3 := snd cs.

Definition startAngle (cs : triangle) : R :=
  let startAngle :=
    atan2 (c1 (cs2 cs) - c1 (cs1 cs)) (c0 (cs2 cs) - c0 (cs1 cs)) / PI * 180 in
  if ltb startAngle 0 then startAngle + 360 else startAngle.

Definition endAngle (cs : triangle) : R :=
  let endAngle :=
    atan2 (c1 (cs0 cs) - c1 (cs1 cs)) (c0 (cs0 cs) - c0 (cs1 cs)) / PI * 180 in
  let endAngle := if ltb endAngle 0 then endAngle + 360 else endAngle in
  if eqb endAngle 0 then 360 else endAngle.

Definition numSlices (cs : triangle) : Z :=
  Zfloor ((endAngle cs - startAngle cs) / sliceAngle).

Definition numIntermediatePoints (cs : triangle) : Z := (numSlices cs - 1)%Z.

Definition rotationAngle (cs : triangle) : R :=
  (endAngle cs - startAngle cs) / IZR (numSlices cs) / 180 * PI.

(** The point pushed by iteration [i] of the loop of lines 205-212. *)
Definition radialPoint (cs : triangle) (i : nat) : vec3 :=
  let p := v3.sub (cs2 cs) (cs1 cs) in
  let theta := rotationAngle cs * (INR i + 1) in
  v3.add (V3 (c0 p * cos theta - c1 p * sin theta)
             (c1 p * cos theta + c0 p * sin theta)
             0)
         (cs1 cs).

(** [for (let i = 0; i < numIntermediatePoints; ++i)]: the loop runs
    [max numIntermediatePoints 0] times. *)
Definition radialPoints (cs : triangle) : list vec3 :=
  push
    (fold_left (fun radialPoints i => push radialPoints (radialPoint cs i))
               (seq 0 (Z.to_nat (numIntermediatePoints cs)))
               [cs2 cs])
    (cs0 cs).

(** The loop of lines 215-219 over the adjacent pairs of [radialPoints]. *)
Fixpoint fanLoop (pivot : vec3) (radialPoints : list vec3) (m : mesh) : mesh :=
  match radialPoints with
  | a :: (b :: _) as rest =>
      fanLoop pivot rest
        {| triangles := push (triangles m) (a, b, pivot);
           outline := push (push (outline m) a) b |}
  | _ => m
  end.

Definition capStep (m : mesh) (cs : triangle) : mesh :=
  fanLoop (cs1 cs) (radialPoints cs) m.

(** ** Rectangles and stubs: the bodies of the two [forEach] of lines
    168-175 and 185-190 *)

Definition rectangleStep (m : mesh) (r : quad) : mesh :=
  {| triangles := push (push (triangles m) (q0 r, q1 r, q2 r)) (q0 r, q2 r, q3 r);
     outline := push (push (push (push (outline m) (q1 r)) (q2 r)) (q3 r)) (q0 r) |}.

Definition stubStep (m : mesh) (c : quad) : mesh :=
  {| triangles := push (push (triangles m) (q0 c, q1 c, q2 c)) (q0 c, q2 c, q3 c);
     outline := push (push (outline m) (q2 c)) (q3 c) |}.

(** ** Joints: one iteration of the loop of lines 100-149 *)

(** The literal [[0,0,1]]. *)
Definition zAxis : vec3 := V3 0 0 1.

Record joint : Type := {
  leftIsShorter : bool;
  insideIntersection : vec3;
  leftEnd : vec3;          (* leftEnds[i] *)
  rightEnd : vec3;         (* rightEnds[i] *)
  nextLeftStart : vec3;    (* leftStarts[i + 1] *)
  nextRightStart : vec3;   (* rightStarts[i + 1] *)
  stubA : quad;            (* the first stub pushed *)
  stubB : quad;            (* the second stub pushed *)
  capSupport : triangle
}.

Definition resolveJoint (width : R)
    (centerSegment nextCenterSegment : LineSegment.t)
    (leftStart rightStart leftIntersection rightIntersection : vec3) : joint :=
  let leftIsShorter :=
    ltb (v3.length (v3.sub leftIntersection leftStart))
        (v3.length (v3.sub rightIntersection rightStart)) in
  let to := LineSegment.to centerSegment in
  if leftIsShorter then
    let offset1 :=
      v3.neg (v3.norm (v3.cross zAxis (LineSegment.direction centerSegment))) in
    let offset2 :=
      v3.neg (v3.norm (v3.cross zAxis (LineSegment.direction nextCenterSegment))) in
    let insideIntersection := leftIntersection in
    {| leftIsShorter := true;
       insideIntersection := insideIntersection;
       leftEnd := insideIntersection;
       rightEnd := v3.add insideIntersection (v3.multiply offset1 (width * 2));
       nextLeftStart := insideIntersection;
       nextRightStart := v3.add insideIntersection (v3.multiply offset2 (width * 2));
       stubA := (insideIntersection,
                 to,
                 v3.add to (v3.multiply offset2 width),
                 v3.add insideIntersection (v3.multiply offset2 (width * 2)));
       stubB := (to,
                 insideIntersection,
                 v3.add insideIntersection (v3.multiply offset1 (width * 2)),
                 v3.add to (v3.multiply offset1 width));
       capSupport := (v3.add to (v3.multiply offset2 width),
                      to,
                      v3.add to (v3.multiply offset1 width)) |}
  else
    let offset2 :=
      v3.norm (v3.cross zAxis (LineSegment.direction centerSegment)) in
    let offset1 :=
      v3.norm (v3.cross zAxis (LineSegment.direction nextCenterSegment)) in
    let insideIntersection := rightIntersection in
    {| leftIsShorter := false;
       insideIntersection := insideIntersection;
       leftEnd := v3.add insideIntersection (v3.multiply offset2 (width * 2));
       rightEnd := insideIntersection;
       nextLeftStart := v3.add insideIntersection (v3.multiply offset1 (width * 2));
       nextRightStart := insideIntersection;
       stubA := (insideIntersection,
                 to,
                 v3.add to (v3.multiply offset2 width),
                 v3.add insideIntersection (v3.multiply offset2 (width * 2)));
       stubB := (to,
                 insideIntersection,
                 v3.add insideIntersection (v3.multiply offset1 (width * 2)),
                 v3.add to (v3.multiply offset1 width));
       capSupport := (v3.add to (v3.multiply offset2 width),
                      to,
                      v3.add to (v3.multiply offset1 width)) |}.

(** ** The builder: [module.exports = function(polygon, options)] *)

(** Lines 53-58: one center segment per pair of consecutive points. *)
Fixpoint centerSegments (polygon : list vec3) : list LineSegment.t :=
  match polygon with
  | a :: (b :: _) as rest => LineSegment.new a b :: centerSegments rest
  | _ => []
  end.

(** Lines 62-71: the offset segments of one center segment. *)
Definition offsetDir (centerSegment : LineSegment.t) : vec3 :=
  v3.norm (v3.cross zAxis (LineSegment.direction centerSegment)).

Definition leftSegment (width : R) (centerSegment : LineSegment.t) : LineSegment.t :=
  LineSegment.new
    (v3.add (LineSegment.from centerSegment)
            (v3.multiply (offsetDir centerSegment) width))
    (v3.add (LineSegment.to centerSegment)
            (v3.multiply (offsetDir centerSegment) width)).

Definition rightSegment (width : R) (centerSegment : LineSegment.t) : LineSegment.t :=
  LineSegment.new
    (v3.add (LineSegment.from centerSegment)
            (v3.multiply (offsetDir centerSegment) (- width)))
    (v3.add (LineSegment.to centerSegment)
            (v3.multiply (offsetDir centerSegment) (- width))).

Definition lineOf (s : LineSegment.t) : line :=
  (LineSegment.from s, LineSegment.to s).

(** Lines 100-149: the joints in order; iteration [i] reads
    [leftStarts[i]] and [rightStarts[i]], which iteration [i - 1] wrote
    (or line 91-92, for [i = 0]). *)
Fixpoint joints (width : R) (centerSegments : list LineSegment.t)
    (leftIntersections rightIntersections : list vec3)
    (leftStart rightStart : vec3) : list joint :=
  match centerSegments, leftIntersections, rightIntersections with
  | centerSegment :: (nextCenterSegment :: _) as rest,
    leftIntersection :: leftIntersections',
    rightIntersection :: rightIntersections' =>
      let j := resolveJoint width centerSegment nextCenterSegment
                 leftStart rightStart leftIntersection rightIntersection in
      j :: joints width rest leftIntersections' rightIntersections'
             (nextLeftStart j) (nextRightStart j)
  | _, _, _ => []
  end.

(** Lines 154-161: [rectangles[i]] from the four arrays. *)
Fixpoint zipRectangles (leftStarts rightStarts rightEnds leftEnds : list vec3)
  : list quad :=
  match leftStarts, rightStarts, rightEnds, leftEnds with
  | ls :: leftStarts', rs :: rightStarts', re :: rightEnds', le :: leftEnds' =>
      (ls, rs, re, le) :: zipRectangles leftStarts' rightStarts' rightEnds' leftEnds'
  | _, _, _, _ => []
  end.

(** What lines 53-161 compute from the filtered polygon. *)
Record geometry : Type := {
  leftSegments : list LineSegment.t;
  rightSegments : list LineSegment.t;
  leftIntersections : list vec3;
  rightIntersections : list vec3;
  leftStarts : list vec3;
  rightStarts : list vec3;
  leftEnds : list vec3;
  rightEnds : list vec3;
  rectangles : list quad;
  stubs : list quad;
  capSupports : list triangle
}.

(** Lines 177-182. *)
Definition closing (closed : bool) (rectangles : list quad) : result (list vec3) :=
  if closed then Ok []
  else
    match rectangles with
    | [] => Err TypeError
    | first :: _ =>
        let final := last rectangles first in
        Ok [q0 first; q1 first; q2 final; q3 final]
    end.

(** Lines 165-227. *)
Definition tessellate (closed : bool) (g : geometry) : result mesh :=
  let m := fold_left rectangleStep (rectangles g)
             {| triangles := []; outline := [] |} in
  extra <- closing closed (rectangles g) ;;
  let m := {| triangles := triangles m; outline := outline m ++ extra |} in
  let m := fold_left stubStep (stubs g) m in
  let m := fold_left capStep (capSupports g) m in
  Ok m.

Section Builder.

(** The two helpers the builder requires from files that are not
    among the sources, [./removeParallel2D] and [./intersect2D]. *)
Variable removeParallel2D : list vec3 -> list vec3.
Variable intersect2D : line -> line -> result vec3.

(** Lines 76-87: the intersections of consecutive offset segments,
    left before right at each joint. *)
Fixpoint intersections (leftSegments rightSegments : list LineSegment.t)
  : result (list vec3 * list vec3) :=
  match leftSegments, rightSegments with
  | leftA :: (leftB :: _) as lefts, rightA :: (rightB :: _) as rights =>
      left3D <- intersect2D (lineOf leftA) (lineOf leftB) ;;
      right3D <- intersect2D (lineOf rightA) (lineOf rightB) ;;
      rest <- intersections lefts rights ;;
      Ok (set2 left3D 0 :: fst rest, set2 right3D 0 :: snd rest)
  | _, _ => Ok ([], [])
  end.

(** Lines 53-161, on the filtered polygon. *)
Definition build (polygon : list vec3) (width : R) : result geometry :=
  let centerSegments := centerSegments polygon in
  let leftSegments := map (leftSegment width) centerSegments in
  let rightSegments := map (rightSegment width) centerSegments in
  ix <- intersections leftSegments rightSegments ;;
  let leftIntersections := fst ix in
  let rightIntersections := snd ix in
  match leftSegments, rightSegments with
  | left0 :: _, right0 :: _ =>
      let js := joints width centerSegments leftIntersections rightIntersections
                  (LineSegment.from left0) (LineSegment.from right0) in
      let leftStarts := LineSegment.from left0 :: map nextLeftStart js in
      let rightStarts := LineSegment.from right0 :: map nextRightStart js in
      let leftEnds :=
        push (map leftEnd js) (LineSegment.to (last leftSegments left0)) in
      let rightEnds :=
        push (map rightEnd js) (LineSegment.to (last rightSegments right0)) in
      Ok {| leftSegments := leftSegments;
            rightSegments := rightSegments;
            leftIntersections := leftIntersections;
            rightIntersections := rightIntersections;
            leftStarts := leftStarts;
            rightStarts := rightStarts;
            leftEnds := leftEnds;
            rightEnds := rightEnds;
            rectangles := zipRectangles leftStarts rightStarts rightEnds leftEnds;
            stubs := flat_map (fun j => [stubA j; stubB j]) js;
            capSupports := map capSupport js |}
  | _, _ => Err TypeError
  end.

(** Lines 37-43: the two [joi] schemas; a failed validation throws. *)
Definition validate (polygon : list vec3) (options : options) : result unit :=
  if (List.length polygon <? 2)%nat then Err InvalidInput
  else if ltb 0 (width options) then Ok tt
  else Err InvalidInput.

Definition ribbon (polygon : list vec3) (options : options) : result mesh :=
  _ <- validate polygon options ;;
  let width := width options in
  let closed := closed options in
  let polygon := removeParallel2D polygon in
  g <- build polygon width ;;
  tessellate closed g.

End Builder.

(** ** The two helpers, from the specification *)

Module Spec.

(** Modelled from the spec: part of the absent [intersect2D]. The
    determinant of the directions of two lines given by two points
    each, in the XY plane: zero exactly when the lines are parallel or
    coincident (section 4.2). *)
Definition det2D (a b : line) : R :=
  let '(p1, p2) := a in
  let '(p3, p4) := b in
  (c0 p1 - c0 p2) * (c1 p3 - c1 p4) - (c1 p1 - c1 p2) * (c0 p3 - c0 p4).

(** Modelled from the spec: [src/lib/intersect2D.js] is required by
    the builder and is not among the sources. Section 4.2: the input
    is two lines, each given as two points, of which only X and Y are
    used; the output is the intersection point of the two infinite
    lines, with Z forced to 0; parallel or coincident lines (a
    determinant within [epsilon] of zero) fail with
    [DegenerateGeometry]. *)
Definition intersect2D (epsilon : R) (a b : line) : result vec3 :=
  let '(p1, p2) := a in
  let '(p3, p4) := b in
  let d := det2D a b in
  if leb (Rabs d) epsilon then Err DegenerateGeometry
  else
    let ka := c0 p1 * c1 p2 - c1 p1 * c0 p2 in
    let kb := c0 p3 * c1 p4 - c1 p3 * c0 p4 in
    Ok (V3 ((ka * (c0 p3 - c0 p4) - (c0 p1 - c0 p2) * kb) / d)
           ((ka * (c1 p3 - c1 p4) - (c1 p1 - c1 p2) * kb) / d)
           0).

(** Modelled from the spec: part of the absent [removeParallel2D].
    Whether [b] is collinear with [a] and [c] in the XY projection,
    within [tolerance] (section 4.1): the cross product of the two
    edges at [b] is within the tolerance of zero. *)
Definition collinear2D (tolerance : R) (a b c : vec3) : bool :=
  leb (Rabs ((c0 b - c0 a) * (c1 c - c1 b) - (c1 b - c1 a) * (c0 c - c0 b)))
      tolerance.

(** Modelled from the spec: part of the absent [removeParallel2D].
    The interior points after [previous], each tested against its
    immediate predecessor and successor in the input; the last point
    is kept. *)
Fixpoint removeInterior (tolerance : R) (previous : vec3) (rest : list vec3)
  : list vec3 :=
  match rest with
  | current :: (next :: _) as tail =>
      if collinear2D tolerance previous current next
      then removeInterior tolerance current tail
      else current :: removeInterior tolerance current tail
  | _ => rest
  end.

(** Modelled from the spec: [src/lib/removeParallel2D.js] is required
    by the builder and is not among the sources. Section 4.1: the
    output is the input with the interior points removed that are
    collinear, in the XY projection, with their immediate predecessor
    and successor, within a fixed numerical tolerance; the endpoints
    are never removed. *)
Definition removeParallel2D (tolerance : R) (polygon : list vec3) : list vec3 :=
  match polygon with
  | [] => []
  | first :: rest => first :: removeInterior tolerance first rest
  end.

End Spec.

(** * Definitions for the statements *)

(** The two empty arrays of lines 165-166. *)
Definition emptyMesh : mesh := {| triangles := []; outline := [] |}.

(** A segment whose two ends differ in the XY plane: the precondition
    of the specification under which a direction can be normalized. *)
Definition nondegenerate (s : LineSegment.t) : Prop :=
  c0 (LineSegment.from s) <> c0 (LineSegment.to s) \/
  c1 (LineSegment.from s) <> c1 (LineSegment.to s).

(** The signed area of the turn at [b] on the way from [a] to [c]:
    positive when the path bends to the left (counter-clockwise),
    negative when it bends to the right. *)
Definition turn (a b c : vec3) : R :=
  (c0 b - c0 a) * (c1 c - c1 b) - (c1 b - c1 a) * (c0 c - c0 b).

(** How far the point [p] lies beyond the end of the segment from
    [fst l] to [snd l], measured along the segment in the XY plane (and
    scaled by its length): negative when [p] comes before the end, as
    the meeting point of two offset segments that converge does, and
    positive when [p] comes after it, as the meeting point of the lines
    of two offset segments that diverge does. *)
Definition beyondEnd (l : line) (p : vec3) : R :=
  (c0 p - c0 (snd l)) * (c0 (snd l) - c0 (fst l))
  + (c1 p - c1 (snd l)) * (c1 (snd l) - c1 (fst l)).

(** The reflection in the X axis, which turns a bend to the left into
    the same bend to the right. *)
Definition mirror (p : vec3) : vec3 := V3 (c0 p) (- c1 p) (c2 p).

(** Points, faces, quads, segments and joints in the plane [z = 0]. *)
Definition planar (p : vec3) : Prop := c2 p = 0.

Definition planarTriangle (t : triangle) : Prop :=
  planar (cs0 t) /\ planar (cs1 t) /\ planar (cs2 t).

Definition planarQuad (q : quad) : Prop :=
  planar (q0 q) /\ planar (q1 q) /\ planar (q2 q) /\ planar (q3 q).

Definition planarSegment (s : LineSegment.t) : Prop :=
  planar (LineSegment.from s) /\ planar (LineSegment.to s).

Definition planarJoint (j : joint) : Prop :=
  planar (leftEnd j) /\ planar (rightEnd j) /\
  planar (nextLeftStart j) /\ planar (nextRightStart j) /\
  planarQuad (stubA j) /\ planarQuad (stubB j) /\ planarTriangle (capSupport j).

(** The straight path of the first concrete scenario, and the
    geometry the builder computes for it with width 1. *)
Definition straightPath : list vec3 := [V3 0 0 0; V3 10 0 0].

Definition straightGeometry : geometry :=
  let s := LineSegment.new (V3 0 0 0) (V3 10 0 0) in
  {| leftSegments := [leftSegment 1 s];
     rightSegments := [rightSegment 1 s];
     leftIntersections := [];
     rightIntersections := [];
     leftStarts := [V3 0 1 0];
     rightStarts := [V3 0 (-1) 0];
     leftEnds := [V3 10 1 0];
     rightEnds := [V3 10 (-1) 0];
     rectangles := [(V3 0 1 0, V3 0 (-1) 0, V3 10 (-1) 0, V3 10 1 0)];
     stubs := [];
     capSupports := [] |}.

(** The L-shaped path of the second concrete scenario, its inside
    corner, the geometry the builder computes for it with width 1, and
    its one cap support. *)
Definition cornerPath : list vec3 := [V3 0 0 0; V3 10 0 0; V3 10 10 0].

Definition cornerInside : vec3 := V3 9 1 0.

Definition cornerGeometry : geometry :=
  let s0 := LineSegment.new (V3 0 0 0) (V3 10 0 0) in
  let s1 := LineSegment.new (V3 10 0 0) (V3 10 10 0) in
  {| leftSegments := [leftSegment 1 s0; leftSegment 1 s1];
     rightSegments := [rightSegment 1 s0; rightSegment 1 s1];
     leftIntersections := [cornerInside];
     rightIntersections := [V3 11 (-1) 0];
     leftStarts := [V3 0 1 0; cornerInside];
     rightStarts := [V3 0 (-1) 0; V3 11 1 0];
     leftEnds := [cornerInside; V3 9 10 0];
     rightEnds := [V3 9 (-1) 0; V3 11 10 0];
     rectangles := [(V3 0 1 0, V3 0 (-1) 0, V3 9 (-1) 0, cornerInside);
                    (cornerInside, V3 11 1 0, V3 11 10 0, V3 9 10 0)];
     stubs := [(cornerInside, V3 10 0 0, V3 11 0 0, V3 11 1 0);
               (V3 10 0 0, cornerInside, V3 9 (-1) 0, V3 10 (-1) 0)];
     capSupports := [(V3 11 0 0, V3 10 0 0, V3 10 (-1) 0)] |}.

Definition cornerCap : triangle := (V3 11 0 0, V3 10 0 0, V3 10 (-1) 0).

(** A path that turns left and then right, with a middle segment
    shorter than the width 2, and the geometry the builder computes for
    it. *)
Definition stepPath : list vec3 := [V3 0 0 0; V3 10 0 0; V3 10 1 0; V3 20 1 0].

Definition stepGeometry : geometry :=
  let s0 := LineSegment.new (V3 0 0 0) (V3 10 0 0) in
  let s1 := LineSegment.new (V3 10 0 0) (V3 10 1 0) in
  let s2 := LineSegment.new (V3 10 1 0) (V3 20 1 0) in
  {| leftSegments := [leftSegment 2 s0; leftSegment 2 s1; leftSegment 2 s2];
     rightSegments := [rightSegment 2 s0; rightSegment 2 s1; rightSegment 2 s2];
     leftIntersections := [V3 8 2 0; V3 8 3 0];
     rightIntersections := [V3 12 (-2) 0; V3 12 (-1) 0];
     leftStarts := [V3 0 2 0; V3 8 2 0; V3 8 3 0];
     rightStarts := [V3 0 (-2) 0; V3 12 2 0; V3 8 (-1) 0];
     leftEnds := [V3 8 2 0; V3 8 3 0; V3 20 3 0];
     rightEnds := [V3 8 (-2) 0; V3 12 3 0; V3 20 (-1) 0];
     rectangles := [(V3 0 2 0, V3 0 (-2) 0, V3 8 (-2) 0, V3 8 2 0);
                    (V3 8 2 0, V3 12 2 0, V3 12 3 0, V3 8 3 0);
                    (V3 8 3 0, V3 8 (-1) 0, V3 20 (-1) 0, V3 20 3 0)];
     stubs := [(V3 8 2 0, V3 10 0 0, V3 12 0 0, V3 12 2 0);
               (V3 10 0 0, V3 8 2 0, V3 8 (-2) 0, V3 10 (-2) 0);
               (V3 8 3 0, V3 10 1 0, V3 10 (-1) 0, V3 8 (-1) 0);
               (V3 10 1 0, V3 8 3 0, V3 12 3 0, V3 12 1 0)];
     capSupports := [(V3 12 0 0, V3 10 0 0, V3 10 (-2) 0);
                     (V3 10 (-1) 0, V3 10 1 0, V3 12 1 0)] |}.

(** A path whose two repeated points hide a straight joint from the
    filter of the specification: each of the two is collinear with its
    neighbours, and the point after them is not. *)
Definition hiddenStraightPath : list vec3 :=
  [V3 0 0 0; V3 5 5 0; V3 5 5 0; V3 10 0 0; V3 20 0 0].

(** A path that bends to the left by less than 10 degrees (the second
    segment has direction (112, 15) / 113), and its cap support for
    width 1. *)
Definition shallowPath : list vec3 := [V3 0 0 0; V3 10 0 0; V3 122 15 0].

Definition shallowCap : triangle :=
  (V3 (10 + 15 / 113) (- (112 / 113)) 0, V3 10 0 0, V3 10 (-1) 0).

(** ** Definitions for the further properties *)

(** The scalar product of the XY parts of two vectors. *)
Definition dotXY (a b : vec3) : R := c0 a * c0 b + c1 a * c1 b.

(** Whether [p] lies, in the XY plane, on the line through the two
    points of [l]. *)
Definition onLine (l : line) (p : vec3) : Prop :=
  (c0 p - c0 (fst l)) * (c1 (snd l) - c1 (fst l))
  - (c1 p - c1 (fst l)) * (c0 (snd l) - c0 (fst l)) = 0.

(** The three vertices of a face. *)
Definition vertices (t : triangle) : list vec3 := [cs0 t; cs1 t; cs2 t].

(** A map of points applied to the points of lines, faces, quads,
    joints, geometries (with a map of segments) and meshes. *)
Definition mapLine (f : vec3 -> vec3) (l : line) : line :=
  (f (fst l), f (snd l)).

Definition mapTriangle (f : vec3 -> vec3) (t : triangle) : triangle :=
  (f (cs0 t), f (cs1 t), f (cs2 t)).

Definition mapQuad (f : vec3 -> vec3) (q : quad) : quad :=
  (f (q0 q), f (q1 q), f (q2 q), f (q3 q)).

Definition mapJoint (f : vec3 -> vec3) (j : joint) : joint :=
  {| leftIsShorter := leftIsShorter j;
     insideIntersection := f (insideIntersection j);
     leftEnd := f (leftEnd j);
     rightEnd := f (rightEnd j);
     nextLeftStart := f (nextLeftStart j);
     nextRightStart := f (nextRightStart j);
     stubA := mapQuad f (stubA j);
     stubB := mapQuad f (stubB j);
     capSupport := mapTriangle f (capSupport j) |}.

Definition mapGeometry (fs : LineSegment.t -> LineSegment.t) (f : vec3 -> vec3)
    (g : geometry) : geometry :=
  {| leftSegments := map fs (leftSegments g);
     rightSegments := map fs (rightSegments g);
     leftIntersections := map f (leftIntersections g);
     rightIntersections := map f (rightIntersections g);
     leftStarts := map f (leftStarts g);
     rightStarts := map f (rightStarts g);
     leftEnds := map f (leftEnds g);
     rightEnds := map f (rightEnds g);
     rectangles := map (mapQuad f) (rectangles g);
     stubs := map (mapQuad f) (stubs g);
     capSupports := map (mapTriangle f) (capSupports g) |}.

Definition mapMesh (f : vec3 -> vec3) (m : mesh) : mesh :=
  {| triangles := map (mapTriangle f) (triangles m);
     outline := map f (outline m) |}.

(** The result of a call, with [f] applied to the value it returns. *)
Definition mapResult {A B : Type} (f : A -> B) (r : result A) : result B :=
  match r with
  | Ok a => Ok (f a)
  | Err e => Err e
  end.

(** The translation by [t], of a point and of a segment. *)
Definition shift (t p : vec3) : vec3 := v3.add p t.

Definition shiftSegment (t : vec3) (s : LineSegment.t) : LineSegment.t :=
  {| LineSegment.from := shift t (LineSegment.from s);
     LineSegment.to := shift t (LineSegment.to s);
     LineSegment.direction := LineSegment.direction s;
     LineSegment.length := LineSegment.length s |}.

(** The projection on the plane [z = 0], of a point and of a segment:
    the segment between the projections of the two ends. *)
Definition flat (p : vec3) : vec3 := set2 p 0.

Definition flatSegment (s : LineSegment.t) : LineSegment.t :=
  LineSegment.new (flat (LineSegment.from s)) (flat (LineSegment.to s)).

(** A segment of the path: the one the constructor makes of its two
    ends, with an extent in the XY plane. *)
Definition pathSegment (s : LineSegment.t) : Prop :=
  s = LineSegment.new (LineSegment.from s) (LineSegment.to s) /\ nondegenerate s.

(** The L-shaped path at the height 5. *)
Definition raisedCornerPath : list vec3 := [V3 0 0 5; V3 10 0 5; V3 10 10 5].

(** A path that bends to the left while it heads north, and its cap
    support for width 5: the cap is on the right of the path, and its
    arc, from the direction (4, -3) to the direction (4, 3), crosses
    the direction of the positive X axis. *)
Definition wrapPath : list vec3 := [V3 0 0 0; V3 3 4 0; V3 0 8 0].

Definition wrapCap : triangle := (V3 7 7 0, V3 3 4 0, V3 7 1 0).

(** * Properties *)

(** ** Comparisons *)

Lemma ltb_true_iff (x y : R) : ltb x y = true <-> x < y.
Proof. unfold ltb. destruct (Rlt_dec x y); split; intros; congruence || assumption. Qed.

Lemma ltb_false_iff (x y : R) : ltb x y = false <-> y <= x.
Proof.
  unfold ltb. destruct (Rlt_dec x y); split; intros; try congruence; lra.
Qed.

Lemma leb_true_iff (x y : R) : leb x y = true <-> x <= y.
Proof. unfold leb. destruct (Rle_dec x y); split; intros; congruence || assumption. Qed.

Lemma leb_false_iff (x y : R) : leb x y = false <-> y < x.
Proof.
  unfold leb. destruct (Rle_dec x y); split; intros; try congruence; lra.
Qed.

Lemma eqb_true_iff (x y : R) : eqb x y = true <-> x = y.
Proof. unfold eqb. destruct (Req_dec_T x y); split; intros; congruence. Qed.

(** ** The [forEach] loops push in order *)

Lemma fold_rectangleStep (rs : list quad) (m : mesh) :
  fold_left rectangleStep rs m =
  {| triangles := triangles m
                  ++ flat_map (fun r => triangles (rectangleStep emptyMesh r)) rs;
     outline := outline m
                ++ flat_map (fun r => outline (rectangleStep emptyMesh r)) rs |}.
Proof.
  revert m. induction rs as [|r rs IH]; intros m; simpl.
  - rewrite !app_nil_r. now destruct m.
  - rewrite IH. unfold rectangleStep, push. cbn [triangles outline app emptyMesh].
    now rewrite <- !app_assoc.
Qed.

Lemma fold_stubStep (cs : list quad) (m : mesh) :
  fold_left stubStep cs m =
  {| triangles := triangles m
                  ++ flat_map (fun c => triangles (stubStep emptyMesh c)) cs;
     outline := outline m
                ++ flat_map (fun c => outline (stubStep emptyMesh c)) cs |}.
Proof.
  revert m. induction cs as [|c cs IH]; intros m; simpl.
  - rewrite !app_nil_r. now destruct m.
  - rewrite IH. unfold stubStep, push. cbn [triangles outline app emptyMesh].
    now rewrite <- !app_assoc.
Qed.

Lemma fanLoop_app (pivot : vec3) (ps : list vec3) (m : mesh) :
  fanLoop pivot ps m =
  {| triangles := triangles m ++ triangles (fanLoop pivot ps emptyMesh);
     outline := outline m ++ outline (fanLoop pivot ps emptyMesh) |}.
Proof.
  revert m. induction ps as [|a ps IH]; intros m.
  - simpl. rewrite !app_nil_r. now destruct m.
  - destruct ps as [|b ps].
    + simpl. rewrite !app_nil_r. now destruct m.
    + change (fanLoop pivot (a :: b :: ps) m)
        with (fanLoop pivot (b :: ps)
                {| triangles := push (triangles m) (a, b, pivot);
                   outline := push (push (outline m) a) b |}).
      change (fanLoop pivot (a :: b :: ps) emptyMesh)
        with (fanLoop pivot (b :: ps)
                {| triangles := push [] (a, b, pivot);
                   outline := push (push [] a) b |}).
      rewrite IH. rewrite (IH {| triangles := push [] (a, b, pivot);
                                 outline := push (push [] a) b |}).
      unfold push. simpl. now rewrite <- !app_assoc.
Qed.

Lemma fanLoop_length (pivot : vec3) (ps : list vec3) :
  List.length (triangles (fanLoop pivot ps emptyMesh)) = (List.length ps - 1)%nat.
Proof.
  induction ps as [|a ps IH]; [reflexivity|].
  destruct ps as [|b ps]; [reflexivity|].
  change (fanLoop pivot (a :: b :: ps) emptyMesh)
    with (fanLoop pivot (b :: ps)
            {| triangles := push [] (a, b, pivot);
               outline := push (push [] a) b |}).
  rewrite fanLoop_app. cbn [triangles]. rewrite length_app, IH. simpl. lia.
Qed.

Lemma fold_capStep (cs : list triangle) (m : mesh) :
  fold_left capStep cs m =
  {| triangles := triangles m
                  ++ flat_map (fun c => triangles (capStep emptyMesh c)) cs;
     outline := outline m
                ++ flat_map (fun c => outline (capStep emptyMesh c)) cs |}.
Proof.
  revert m. induction cs as [|c cs IH]; intros m; simpl.
  - rewrite !app_nil_r. now destruct m.
  - rewrite IH. unfold capStep. rewrite (fanLoop_app _ _ m). simpl.
    now rewrite <- !app_assoc.
Qed.

(** The radial points: the first one, one per iteration, the last one. *)
Lemma radialPoints_eq (cs : triangle) :
  radialPoints cs =
  cs2 cs :: map (radialPoint cs) (seq 0 (Z.to_nat (numIntermediatePoints cs)))
  ++ [cs0 cs].
Proof.
  unfold radialPoints, push.
  assert (H : forall l acc,
             fold_left (fun rp i => rp ++ [radialPoint cs i]) l acc
             = acc ++ map (radialPoint cs) l).
  { induction l as [|i l IH]; intros acc; simpl.
    - now rewrite app_nil_r.
    - rewrite IH. now rewrite <- app_assoc. }
  rewrite H. reflexivity.
Qed.

Lemma radialPoints_length (cs : triangle) :
  List.length (radialPoints cs) = (Z.to_nat (numIntermediatePoints cs) + 2)%nat.
Proof.
  rewrite radialPoints_eq. simpl. rewrite length_app, length_map, length_seq.
  simpl. lia.
Qed.

(** ** The arrays of the builder have one entry per segment or joint *)

Lemma centerSegments_length (polygon : list vec3) :
  List.length (centerSegments polygon) = (List.length polygon - 1)%nat.
Proof.
  induction polygon as [|a polygon IH]; [reflexivity|].
  destruct polygon as [|b polygon]; [reflexivity|].
  change (centerSegments (a :: b :: polygon))
    with (LineSegment.new a b :: centerSegments (b :: polygon)).
  simpl List.length in *. lia.
Qed.

Lemma joints_cons (width : R) (s s' : LineSegment.t)
    (segments : list LineSegment.t) (li ri : vec3) (lefts rights : list vec3)
    (leftStart rightStart : vec3) :
  joints width (s :: s' :: segments) (li :: lefts) (ri :: rights)
         leftStart rightStart
  = resolveJoint width s s' leftStart rightStart li ri
    :: joints width (s' :: segments) lefts rights
         (nextLeftStart (resolveJoint width s s' leftStart rightStart li ri))
         (nextRightStart (resolveJoint width s s' leftStart rightStart li ri)).
Proof. reflexivity. Qed.

Lemma joints_length (width : R) (segments : list LineSegment.t) :
  forall (lefts rights : list vec3) (leftStart rightStart : vec3),
    List.length lefts = (List.length segments - 1)%nat ->
    List.length rights = (List.length segments - 1)%nat ->
    List.length (joints width segments lefts rights leftStart rightStart)
    = (List.length segments - 1)%nat.
Proof.
  induction segments as [|s segments IH]; intros lefts rights ls rs Hl Hr;
    [reflexivity|].
  destruct segments as [|s' segments]; [reflexivity|].
  destruct lefts as [|li lefts]; [discriminate|].
  destruct rights as [|ri rights]; [discriminate|].
  rewrite joints_cons. cbn [List.length] in *. rewrite IH; cbn [List.length]; lia.
Qed.

Lemma zipRectangles_length (a b c d : list vec3) :
  List.length b = List.length a -> List.length c = List.length a ->
  List.length d = List.length a ->
  List.length (zipRectangles a b c d) = List.length a.
Proof.
  revert b c d. induction a as [|x a IH]; intros [|y b] [|z c] [|t d];
    simpl; intros; try discriminate; try reflexivity.
  f_equal. apply IH; lia.
Qed.

Lemma last_map_default {A B : Type} (f : A -> B) (l : list A) (d : A) :
  last (map f l) (f d) = f (last l d).
Proof.
  induction l as [|x l IH]; [reflexivity|].
  destruct l as [|y l]; [reflexivity|].
  exact IH.
Qed.

Section BuilderFacts.

Variable removeParallel2D : list vec3 -> list vec3.
Variable intersect2D : line -> line -> result vec3.

Lemma intersections_cons (la lb ra rb : LineSegment.t)
    (lefts rights : list LineSegment.t) :
  intersections intersect2D (la :: lb :: lefts) (ra :: rb :: rights)
  = (left3D <- intersect2D (lineOf la) (lineOf lb) ;;
     right3D <- intersect2D (lineOf ra) (lineOf rb) ;;
     rest <- intersections intersect2D (lb :: lefts) (rb :: rights) ;;
     Ok (set2 left3D 0 :: fst rest, set2 right3D 0 :: snd rest)).
Proof. reflexivity. Qed.

Lemma intersections_length (lefts rights : list LineSegment.t) :
  forall ix,
    List.length rights = List.length lefts ->
    intersections intersect2D lefts rights = Ok ix ->
    List.length (fst ix) = (List.length lefts - 1)%nat /\
    List.length (snd ix) = (List.length lefts - 1)%nat.
Proof.
  revert rights. induction lefts as [|la lefts IH]; intros rights ix Hlen H.
  - simpl in H. injection H as <-. now split.
  - destruct lefts as [|lb lefts].
    + simpl in H. injection H as <-. now split.
    + destruct rights as [|ra [|rb rights]]; try discriminate.
      rewrite intersections_cons in H.
      destruct (intersect2D (lineOf la) (lineOf lb)) as [l3|]; [|discriminate].
      destruct (intersect2D (lineOf ra) (lineOf rb)) as [r3|]; [|discriminate].
      cbn [bind] in H.
      destruct (intersections intersect2D (lb :: lefts) (rb :: rights))
        as [rest|] eqn:E; [|discriminate].
      cbn [bind] in H. injection H as <-.
      destruct (IH (rb :: rights) rest) as [H1 H2];
        [cbn [List.length] in *; lia | assumption |].
      cbn [fst snd List.length] in *. split; lia.
Qed.

(** The shape of a successful [build]: at least one segment, its
    joints resolved in order. *)
Lemma build_Ok (polygon : list vec3) (w : R) (g : geometry) :
  build intersect2D polygon w = Ok g ->
  exists (s0 : LineSegment.t) (rest : list LineSegment.t) (js : list joint),
    centerSegments polygon = s0 :: rest /\
    intersections intersect2D (leftSegments g) (rightSegments g)
    = Ok (leftIntersections g, rightIntersections g) /\
    leftSegments g = map (leftSegment w) (s0 :: rest) /\
    rightSegments g = map (rightSegment w) (s0 :: rest) /\
    js = joints w (s0 :: rest) (leftIntersections g) (rightIntersections g)
           (LineSegment.from (leftSegment w s0))
           (LineSegment.from (rightSegment w s0)) /\
    List.length js = List.length rest /\
    leftStarts g = LineSegment.from (leftSegment w s0) :: map nextLeftStart js /\
    rightStarts g = LineSegment.from (rightSegment w s0) :: map nextRightStart js /\
    leftEnds g = map leftEnd js
                 ++ [LineSegment.to (leftSegment w (last rest s0))] /\
    rightEnds g = map rightEnd js
                  ++ [LineSegment.to (rightSegment w (last rest s0))] /\
    rectangles g
    = zipRectangles (leftStarts g) (rightStarts g) (rightEnds g) (leftEnds g) /\
    stubs g = flat_map (fun j => [stubA j; stubB j]) js /\
    capSupports g = map capSupport js.
Proof.
  unfold build. intros H.
  destruct (intersections intersect2D
              (map (leftSegment w) (centerSegments polygon))
              (map (rightSegment w) (centerSegments polygon)))
    as [ix|] eqn:Eix; [|discriminate].
  cbn [bind] in H.
  destruct (centerSegments polygon) as [|s0 rest] eqn:Ecs; [discriminate|].
  cbn [map] in H. injection H as <-. cbn [leftSegments rightSegments
    leftIntersections rightIntersections leftStarts rightStarts leftEnds
    rightEnds rectangles stubs capSupports].
  exists s0, rest, (joints w (s0 :: rest) (fst ix) (snd ix)
                      (LineSegment.from (leftSegment w s0))
                      (LineSegment.from (rightSegment w s0))).
  assert (Hlen : List.length (map (rightSegment w) (s0 :: rest))
                 = List.length (map (leftSegment w) (s0 :: rest)))
    by now rewrite !length_map.
  destruct (intersections_length _ _ _ Hlen Eix) as [Hl Hr].
  rewrite length_map in Hl, Hr.
  split; [reflexivity|].
  split; [change (intersections intersect2D
                   (map (leftSegment w) (s0 :: rest))
                   (map (rightSegment w) (s0 :: rest))
                 = Ok (fst ix, snd ix)); rewrite Eix; now destruct ix|].
  do 3 (split; [reflexivity|]).
  split; [rewrite joints_length; cbn [List.length] in *; lia|].
  do 2 (split; [reflexivity|]).
  split.
  { unfold push. f_equal. f_equal. f_equal.
    destruct rest as [|s1 rest]; [reflexivity|].
    apply (last_map_default (leftSegment w) (s1 :: rest) s0). }
  split.
  { unfold push. f_equal. f_equal. f_equal.
    destruct rest as [|s1 rest]; [reflexivity|].
    apply (last_map_default (rightSegment w) (s1 :: rest) s0). }
  repeat split; reflexivity.
Qed.

End BuilderFacts.

(** ** Validation comes first *)

(** C7. A path of fewer than two points, or a width that is zero or
    negative, makes the builder fail with [InvalidInput]; the failure
    is decided by the validation alone, whatever the collinear filter
    and the intersection helper would do (neither is consulted), and
    no mesh is returned. *)
Theorem invalid_input_fails_first
    (removeParallel2D : list vec3 -> list vec3)
    (intersect2D : line -> line -> result vec3)
    (polygon : list vec3) (options : options) :
  (List.length polygon < 2)%nat \/ width options <= 0 ->
  validate polygon options = Err InvalidInput /\
  ribbon removeParallel2D intersect2D polygon options = Err InvalidInput.
Proof.
  intros H.
  assert (Hv : validate polygon options = Err InvalidInput).
  { unfold validate.
    destruct (Nat.ltb_spec (List.length polygon) 2) as [Hlt|Hge]; [reflexivity|].
    destruct H as [H|H]; [lia|].
    apply ltb_false_iff in H. now rewrite H. }
  split; [exact Hv|].
  unfold ribbon. now rewrite Hv.
Qed.

(** ** The closed flag *)

Lemma tessellate_eq (closed : bool) (g : geometry) :
  tessellate closed g =
  (extra <- closing closed (rectangles g) ;;
   Ok {| triangles :=
           flat_map (fun r => triangles (rectangleStep emptyMesh r)) (rectangles g)
           ++ flat_map (fun c => triangles (stubStep emptyMesh c)) (stubs g)
           ++ flat_map (fun c => triangles (capStep emptyMesh c)) (capSupports g);
         outline :=
           (flat_map (fun r => outline (rectangleStep emptyMesh r)) (rectangles g)
            ++ extra)
           ++ flat_map (fun c => outline (stubStep emptyMesh c)) (stubs g)
           ++ flat_map (fun c => outline (capStep emptyMesh c)) (capSupports g) |}).
Proof.
  unfold tessellate.
  destruct (closing closed (rectangles g)) as [extra|e]; [|reflexivity].
  cbn [bind]. rewrite fold_capStep, fold_stubStep, fold_rectangleStep.
  cbn [triangles outline app]. now rewrite <- !app_assoc.
Qed.

Lemma build_rectangles_length (intersect2D : line -> line -> result vec3)
    (polygon : list vec3) (w : R) (g : geometry) :
  build intersect2D polygon w = Ok g ->
  List.length (rectangles g) = List.length (centerSegments polygon) /\
  List.length (stubs g) = (2 * (List.length (centerSegments polygon) - 1))%nat /\
  List.length (capSupports g) = (List.length (centerSegments polygon) - 1)%nat /\
  (1 <= List.length (centerSegments polygon))%nat.
Proof.
  intros H. destruct (build_Ok _ _ _ _ H)
    as (s0 & rest & js & Hcs & _ & _ & _ & _ & Hjs & Hls & Hrs & Hle & Hre
        & Hrect & Hst & Hcap).
  rewrite Hcs, Hrect, Hst, Hcap. cbn [List.length].
  rewrite zipRectangles_length;
    rewrite ?Hls, ?Hrs, ?Hle, ?Hre; cbn [List.length];
    rewrite ?length_app, ?length_map; cbn [List.length]; try lia.
  repeat split; try lia.
  rewrite (flat_map_constant_length (c := 2%nat)); [lia|reflexivity].
Qed.

(** C5. The closed flag changes only the outline. Both calls fail
    alike or succeed alike; when they succeed the triangles are the
    same, and the outline of the open call is the outline of the closed
    call with exactly four more points at one place: the two start
    corners of the first rectangle, then the two end corners of the
    last one. *)
Theorem closed_changes_only_outline
    (removeParallel2D : list vec3 -> list vec3)
    (intersect2D : line -> line -> result vec3)
    (polygon : list vec3) (w : R) :
  match ribbon removeParallel2D intersect2D polygon {| width := w; closed := false |},
        ribbon removeParallel2D intersect2D polygon {| width := w; closed := true |}
  with
  | Ok opened, Ok closed' =>
      triangles opened = triangles closed' /\
      exists (g : geometry) (before after : list vec3) (first final : quad),
        build intersect2D (removeParallel2D polygon) w = Ok g /\
        hd_error (rectangles g) = Some first /\
        last (rectangles g) first = final /\
        outline closed' = before ++ after /\
        outline opened
        = before ++ [q0 first; q1 first; q2 final; q3 final] ++ after
  | Err e, Err e' => e = e'
  | _, _ => False
  end.
Proof.
  unfold ribbon. cbn [width closed].
  destruct (validate polygon {| width := w; closed := false |}) as [[]|e] eqn:Ev.
  2:{ replace (validate polygon {| width := w; closed := true |}) with (@Err unit e)
        by (rewrite <- Ev; reflexivity).
      reflexivity. }
  replace (validate polygon {| width := w; closed := true |}) with (Ok tt)
    by (rewrite <- Ev; reflexivity).
  cbn [bind].
  destruct (build intersect2D (removeParallel2D polygon) w) as [g|e] eqn:Eg;
    [|reflexivity].
  cbn [bind]. rewrite !tessellate_eq.
  destruct (build_rectangles_length _ _ _ _ Eg) as (Hlen & _ & _ & Hpos).
  destruct (rectangles g) as [|first rs] eqn:Er;
    [cbn [List.length] in Hlen; lia|].
  unfold closing. cbn [bind triangles outline]. split; [reflexivity|].
  exists g, (flat_map (fun r => outline (rectangleStep emptyMesh r)) (first :: rs)),
    (flat_map (fun c => outline (stubStep emptyMesh c)) (stubs g)
     ++ flat_map (fun c => outline (capStep emptyMesh c)) (capSupports g)),
    first, (last (first :: rs) first).
  rewrite Er. rewrite app_nil_r, <- app_assoc.
  repeat split; reflexivity.
Qed.

Lemma tessellate_triangles_length (flag : bool) (g : geometry) (m : mesh) :
  tessellate flag g = Ok m ->
  List.length (triangles m) =
  (2 * List.length (rectangles g) + 2 * List.length (stubs g)
   + list_sum (map (fun cs => List.length (radialPoints cs) - 1)
                   (capSupports g)))%nat.
Proof.
  rewrite tessellate_eq. intros H.
  destruct (closing flag (rectangles g)) as [extra|]; [|discriminate].
  cbn [bind] in H. injection H as <-. cbn [triangles].
  rewrite !length_app.
  rewrite (flat_map_constant_length (c := 2%nat)) by reflexivity.
  rewrite (flat_map_constant_length (c := 2%nat)) by reflexivity.
  rewrite length_flat_map.
  rewrite (map_ext (fun c => List.length (triangles (capStep emptyMesh c)))
                   (fun cs => (List.length (radialPoints cs) - 1)%nat))
    by (intros cs; unfold capStep; apply fanLoop_length).
  generalize (list_sum (map (fun cs : triangle =>
                               (List.length (radialPoints cs) - 1)%nat)
                            (capSupports g))).
  intros k. unfold quad. lia.
Qed.

(** ** Counting triangles *)

(** C4, amended. For every input the builder accepts: there is one
    rectangle per center segment of the filtered path and two stubs and
    one cap support per interior joint; the triangle list is the two
    triangles [[0,1,2]] and [[0,2,3]] of each rectangle, then the two
    triangles [[0,1,2]] and [[0,2,3]] of each stub, then the fan of
    each cap support; a fan has [radialPoints.length - 1] triangles,
    and [radialPoints.length] is [numIntermediatePoints + 2] when
    [numIntermediatePoints] is not negative and 2 otherwise. *)
Theorem triangle_counts
    (removeParallel2D : list vec3 -> list vec3)
    (intersect2D : line -> line -> result vec3)
    (polygon : list vec3) (options : options) (m : mesh) :
  ribbon removeParallel2D intersect2D polygon options = Ok m ->
  exists g : geometry,
    build intersect2D (removeParallel2D polygon) (width options) = Ok g /\
    let segments := List.length (centerSegments (removeParallel2D polygon)) in
    List.length (rectangles g) = segments /\
    List.length (stubs g) = (2 * (segments - 1))%nat /\
    List.length (capSupports g) = (segments - 1)%nat /\
    triangles m =
      flat_map (fun r => [(q0 r, q1 r, q2 r); (q0 r, q2 r, q3 r)]) (rectangles g)
      ++ flat_map (fun c => [(q0 c, q1 c, q2 c); (q0 c, q2 c, q3 c)]) (stubs g)
      ++ flat_map (fun cs => triangles (capStep emptyMesh cs)) (capSupports g) /\
    (forall cs : triangle,
        List.length (triangles (capStep emptyMesh cs))
        = (List.length (radialPoints cs) - 1)%nat /\
        List.length (radialPoints cs)
        = (Z.to_nat (numIntermediatePoints cs) + 2)%nat) /\
    List.length (triangles m) =
      (2 * List.length (rectangles g) + 2 * List.length (stubs g)
       + list_sum (map (fun cs => List.length (radialPoints cs) - 1)
                       (capSupports g)))%nat.
Proof.
  unfold ribbon. intros H.
  destruct (validate polygon options) as [[]|]; [|discriminate].
  cbn [bind] in H.
  destruct (build intersect2D (removeParallel2D polygon) (width options))
    as [g|] eqn:Eg; [|discriminate].
  cbn [bind] in H. rewrite tessellate_eq in H.
  destruct (closing (closed options) (rectangles g)) as [extra|]; [|discriminate].
  cbn [bind] in H. injection H as <-. cbn [triangles].
  exists g. split; [reflexivity|]. cbv zeta.
  destruct (build_rectangles_length _ _ _ _ Eg) as (Hr & Hs & Hc & _).
  change (fun r : quad => triangles (rectangleStep emptyMesh r))
    with (fun r : quad => [(q0 r, q1 r, q2 r); (q0 r, q2 r, q3 r)]).
  change (fun c : quad => triangles (stubStep emptyMesh c))
    with (fun c : quad => [(q0 c, q1 c, q2 c); (q0 c, q2 c, q3 c)]).
  assert (Hfan : forall cs : triangle,
             List.length (triangles (capStep emptyMesh cs))
             = (List.length (radialPoints cs) - 1)%nat).
  { intros cs. unfold capStep. apply fanLoop_length. }
  repeat split; try assumption.
  - apply Hfan.
  - apply radialPoints_length.
  - rewrite !length_app.
    rewrite (flat_map_constant_length (c := 2%nat)) by reflexivity.
    rewrite (flat_map_constant_length (c := 2%nat)) by reflexivity.
    rewrite length_flat_map.
    rewrite (map_ext _ _ Hfan).
    generalize (list_sum (map (fun cs : triangle =>
                                 (List.length (radialPoints cs) - 1)%nat)
                              (capSupports g))).
    intros k. unfold quad. lia.
Qed.

(** ** The inside corner of a joint *)

Lemma nth_error_zipRectangles (a b c d : list vec3) (i : nat) (x y z t : vec3) :
  nth_error (zipRectangles a b c d) i = Some (x, y, z, t) ->
  nth_error a i = Some x /\ nth_error b i = Some y /\
  nth_error c i = Some z /\ nth_error d i = Some t.
Proof.
  revert b c d i.
  induction a as [|x' a IH]; intros [|y' b] [|z' c] [|t' d] [|i] H;
    simpl in H; try discriminate.
  - injection H as -> -> -> ->. now repeat split.
  - apply IH in H. exact H.
Qed.

(** Iteration [i] of the joint loop resolves segments [i] and [i + 1]
    with the intersections [i], from the starts it reads at index [i]. *)
Lemma joints_nth_error (w : R) (i : nat) :
  forall (segments : list LineSegment.t) (lefts rights : list vec3)
         (leftStart rightStart : vec3) (j : joint),
    nth_error (joints w segments lefts rights leftStart rightStart) i = Some j ->
    exists (s s' : LineSegment.t) (li ri ls rs : vec3),
      nth_error segments i = Some s /\
      nth_error segments (S i) = Some s' /\
      nth_error lefts i = Some li /\
      nth_error rights i = Some ri /\
      nth_error (leftStart
                 :: map nextLeftStart
                      (joints w segments lefts rights leftStart rightStart)) i
      = Some ls /\
      nth_error (rightStart
                 :: map nextRightStart
                      (joints w segments lefts rights leftStart rightStart)) i
      = Some rs /\
      j = resolveJoint w s s' ls rs li ri.
Proof.
  induction i as [|i IH]; intros segments lefts rights ls rs j H.
  - destruct segments as [|s [|s' segments]]; try discriminate.
    destruct lefts as [|li lefts]; [discriminate|].
    destruct rights as [|ri rights]; [discriminate|].
    rewrite joints_cons in H. injection H as <-.
    exists s, s', li, ri, ls, rs. now repeat split.
  - destruct segments as [|s [|s' segments]]; try discriminate.
    destruct lefts as [|li lefts]; [discriminate|].
    destruct rights as [|ri rights]; [discriminate|].
    rewrite joints_cons in *. cbn [nth_error] in H.
    destruct (IH _ _ _ _ _ _ H)
      as (t & t' & li' & ri' & ls' & rs' & H1 & H2 & H3 & H4 & H5 & H6 & H7).
    exists t, t', li', ri', ls', rs'. now repeat split.
Qed.

Section JointFacts.

Variable intersect2D : line -> line -> result vec3.

(** Entry [i] of the two arrays of intersections is [intersect2D] of
    the offset segments [i] and [i + 1], with [z] set to 0. *)
Lemma intersections_nth_error (i : nat) :
  forall (lefts rights : list LineSegment.t) (ix : list vec3 * list vec3)
         (li ri : vec3),
    intersections intersect2D lefts rights = Ok ix ->
    nth_error (fst ix) i = Some li ->
    nth_error (snd ix) i = Some ri ->
    exists (la lb ra rb : LineSegment.t) (left3D right3D : vec3),
      nth_error lefts i = Some la /\ nth_error lefts (S i) = Some lb /\
      nth_error rights i = Some ra /\ nth_error rights (S i) = Some rb /\
      intersect2D (lineOf la) (lineOf lb) = Ok left3D /\
      intersect2D (lineOf ra) (lineOf rb) = Ok right3D /\
      li = set2 left3D 0 /\ ri = set2 right3D 0.
Proof.
  induction i as [|i IH]; intros lefts rights ix li ri H Hl Hr.
  - destruct lefts as [|la [|lb lefts]];
      try (simpl in H; injection H as <-; discriminate).
    destruct rights as [|ra [|rb rights]];
      try (simpl in H; injection H as <-; discriminate).
    rewrite intersections_cons in H.
    destruct (intersect2D (lineOf la) (lineOf lb)) as [l3|] eqn:El; [|discriminate].
    destruct (intersect2D (lineOf ra) (lineOf rb)) as [r3|] eqn:Er; [|discriminate].
    cbn [bind] in H.
    destruct (intersections intersect2D (lb :: lefts) (rb :: rights))
      as [rest|]; [|discriminate].
    cbn [bind] in H. injection H as <-. cbn [fst snd nth_error] in Hl, Hr.
    injection Hl as <-. injection Hr as <-.
    exists la, lb, ra, rb, l3, r3. now repeat split.
  - destruct lefts as [|la [|lb lefts]];
      try (simpl in H; injection H as <-; discriminate).
    destruct rights as [|ra [|rb rights]];
      try (simpl in H; injection H as <-; discriminate).
    rewrite intersections_cons in H.
    destruct (intersect2D (lineOf la) (lineOf lb)) as [l3|] eqn:El; [|discriminate].
    destruct (intersect2D (lineOf ra) (lineOf rb)) as [r3|] eqn:Er; [|discriminate].
    cbn [bind] in H.
    destruct (intersections intersect2D (lb :: lefts) (rb :: rights))
      as [rest|] eqn:Erest; [|discriminate].
    cbn [bind] in H. injection H as <-. cbn [fst snd nth_error] in Hl, Hr.
    destruct (IH _ _ _ _ _ Erest Hl Hr)
      as (la' & lb' & ra' & rb' & l3' & r3' & H1 & H2 & H3 & H4 & H5 & H6 & H7 & H8).
    exists la', lb', ra', rb', l3', r3'. now repeat split.
Qed.

End JointFacts.

Lemma resolveJoint_left (w : R) (s s' : LineSegment.t) (ls rs li ri : vec3) :
  v3.length (v3.sub li ls) < v3.length (v3.sub ri rs) ->
  let j := resolveJoint w s s' ls rs li ri in
  leftIsShorter j = true /\ insideIntersection j = li /\
  leftEnd j = li /\ nextLeftStart j = li.
Proof.
  intros H. apply ltb_true_iff in H. unfold resolveJoint. rewrite H.
  now repeat split.
Qed.

Lemma resolveJoint_right (w : R) (s s' : LineSegment.t) (ls rs li ri : vec3) :
  v3.length (v3.sub ri rs) <= v3.length (v3.sub li ls) ->
  let j := resolveJoint w s s' ls rs li ri in
  leftIsShorter j = false /\ insideIntersection j = ri /\
  rightEnd j = ri /\ nextRightStart j = ri.
Proof.
  intros H. apply ltb_false_iff in H. unfold resolveJoint. rewrite H.
  now repeat split.
Qed.

Lemma nth_error_map_Some {A B : Type} (f : A -> B) (l : list A) (i : nat) (b : B) :
  nth_error (map f l) i = Some b -> exists a, nth_error l i = Some a /\ b = f a.
Proof.
  rewrite nth_error_map. destruct (nth_error l i) as [a|]; [|discriminate].
  intros H. injection H as <-. now exists a.
Qed.

(** C1, amended. At every interior joint [i] the builder compares the
    distance from the left offset intersection to the resolved left
    start of rectangle [i] with the distance from the right offset
    intersection to the resolved right start of rectangle [i]; the
    starts of rectangle 0 are the from-points of the offset segments 0.
    When the left distance is strictly shorter the left intersection is
    the left end of rectangle [i] and the left start of rectangle
    [i + 1]; otherwise the right intersection is the right end of
    rectangle [i] and the right start of rectangle [i + 1]. *)
Theorem inside_corner_rule
    (intersect2D : line -> line -> result vec3)
    (polygon : list vec3) (w : R) (g : geometry) (i : nat)
    (ls rs re le ls' rs' re' le' : vec3) :
  build intersect2D polygon w = Ok g ->
  nth_error (rectangles g) i = Some (ls, rs, re, le) ->
  nth_error (rectangles g) (S i) = Some (ls', rs', re', le') ->
  exists (la lb ra rb : LineSegment.t) (left3D right3D : vec3),
    nth_error (leftSegments g) i = Some la /\
    nth_error (leftSegments g) (S i) = Some lb /\
    nth_error (rightSegments g) i = Some ra /\
    nth_error (rightSegments g) (S i) = Some rb /\
    intersect2D (lineOf la) (lineOf lb) = Ok left3D /\
    intersect2D (lineOf ra) (lineOf rb) = Ok right3D /\
    let leftIntersection := set2 left3D 0 in
    let rightIntersection := set2 right3D 0 in
    (i = 0%nat -> ls = LineSegment.from la /\ rs = LineSegment.from ra) /\
    (v3.length (v3.sub leftIntersection ls)
     < v3.length (v3.sub rightIntersection rs) ->
     le = leftIntersection /\ ls' = leftIntersection) /\
    (v3.length (v3.sub rightIntersection rs)
     <= v3.length (v3.sub leftIntersection ls) ->
     re = rightIntersection /\ rs' = rightIntersection).
Proof.
  intros Hb Hi HSi.
  destruct (build_Ok _ _ _ _ Hb)
    as (s0 & rest & js & Hcs & Hix & Hlefts & Hrights & Hjs & Hlen & Hls & Hrs
        & Hle & Hre & Hrect & _ & _).
  rewrite Hrect in Hi, HSi.
  apply nth_error_zipRectangles in Hi. destruct Hi as (Hi1 & Hi2 & Hi3 & Hi4).
  apply nth_error_zipRectangles in HSi. destruct HSi as (HS1 & HS2 & _ & _).
  rewrite Hls in Hi1, HS1. rewrite Hrs in Hi2, HS2.
  rewrite Hre in Hi3. rewrite Hle in Hi4.
  cbn [nth_error] in HS1, HS2.
  destruct (nth_error_map_Some _ _ _ _ HS1) as (j & Hj & ->).
  destruct (nth_error_map_Some _ _ _ _ HS2) as (j' & Hj' & ->).
  rewrite Hj in Hj'. injection Hj' as <-.
  assert (Hlt : (i < List.length js)%nat)
    by (apply nth_error_Some; congruence).
  rewrite nth_error_app1 in Hi3, Hi4 by (rewrite length_map; exact Hlt).
  destruct (nth_error_map_Some _ _ _ _ Hi3) as (j3 & Hj3 & ->).
  destruct (nth_error_map_Some _ _ _ _ Hi4) as (j4 & Hj4 & ->).
  rewrite Hj in Hj3, Hj4. injection Hj3 as <-. injection Hj4 as <-.
  rewrite Hjs in Hj.
  destruct (joints_nth_error _ _ _ _ _ _ _ _ Hj)
    as (s & s' & li & ri & lst & rst & _ & _ & Hli & Hri & Hlst & Hrst & Ej).
  rewrite <- Hjs in Hlst, Hrst.
  rewrite Hi1 in Hlst. injection Hlst as <-.
  rewrite Hi2 in Hrst. injection Hrst as <-.
  destruct (intersections_nth_error _ _ _ _ _ _ _ Hix Hli Hri)
    as (la & lb & ra & rb & left3D & right3D & Hla & Hlb & Hra & Hrb & Hl3 & Hr3
        & -> & ->).
  exists la, lb, ra, rb, left3D, right3D. cbv zeta.
  repeat (split; [assumption|]).
  split; [|split].
  - intros ->. cbn [nth_error] in Hi1, Hi2.
    rewrite Hlefts in Hla. rewrite Hrights in Hra. cbn [map nth_error] in Hla, Hra.
    injection Hla as <-. injection Hra as <-.
    injection Hi1 as <-. injection Hi2 as <-. now split.
  - intros H. subst j.
    destruct (resolveJoint_left w s s' ls rs _ _ H) as (_ & _ & H1 & H2).
    now split.
  - intros H. subst j.
    destruct (resolveJoint_right w s s' ls rs _ _ H) as (_ & _ & H1 & H2).
    now split.
Qed.

(** ** Evaluating the vector operations *)

Lemma V3_eq (a b c a' b' c' : R) :
  a = a' -> b = b' -> c = c' -> V3 a b c = V3 a' b' c'.
Proof. now intros -> -> ->. Qed.

Lemma length_of (a : vec3) (l : R) :
  0 <= l -> l * l = c0 a * c0 a + c1 a * c1 a + c2 a * c2 a -> v3.length a = l.
Proof.
  intros Hl H. unfold v3.length. rewrite <- H. now apply sqrt_square.
Qed.

Lemma length_nonneg (a : vec3) : 0 <= v3.length a.
Proof. apply sqrt_pos. Qed.

(** The unit left normal of a segment that is not vertical: the offset
    direction of lines 64, 113-114 and 122-123. *)
Lemma offsetDir_new (f t : vec3) (m : R) :
  0 < m ->
  m * m = (c0 t - c0 f) * (c0 t - c0 f) + (c1 t - c1 f) * (c1 t - c1 f) ->
  offsetDir (LineSegment.new f t)
  = V3 (- (c1 t - c1 f) / m) ((c0 t - c0 f) / m) 0.
Proof.
  intros Hm Hmm.
  unfold offsetDir, LineSegment.new. cbn [LineSegment.direction].
  set (dx := c0 t - c0 f) in *. set (dy := c1 t - c1 f) in *.
  set (dz := c2 t - c2 f).
  set (L := v3.length (v3.sub t f)).
  assert (HLL : L * L = dx * dx + dy * dy + dz * dz).
  { unfold L, v3.length. cbn [v3.sub c0 c1 c2]. apply sqrt_sqrt.
    fold dx dy dz. nra. }
  assert (HL0 : 0 <= L) by apply length_nonneg.
  assert (HL : 0 < L) by nra.
  assert (Hc : v3.cross zAxis (v3.norm (v3.sub t f)) = V3 (- dy / L) (dx / L) 0).
  { unfold v3.norm, v3.cross, zAxis. cbn [v3.sub c0 c1 c2]. fold dx dy dz L.
    apply V3_eq; field; lra. }
  rewrite Hc.
  assert (Hlen : v3.length (V3 (- dy / L) (dx / L) 0) = m / L).
  { apply length_of.
    - apply Rlt_le, Rdiv_lt_0_compat; assumption.
    - cbn [c0 c1 c2].
      replace (m / L * (m / L)) with ((m * m) / (L * L)) by (field; lra).
      rewrite Hmm. field. lra. }
  unfold v3.norm. rewrite Hlen. cbn [c0 c1 c2].
  apply V3_eq; field; lra.
Qed.

Ltac vec_simpl :=
  cbv beta iota zeta delta
      [c0 c1 c2 v3.add v3.sub v3.multiply v3.neg v3.cross set2 zAxis
       LineSegment.from LineSegment.to LineSegment.direction lineOf
       fst snd cs0 cs1 cs2].

(** Solves an equation between points, quads or lists of them whose
    coordinates are equal by linear arithmetic or in a field. *)
Ltac vec_eq :=
  repeat match goal with
  | |- V3 _ _ _ = V3 _ _ _ => apply V3_eq
  | |- (_, _) = (_, _) => apply f_equal2
  | |- _ :: _ = _ :: _ => apply f_equal2
  | |- [] = [] => reflexivity
  | |- @eq R _ _ => vec_simpl; first [lra | field; lra]
  | |- _ = _ => progress vec_simpl
  end.

Lemma ltb_true (x y : R) : x < y -> ltb x y = true.
Proof. apply ltb_true_iff. Qed.

Lemma ltb_false (x y : R) : y <= x -> ltb x y = false.
Proof. apply ltb_false_iff. Qed.

(** ** The straight path of two points *)

Lemma offsetDir_east (x x' y : R) (z z' : R) :
  x < x' ->
  offsetDir (LineSegment.new (V3 x y z) (V3 x' y z')) = V3 0 1 0.
Proof.
  intros H. rewrite (offsetDir_new _ _ (x' - x)); vec_simpl; [|lra|lra].
  vec_eq.
Qed.

Lemma build_single (intersect2D : line -> line -> result vec3)
    (a b : vec3) (w : R) :
  let s := LineSegment.new a b in
  build intersect2D [a; b] w =
  Ok {| leftSegments := [leftSegment w s];
        rightSegments := [rightSegment w s];
        leftIntersections := [];
        rightIntersections := [];
        leftStarts := [LineSegment.from (leftSegment w s)];
        rightStarts := [LineSegment.from (rightSegment w s)];
        leftEnds := [LineSegment.to (leftSegment w s)];
        rightEnds := [LineSegment.to (rightSegment w s)];
        rectangles := [(LineSegment.from (leftSegment w s),
                        LineSegment.from (rightSegment w s),
                        LineSegment.to (rightSegment w s),
                        LineSegment.to (leftSegment w s))];
        stubs := [];
        capSupports := [] |}.
Proof. reflexivity. Qed.

Lemma straight_build (intersect2D : line -> line -> result vec3) :
  build intersect2D straightPath 1 = Ok straightGeometry.
Proof.
  unfold straightPath. rewrite build_single. cbv zeta.
  unfold straightGeometry, leftSegment, rightSegment.
  rewrite (offsetDir_east 0 10 0 0 0) by lra.
  unfold LineSegment.new. vec_simpl.
  do 2 f_equal; vec_eq.
Qed.

Lemma straight_ribbon (tolerance : R)
    (intersect2D : line -> line -> result vec3) (flag : bool) :
  ribbon (Spec.removeParallel2D tolerance) intersect2D straightPath
         {| width := 1; closed := flag |}
  = tessellate flag straightGeometry.
Proof.
  unfold ribbon, validate.
  cbn [straightPath List.length Nat.ltb Nat.leb width closed].
  rewrite (ltb_true 0 1) by lra.
  cbn [bind Spec.removeParallel2D Spec.removeInterior].
  fold straightPath. rewrite straight_build. reflexivity.
Qed.

(** C2. The straight path [(0,0,0), (10,0,0)] with width 1, open:
    exactly one rectangle, with the corners (0,1,0), (0,-1,0),
    (10,-1,0), (10,1,0); no stub and no cap support; exactly two
    triangles and an outline of eight points. This holds whatever the
    tolerance of the collinear filter, and whatever the intersection
    helper does (a path of one segment has no joint). *)
Theorem straight_path_mesh (tolerance : R)
    (intersect2D : line -> line -> result vec3) :
  exists (g : geometry) (m : mesh),
    Spec.removeParallel2D tolerance straightPath = straightPath /\
    build intersect2D straightPath 1 = Ok g /\
    ribbon (Spec.removeParallel2D tolerance) intersect2D straightPath
           {| width := 1; closed := false |} = Ok m /\
    rectangles g = [(V3 0 1 0, V3 0 (-1) 0, V3 10 (-1) 0, V3 10 1 0)] /\
    stubs g = [] /\ capSupports g = [] /\
    triangles m = [(V3 0 1 0, V3 0 (-1) 0, V3 10 (-1) 0);
                   (V3 0 1 0, V3 10 (-1) 0, V3 10 1 0)] /\
    outline m = [V3 0 (-1) 0; V3 10 (-1) 0; V3 10 1 0; V3 0 1 0;
                 V3 0 1 0; V3 0 (-1) 0; V3 10 (-1) 0; V3 10 1 0] /\
    List.length (triangles m) = 2%nat /\ List.length (outline m) = 8%nat.
Proof.
  exists straightGeometry.
  exists {| triangles := [(V3 0 1 0, V3 0 (-1) 0, V3 10 (-1) 0);
                          (V3 0 1 0, V3 10 (-1) 0, V3 10 1 0)];
            outline := [V3 0 (-1) 0; V3 10 (-1) 0; V3 10 1 0; V3 0 1 0;
                        V3 0 1 0; V3 0 (-1) 0; V3 10 (-1) 0; V3 10 1 0] |}.
  split; [reflexivity|].
  split; [apply straight_build|].
  split; [rewrite straight_ribbon; reflexivity|].
  repeat split; reflexivity.
Qed.

(** ** Paths with one interior joint *)

Lemma resolveJoint_true (w : R) (s s' : LineSegment.t) (ls rs li ri : vec3) :
  v3.length (v3.sub li ls) < v3.length (v3.sub ri rs) ->
  resolveJoint w s s' ls rs li ri =
  let offset1 := v3.neg (offsetDir s) in
  let offset2 := v3.neg (offsetDir s') in
  let to := LineSegment.to s in
  {| leftIsShorter := true;
     insideIntersection := li;
     leftEnd := li;
     rightEnd := v3.add li (v3.multiply offset1 (w * 2));
     nextLeftStart := li;
     nextRightStart := v3.add li (v3.multiply offset2 (w * 2));
     stubA := (li, to, v3.add to (v3.multiply offset2 w),
               v3.add li (v3.multiply offset2 (w * 2)));
     stubB := (to, li, v3.add li (v3.multiply offset1 (w * 2)),
               v3.add to (v3.multiply offset1 w));
     capSupport := (v3.add to (v3.multiply offset2 w), to,
                    v3.add to (v3.multiply offset1 w)) |}.
Proof.
  intros H. apply ltb_true_iff in H. unfold resolveJoint. rewrite H. reflexivity.
Qed.

Lemma resolveJoint_false (w : R) (s s' : LineSegment.t) (ls rs li ri : vec3) :
  v3.length (v3.sub ri rs) <= v3.length (v3.sub li ls) ->
  resolveJoint w s s' ls rs li ri =
  let offset2 := offsetDir s in
  let offset1 := offsetDir s' in
  let to := LineSegment.to s in
  {| leftIsShorter := false;
     insideIntersection := ri;
     leftEnd := v3.add ri (v3.multiply offset2 (w * 2));
     rightEnd := ri;
     nextLeftStart := v3.add ri (v3.multiply offset1 (w * 2));
     nextRightStart := ri;
     stubA := (ri, to, v3.add to (v3.multiply offset2 w),
               v3.add ri (v3.multiply offset2 (w * 2)));
     stubB := (to, ri, v3.add ri (v3.multiply offset1 (w * 2)),
               v3.add to (v3.multiply offset1 w));
     capSupport := (v3.add to (v3.multiply offset2 w), to,
                    v3.add to (v3.multiply offset1 w)) |}.
Proof.
  intros H. apply ltb_false_iff in H. unfold resolveJoint. rewrite H. reflexivity.
Qed.

(** The builder on a path of three points, once the two intersections
    at its joint are known. *)
Lemma build_one_joint (intersect2D : line -> line -> result vec3)
    (a b c : vec3) (w : R) (left3D right3D : vec3) :
  let s0 := LineSegment.new a b in
  let s1 := LineSegment.new b c in
  intersect2D (lineOf (leftSegment w s0)) (lineOf (leftSegment w s1)) = Ok left3D ->
  intersect2D (lineOf (rightSegment w s0)) (lineOf (rightSegment w s1)) = Ok right3D ->
  let j := resolveJoint w s0 s1
             (LineSegment.from (leftSegment w s0))
             (LineSegment.from (rightSegment w s0))
             (set2 left3D 0) (set2 right3D 0) in
  build intersect2D [a; b; c] w =
  Ok {| leftSegments := [leftSegment w s0; leftSegment w s1];
        rightSegments := [rightSegment w s0; rightSegment w s1];
        leftIntersections := [set2 left3D 0];
        rightIntersections := [set2 right3D 0];
        leftStarts := [LineSegment.from (leftSegment w s0); nextLeftStart j];
        rightStarts := [LineSegment.from (rightSegment w s0); nextRightStart j];
        leftEnds := [leftEnd j; LineSegment.to (leftSegment w s1)];
        rightEnds := [rightEnd j; LineSegment.to (rightSegment w s1)];
        rectangles :=
          [(LineSegment.from (leftSegment w s0),
            LineSegment.from (rightSegment w s0), rightEnd j, leftEnd j);
           (nextLeftStart j, nextRightStart j,
            LineSegment.to (rightSegment w s1),
            LineSegment.to (leftSegment w s1))];
        stubs := [stubA j; stubB j];
        capSupports := [capSupport j] |}.
Proof.
  intros s0 s1 Hl Hr j. unfold build.
  change (centerSegments [a; b; c]) with [s0; s1].
  cbn [map]. rewrite intersections_cons, Hl, Hr. reflexivity.
Qed.

(** The intersection helper on two lines that are not parallel. *)
Lemma intersect2D_value (epsilon : R) (p1 p2 p3 p4 : vec3) (x y : R) :
  0 <= epsilon ->
  epsilon < Rabs (Spec.det2D (p1, p2) (p3, p4)) ->
  x * Spec.det2D (p1, p2) (p3, p4)
  = (c0 p1 * c1 p2 - c1 p1 * c0 p2) * (c0 p3 - c0 p4)
    - (c0 p1 - c0 p2) * (c0 p3 * c1 p4 - c1 p3 * c0 p4) ->
  y * Spec.det2D (p1, p2) (p3, p4)
  = (c0 p1 * c1 p2 - c1 p1 * c0 p2) * (c1 p3 - c1 p4)
    - (c1 p1 - c1 p2) * (c0 p3 * c1 p4 - c1 p3 * c0 p4) ->
  Spec.intersect2D epsilon (p1, p2) (p3, p4) = Ok (V3 x y 0).
Proof.
  intros He Hd Hx Hy.
  assert (Hne : Spec.det2D (p1, p2) (p3, p4) <> 0).
  { intros E. rewrite E, Rabs_R0 in Hd. lra. }
  unfold Spec.intersect2D.
  apply leb_false_iff in Hd. rewrite Hd.
  f_equal. apply V3_eq; [| |reflexivity].
  - rewrite <- Hx. field. exact Hne.
  - rewrite <- Hy. field. exact Hne.
Qed.

Lemma offsetDir_north (x y y' : R) (z z' : R) :
  y < y' ->
  offsetDir (LineSegment.new (V3 x y z) (V3 x y' z')) = V3 (-1) 0 0.
Proof.
  intros H. rewrite (offsetDir_new _ _ (y' - y)); vec_simpl; [|lra|lra].
  vec_eq.
Qed.

Lemma lineOf_leftSegment (w : R) (f t n : vec3) :
  offsetDir (LineSegment.new f t) = n ->
  lineOf (leftSegment w (LineSegment.new f t))
  = (v3.add f (v3.multiply n w), v3.add t (v3.multiply n w)).
Proof. intros <-. reflexivity. Qed.

Lemma lineOf_rightSegment (w : R) (f t n : vec3) :
  offsetDir (LineSegment.new f t) = n ->
  lineOf (rightSegment w (LineSegment.new f t))
  = (v3.add f (v3.multiply n (- w)), v3.add t (v3.multiply n (- w))).
Proof. intros <-. reflexivity. Qed.

Lemma to_new (f t : vec3) : LineSegment.to (LineSegment.new f t) = t.
Proof. reflexivity. Qed.

Lemma from_new (f t : vec3) : LineSegment.from (LineSegment.new f t) = f.
Proof. reflexivity. Qed.

Lemma lineOf_from (s : LineSegment.t) : LineSegment.from s = fst (lineOf s).
Proof. reflexivity. Qed.

Lemma lineOf_to (s : LineSegment.t) : LineSegment.to s = snd (lineOf s).
Proof. reflexivity. Qed.

(** The value of a distance, from its square. *)
Lemma distance_of (a b : vec3) (l : R) :
  0 <= l ->
  l * l = (c0 a - c0 b) * (c0 a - c0 b) + (c1 a - c1 b) * (c1 a - c1 b)
          + (c2 a - c2 b) * (c2 a - c2 b) ->
  v3.length (v3.sub a b) = l.
Proof. intros Hl H. apply length_of; [exact Hl|exact H]. Qed.

(** ** The L-shaped path *)

Lemma corner_build (epsilon : R) :
  0 <= epsilon < 100 ->
  build (Spec.intersect2D epsilon) cornerPath 1 = Ok cornerGeometry.
Proof.
  intros He. unfold cornerPath, cornerGeometry, cornerInside.
  set (s0 := LineSegment.new (V3 0 0 0) (V3 10 0 0)).
  set (s1 := LineSegment.new (V3 10 0 0) (V3 10 10 0)).
  assert (Hn0 : offsetDir s0 = V3 0 1 0) by (apply offsetDir_east; lra).
  assert (Hn1 : offsetDir s1 = V3 (-1) 0 0) by (apply offsetDir_north; lra).
  assert (Hl0 : lineOf (leftSegment 1 s0) = (V3 0 1 0, V3 10 1 0)).
  { unfold s0. rewrite (lineOf_leftSegment _ _ _ _ Hn0). vec_eq. }
  assert (Hl1 : lineOf (leftSegment 1 s1) = (V3 9 0 0, V3 9 10 0)).
  { unfold s1. rewrite (lineOf_leftSegment _ _ _ _ Hn1). vec_eq. }
  assert (Hr0 : lineOf (rightSegment 1 s0) = (V3 0 (-1) 0, V3 10 (-1) 0)).
  { unfold s0. rewrite (lineOf_rightSegment _ _ _ _ Hn0). vec_eq. }
  assert (Hr1 : lineOf (rightSegment 1 s1) = (V3 11 0 0, V3 11 10 0)).
  { unfold s1. rewrite (lineOf_rightSegment _ _ _ _ Hn1). vec_eq. }
  assert (Hli : Spec.intersect2D epsilon (lineOf (leftSegment 1 s0))
                  (lineOf (leftSegment 1 s1)) = Ok (V3 9 1 0)).
  { rewrite Hl0, Hl1. apply intersect2D_value; unfold Spec.det2D; vec_simpl;
      try lra.
    replace ((0 - 10) * (0 - 10) - (1 - 1) * (9 - 9)) with 100 by lra.
    rewrite Rabs_pos_eq; lra. }
  assert (Hri : Spec.intersect2D epsilon (lineOf (rightSegment 1 s0))
                  (lineOf (rightSegment 1 s1)) = Ok (V3 11 (-1) 0)).
  { rewrite Hr0, Hr1. apply intersect2D_value; unfold Spec.det2D; vec_simpl;
      try lra.
    replace ((0 - 10) * (0 - 10) - (-1 - -1) * (11 - 11)) with 100 by lra.
    rewrite Rabs_pos_eq; lra. }
  rewrite (build_one_joint _ _ _ _ _ _ _ Hli Hri). fold s0 s1. cbv zeta.
  rewrite !lineOf_from, !lineOf_to, Hl0, Hl1, Hr0, Hr1.
  cbn [fst snd set2 c0 c1].
  rewrite resolveJoint_true.
  2:{ rewrite (distance_of _ _ 9), (distance_of _ _ 11); vec_simpl; lra. }
  cbv zeta.
  cbn [leftEnd rightEnd nextLeftStart nextRightStart stubA stubB capSupport].
  rewrite Hn0, Hn1.
  assert (Hto : LineSegment.to s0 = V3 10 0 0) by reflexivity.
  rewrite !Hto.
  do 2 f_equal; vec_eq.
Qed.

Lemma ribbon_valid (removeParallel2D : list vec3 -> list vec3)
    (intersect2D : line -> line -> result vec3)
    (polygon : list vec3) (w : R) (flag : bool) :
  (2 <= List.length polygon)%nat -> 0 < w ->
  ribbon removeParallel2D intersect2D polygon {| width := w; closed := flag |}
  = (g <- build intersect2D (removeParallel2D polygon) w ;; tessellate flag g).
Proof.
  intros Hlen Hw. unfold ribbon, validate. cbn [width closed].
  destruct (Nat.ltb_spec (List.length polygon) 2) as [Hlt|_]; [lia|].
  now rewrite (ltb_true 0 w Hw).
Qed.

Lemma tessellate_Ok (flag : bool) (g : geometry) :
  rectangles g <> [] -> exists m : mesh, tessellate flag g = Ok m.
Proof.
  intros H. rewrite tessellate_eq. unfold closing.
  destruct flag; [eexists; reflexivity|].
  destruct (rectangles g) as [|first rs]; [contradiction|].
  eexists; reflexivity.
Qed.

Lemma corner_filter (tolerance : R) :
  0 <= tolerance < 100 -> Spec.removeParallel2D tolerance cornerPath = cornerPath.
Proof.
  intros H. unfold cornerPath, Spec.removeParallel2D, Spec.removeInterior.
  assert (E : Spec.collinear2D tolerance (V3 0 0 0) (V3 10 0 0) (V3 10 10 0) = false).
  { unfold Spec.collinear2D. apply leb_false_iff. vec_simpl.
    replace ((10 - 0) * (10 - 0) - (0 - 0) * (10 - 10)) with 100 by lra.
    rewrite Rabs_pos_eq; lra. }
  now rewrite E.
Qed.

(** ** The angles of a fan *)

Lemma atan2_south (y : R) : y < 0 -> atan2 y 0 = - (PI / 2).
Proof.
  intros H. unfold atan2.
  destruct (Rlt_dec 0 0); [lra|].
  destruct (Rlt_dec 0 y); [lra|].
  destruct (Rlt_dec y 0); [reflexivity|lra].
Qed.

Lemma atan2_east (x : R) : 0 < x -> atan2 0 x = 0.
Proof.
  intros H. unfold atan2. destruct (Rlt_dec 0 x); [|lra].
  unfold Rdiv. rewrite Rmult_0_l. apply atan_0.
Qed.

Lemma atan2_right (y x : R) : 0 < x -> atan2 y x = atan (y / x).
Proof. intros H. unfold atan2. now destruct (Rlt_dec 0 x). Qed.

Lemma cornerCap_angles :
  startAngle cornerCap = 270 /\ endAngle cornerCap = 360 /\
  numSlices cornerCap = 9%Z.
Proof.
  assert (Hpi : PI <> 0) by (pose proof PI_RGT_0; lra).
  assert (Hs : startAngle cornerCap = 270).
  { unfold startAngle, cornerCap. vec_simpl.
    replace (10 - 10) with 0 by lra. rewrite atan2_south by lra.
    replace (- (PI / 2) / PI * 180) with (-90) by (field; exact Hpi).
    rewrite ltb_true by lra. lra. }
  assert (He : endAngle cornerCap = 360).
  { unfold endAngle, cornerCap. vec_simpl.
    replace (0 - 0) with 0 by lra. rewrite atan2_east by lra.
    replace (0 / PI * 180) with 0 by (field; exact Hpi).
    rewrite ltb_false by lra.
    replace (eqb 0 0) with true by (symmetry; now apply eqb_true_iff).
    reflexivity. }
  repeat split; try assumption.
  unfold numSlices, sliceAngle. rewrite Hs, He.
  replace ((360 - 270) / 10) with (IZR 9) by lra. apply ZfloorZ.
Qed.

(** C3. The L-shaped path [(0,0,0), (10,0,0), (10,10,0)] with width 1,
    for every tolerance of the filter and of the intersection below
    100: the filter keeps the three points; there are exactly two
    rectangles, two stubs and one cap support; the left intersection
    (9,1,0) is the inside corner, and it is both the left end of the
    first rectangle and the left start of the second; the stubs and
    the cap support lie on the other side, around the joint (10,0,0);
    the builder returns a mesh, whose fan at the joint has 9 slices. *)
Theorem corner_path_geometry (tolerance epsilon : R) (flag : bool) :
  0 <= tolerance < 100 -> 0 <= epsilon < 100 ->
  exists (g : geometry) (m : mesh),
    Spec.removeParallel2D tolerance cornerPath = cornerPath /\
    build (Spec.intersect2D epsilon) cornerPath 1 = Ok g /\
    ribbon (Spec.removeParallel2D tolerance) (Spec.intersect2D epsilon)
           cornerPath {| width := 1; closed := flag |} = Ok m /\
    rectangles g = [(V3 0 1 0, V3 0 (-1) 0, V3 9 (-1) 0, V3 9 1 0);
                    (V3 9 1 0, V3 11 1 0, V3 11 10 0, V3 9 10 0)] /\
    stubs g = [(V3 9 1 0, V3 10 0 0, V3 11 0 0, V3 11 1 0);
               (V3 10 0 0, V3 9 1 0, V3 9 (-1) 0, V3 10 (-1) 0)] /\
    capSupports g = [(V3 11 0 0, V3 10 0 0, V3 10 (-1) 0)] /\
    List.length (rectangles g) = 2%nat /\
    List.length (stubs g) = 2%nat /\
    List.length (capSupports g) = 1%nat /\
    leftIntersections g = [V3 9 1 0] /\
    nth_error (leftEnds g) 0 = Some (V3 9 1 0) /\
    nth_error (leftStarts g) 1 = Some (V3 9 1 0) /\
    map numSlices (capSupports g) = [9%Z] /\
    List.length (triangles m) = 17%nat.
Proof.
  intros Ht He.
  pose proof (corner_build epsilon He) as Hg.
  assert (Hm : ribbon (Spec.removeParallel2D tolerance) (Spec.intersect2D epsilon)
                 cornerPath {| width := 1; closed := flag |}
               = tessellate flag cornerGeometry).
  { rewrite ribbon_valid; [|cbn; lia|lra].
    rewrite (corner_filter _ Ht), Hg. reflexivity. }
  destruct (tessellate_Ok flag cornerGeometry) as [m Em]; [discriminate|].
  exists cornerGeometry, m.
  split; [exact (corner_filter _ Ht)|].
  split; [exact Hg|].
  split; [now rewrite Hm|].
  destruct cornerCap_angles as (_ & _ & Hn).
  repeat split; try reflexivity.
  - cbn [map cornerGeometry capSupports]. fold cornerCap. now rewrite Hn.
  - rewrite (tessellate_triangles_length _ _ _ Em).
    cbn [cornerGeometry rectangles stubs capSupports List.length map list_sum].
    fold cornerCap. rewrite radialPoints_length.
    unfold numIntermediatePoints. rewrite Hn. reflexivity.
Qed.

(** ** A path with a short middle segment *)

(** The builder on a path of four points, once the intersections at
    its two joints are known; the second joint reads the starts the
    first one wrote. *)
Lemma build_two_joints (intersect2D : line -> line -> result vec3)
    (a b c d : vec3) (w : R) (left0 right0 left1 right1 : vec3) :
  let s0 := LineSegment.new a b in
  let s1 := LineSegment.new b c in
  let s2 := LineSegment.new c d in
  intersect2D (lineOf (leftSegment w s0)) (lineOf (leftSegment w s1)) = Ok left0 ->
  intersect2D (lineOf (rightSegment w s0)) (lineOf (rightSegment w s1)) = Ok right0 ->
  intersect2D (lineOf (leftSegment w s1)) (lineOf (leftSegment w s2)) = Ok left1 ->
  intersect2D (lineOf (rightSegment w s1)) (lineOf (rightSegment w s2)) = Ok right1 ->
  let j0 := resolveJoint w s0 s1
              (LineSegment.from (leftSegment w s0))
              (LineSegment.from (rightSegment w s0))
              (set2 left0 0) (set2 right0 0) in
  let j1 := resolveJoint w s1 s2 (nextLeftStart j0) (nextRightStart j0)
              (set2 left1 0) (set2 right1 0) in
  build intersect2D [a; b; c; d] w =
  Ok {| leftSegments := [leftSegment w s0; leftSegment w s1; leftSegment w s2];
        rightSegments := [rightSegment w s0; rightSegment w s1; rightSegment w s2];
        leftIntersections := [set2 left0 0; set2 left1 0];
        rightIntersections := [set2 right0 0; set2 right1 0];
        leftStarts := [LineSegment.from (leftSegment w s0);
                       nextLeftStart j0; nextLeftStart j1];
        rightStarts := [LineSegment.from (rightSegment w s0);
                        nextRightStart j0; nextRightStart j1];
        leftEnds := [leftEnd j0; leftEnd j1; LineSegment.to (leftSegment w s2)];
        rightEnds := [rightEnd j0; rightEnd j1; LineSegment.to (rightSegment w s2)];
        rectangles :=
          [(LineSegment.from (leftSegment w s0),
            LineSegment.from (rightSegment w s0), rightEnd j0, leftEnd j0);
           (nextLeftStart j0, nextRightStart j0, rightEnd j1, leftEnd j1);
           (nextLeftStart j1, nextRightStart j1,
            LineSegment.to (rightSegment w s2),
            LineSegment.to (leftSegment w s2))];
        stubs := [stubA j0; stubB j0; stubA j1; stubB j1];
        capSupports := [capSupport j0; capSupport j1] |}.
Proof.
  intros s0 s1 s2 Hl0 Hr0 Hl1 Hr1 j0 j1. unfold build.
  change (centerSegments [a; b; c; d]) with [s0; s1; s2].
  cbn [map]. rewrite !intersections_cons, Hl0, Hr0, Hl1, Hr1. reflexivity.
Qed.

Ltac rabs_value v :=
  match goal with
  | |- context [Rabs ?e] =>
      replace e with v by (vec_simpl; lra);
      first [rewrite (Rabs_pos_eq v) by lra | rewrite (Rabs_left v) by lra]
  end.

Lemma step_build (epsilon : R) :
  0 <= epsilon < 10 ->
  build (Spec.intersect2D epsilon) stepPath 2 = Ok stepGeometry.
Proof.
  intros He. unfold stepPath, stepGeometry.
  set (s0 := LineSegment.new (V3 0 0 0) (V3 10 0 0)).
  set (s1 := LineSegment.new (V3 10 0 0) (V3 10 1 0)).
  set (s2 := LineSegment.new (V3 10 1 0) (V3 20 1 0)).
  assert (Hn0 : offsetDir s0 = V3 0 1 0) by (apply offsetDir_east; lra).
  assert (Hn1 : offsetDir s1 = V3 (-1) 0 0) by (apply offsetDir_north; lra).
  assert (Hn2 : offsetDir s2 = V3 0 1 0) by (apply offsetDir_east; lra).
  assert (Hl0 : lineOf (leftSegment 2 s0) = (V3 0 2 0, V3 10 2 0)).
  { unfold s0. rewrite (lineOf_leftSegment _ _ _ _ Hn0). vec_eq. }
  assert (Hl1 : lineOf (leftSegment 2 s1) = (V3 8 0 0, V3 8 1 0)).
  { unfold s1. rewrite (lineOf_leftSegment _ _ _ _ Hn1). vec_eq. }
  assert (Hl2 : lineOf (leftSegment 2 s2) = (V3 10 3 0, V3 20 3 0)).
  { unfold s2. rewrite (lineOf_leftSegment _ _ _ _ Hn2). vec_eq. }
  assert (Hr0 : lineOf (rightSegment 2 s0) = (V3 0 (-2) 0, V3 10 (-2) 0)).
  { unfold s0. rewrite (lineOf_rightSegment _ _ _ _ Hn0). vec_eq. }
  assert (Hr1 : lineOf (rightSegment 2 s1) = (V3 12 0 0, V3 12 1 0)).
  { unfold s1. rewrite (lineOf_rightSegment _ _ _ _ Hn1). vec_eq. }
  assert (Hr2 : lineOf (rightSegment 2 s2) = (V3 10 (-1) 0, V3 20 (-1) 0)).
  { unfold s2. rewrite (lineOf_rightSegment _ _ _ _ Hn2). vec_eq. }
  assert (Hli0 : Spec.intersect2D epsilon (lineOf (leftSegment 2 s0))
                   (lineOf (leftSegment 2 s1)) = Ok (V3 8 2 0)).
  { rewrite Hl0, Hl1. apply intersect2D_value; unfold Spec.det2D; vec_simpl;
      try lra. rabs_value 10. lra. }
  assert (Hri0 : Spec.intersect2D epsilon (lineOf (rightSegment 2 s0))
                   (lineOf (rightSegment 2 s1)) = Ok (V3 12 (-2) 0)).
  { rewrite Hr0, Hr1. apply intersect2D_value; unfold Spec.det2D; vec_simpl;
      try lra. rabs_value 10. lra. }
  assert (Hli1 : Spec.intersect2D epsilon (lineOf (leftSegment 2 s1))
                   (lineOf (leftSegment 2 s2)) = Ok (V3 8 3 0)).
  { rewrite Hl1, Hl2. apply intersect2D_value; unfold Spec.det2D; vec_simpl;
      try lra. rabs_value (-10). lra. }
  assert (Hri1 : Spec.intersect2D epsilon (lineOf (rightSegment 2 s1))
                   (lineOf (rightSegment 2 s2)) = Ok (V3 12 (-1) 0)).
  { rewrite Hr1, Hr2. apply intersect2D_value; unfold Spec.det2D; vec_simpl;
      try lra. rabs_value (-10). lra. }
  rewrite (build_two_joints _ _ _ _ _ _ _ _ _ _ Hli0 Hri0 Hli1 Hri1).
  fold s0 s1 s2. cbv zeta.
  rewrite !lineOf_from, !lineOf_to, Hl0, Hl2, Hr0, Hr2.
  cbn [fst snd set2 c0 c1].
  rewrite (resolveJoint_true 2 s0 s1).
  2:{ rewrite (distance_of _ _ 8), (distance_of _ _ 12); vec_simpl; lra. }
  cbv zeta.
  cbn [leftEnd rightEnd nextLeftStart nextRightStart stubA stubB capSupport].
  rewrite Hn0, Hn1.
  rewrite (resolveJoint_true 2 s1 s2).
  2:{ rewrite (distance_of _ _ 1), (distance_of _ _ 3); vec_simpl; lra. }
  cbv zeta.
  cbn [leftEnd rightEnd nextLeftStart nextRightStart stubA stubB capSupport].
  rewrite Hn1, Hn2.
  assert (Hto0 : LineSegment.to s0 = V3 10 0 0) by reflexivity.
  assert (Hto1 : LineSegment.to s1 = V3 10 1 0) by reflexivity.
  rewrite !Hto0, !Hto1.
  do 2 f_equal; vec_eq.
Qed.

Lemma step_filter (tolerance : R) :
  0 <= tolerance < 10 -> Spec.removeParallel2D tolerance stepPath = stepPath.
Proof.
  intros H. unfold stepPath, Spec.removeParallel2D, Spec.removeInterior.
  assert (E1 : Spec.collinear2D tolerance (V3 0 0 0) (V3 10 0 0) (V3 10 1 0) = false).
  { unfold Spec.collinear2D. apply leb_false_iff. vec_simpl.
    rabs_value 10. lra. }
  assert (E2 : Spec.collinear2D tolerance (V3 10 0 0) (V3 10 1 0) (V3 20 1 0) = false).
  { unfold Spec.collinear2D. apply leb_false_iff. vec_simpl.
    rabs_value (-10). lra. }
  now rewrite E1, E2.
Qed.

Lemma V3_neq_c0 (a b : vec3) : c0 a <> c0 b -> a <> b.
Proof. intros H E. apply H. now rewrite E. Qed.

Lemma V3_neq_c1 (a b : vec3) : c1 a <> c1 b -> a <> b.
Proof. intros H E. apply H. now rewrite E. Qed.

(** C1, as stated, fails. The path (0,0,0), (10,0,0), (10,1,0),
    (20,1,0) with width 2 passes the filter unchanged and is built
    without error. At its second joint (index 1) the right offset
    intersection (12,-1,0) is at distance 1 from the from-point (12,0,0)
    of right offset segment 1, strictly shorter than the distance 3
    from the left offset intersection (8,3,0) to the from-point (8,0,0)
    of left offset segment 1; yet the vertex rectangles 1 and 2 share
    is the left intersection, and the right intersection is a corner of
    neither. The builder measured from the starts of rectangle 1,
    (8,2,0) and (12,2,0), at distances 1 and 3. *)
Lemma step_path_inside_corner :
  Spec.removeParallel2D 0 stepPath = stepPath /\
  build (Spec.intersect2D 0) stepPath 2 = Ok stepGeometry /\
  (exists m : mesh,
      ribbon (Spec.removeParallel2D 0) (Spec.intersect2D 0) stepPath
             {| width := 2; closed := false |} = Ok m) /\
  exists (la ra : LineSegment.t) (li ri : vec3),
    nth_error (leftSegments stepGeometry) 1 = Some la /\
    nth_error (rightSegments stepGeometry) 1 = Some ra /\
    nth_error (leftIntersections stepGeometry) 1 = Some li /\
    nth_error (rightIntersections stepGeometry) 1 = Some ri /\
    LineSegment.from la = V3 8 0 0 /\
    LineSegment.from ra = V3 12 0 0 /\
    li = V3 8 3 0 /\ ri = V3 12 (-1) 0 /\
    v3.length (v3.sub ri (LineSegment.from ra)) = 1 /\
    v3.length (v3.sub li (LineSegment.from la)) = 3 /\
    v3.length (v3.sub ri (LineSegment.from ra))
    < v3.length (v3.sub li (LineSegment.from la)) /\
    nth_error (rectangles stepGeometry) 1
    = Some (V3 8 2 0, V3 12 2 0, V3 12 3 0, li) /\
    nth_error (rectangles stepGeometry) 2
    = Some (li, V3 8 (-1) 0, V3 20 (-1) 0, V3 20 3 0) /\
    V3 12 3 0 <> ri /\ V3 8 (-1) 0 <> ri /\
    v3.length (v3.sub li (V3 8 2 0)) = 1 /\
    v3.length (v3.sub ri (V3 12 2 0)) = 3.
Proof.
  assert (He : 0 <= 0 < 10) by lra.
  pose proof (step_build 0 He) as Hg.
  split; [exact (step_filter 0 He)|].
  split; [exact Hg|].
  split.
  { rewrite ribbon_valid; [|cbn; lia|lra].
    rewrite (step_filter 0 He), Hg. cbn [bind].
    apply tessellate_Ok. discriminate. }
  set (s1 := LineSegment.new (V3 10 0 0) (V3 10 1 0)).
  assert (Hn1 : offsetDir s1 = V3 (-1) 0 0) by (apply offsetDir_north; lra).
  assert (Hl1 : lineOf (leftSegment 2 s1) = (V3 8 0 0, V3 8 1 0)).
  { unfold s1. rewrite (lineOf_leftSegment _ _ _ _ Hn1). vec_eq. }
  assert (Hr1 : lineOf (rightSegment 2 s1) = (V3 12 0 0, V3 12 1 0)).
  { unfold s1. rewrite (lineOf_rightSegment _ _ _ _ Hn1). vec_eq. }
  assert (Hfl : LineSegment.from (leftSegment 2 s1) = V3 8 0 0)
    by (rewrite lineOf_from, Hl1; reflexivity).
  assert (Hfr : LineSegment.from (rightSegment 2 s1) = V3 12 0 0)
    by (rewrite lineOf_from, Hr1; reflexivity).
  exists (leftSegment 2 s1), (rightSegment 2 s1), (V3 8 3 0), (V3 12 (-1) 0).
  rewrite Hfl, Hfr.
  assert (D1 : v3.length (v3.sub (V3 12 (-1) 0) (V3 12 0 0)) = 1)
    by (apply distance_of; vec_simpl; lra).
  assert (D3 : v3.length (v3.sub (V3 8 3 0) (V3 8 0 0)) = 3)
    by (apply distance_of; vec_simpl; lra).
  rewrite D1, D3.
  repeat split; try reflexivity.
  - lra.
  - apply V3_neq_c1. vec_simpl. lra.
  - apply V3_neq_c0. vec_simpl. lra.
  - apply distance_of; vec_simpl; lra.
  - apply distance_of; vec_simpl; lra.
Qed.

(** A witness of C1 (amended): the joint of the L-shaped path. *)
Lemma inside_corner_rule_witness :
  build (Spec.intersect2D 0) cornerPath 1 = Ok cornerGeometry /\
  exists (la lb ra rb : LineSegment.t) (left3D right3D : vec3),
    nth_error (leftSegments cornerGeometry) 0 = Some la /\
    nth_error (leftSegments cornerGeometry) 1 = Some lb /\
    nth_error (rightSegments cornerGeometry) 0 = Some ra /\
    nth_error (rightSegments cornerGeometry) 1 = Some rb /\
    Spec.intersect2D 0 (lineOf la) (lineOf lb) = Ok left3D /\
    Spec.intersect2D 0 (lineOf ra) (lineOf rb) = Ok right3D /\
    (0%nat = 0%nat ->
     V3 0 1 0 = LineSegment.from la /\ V3 0 (-1) 0 = LineSegment.from ra) /\
    (v3.length (v3.sub (set2 left3D 0) (V3 0 1 0))
     < v3.length (v3.sub (set2 right3D 0) (V3 0 (-1) 0)) ->
     V3 9 1 0 = set2 left3D 0 /\ V3 9 1 0 = set2 left3D 0) /\
    (v3.length (v3.sub (set2 right3D 0) (V3 0 (-1) 0))
     <= v3.length (v3.sub (set2 left3D 0) (V3 0 1 0)) ->
     V3 9 (-1) 0 = set2 right3D 0 /\ V3 11 1 0 = set2 right3D 0).
Proof.
  assert (He : 0 <= 0 < 100) by lra.
  split; [exact (corner_build 0 He)|].
  exact (inside_corner_rule (Spec.intersect2D 0) cornerPath 1 cornerGeometry 0
           (V3 0 1 0) (V3 0 (-1) 0) (V3 9 (-1) 0) (V3 9 1 0)
           (V3 9 1 0) (V3 11 1 0) (V3 11 10 0) (V3 9 10 0)
           (corner_build 0 He) eq_refl eq_refl).
Defined.

(** A witness of C3: both tolerances zero, the path open. *)
Lemma corner_path_geometry_witness :
  exists (g : geometry) (m : mesh),
    build (Spec.intersect2D 0) cornerPath 1 = Ok g /\
    ribbon (Spec.removeParallel2D 0) (Spec.intersect2D 0)
           cornerPath {| width := 1; closed := false |} = Ok m /\
    List.length (rectangles g) = 2%nat /\
    List.length (stubs g) = 2%nat /\
    List.length (capSupports g) = 1%nat /\
    nth_error (leftEnds g) 0 = nth_error (leftStarts g) 1.
Proof.
  destruct (corner_path_geometry 0 0 false ltac:(lra) ltac:(lra))
    as (g & m & _ & Hg & Hm & _ & _ & _ & Hr & Hs & Hc & _ & Hle & Hls & _).
  exists g, m. rewrite Hle, Hls. now repeat split.
Defined.

(** A witness of C4 (amended): the L-shaped path, open. *)
Lemma triangle_counts_witness :
  exists (m : mesh) (g : geometry),
    ribbon (Spec.removeParallel2D 0) (Spec.intersect2D 0)
           cornerPath {| width := 1; closed := false |} = Ok m /\
    build (Spec.intersect2D 0) (Spec.removeParallel2D 0 cornerPath) 1 = Ok g /\
    List.length (triangles m) =
      (2 * List.length (rectangles g) + 2 * List.length (stubs g)
       + list_sum (map (fun cs => List.length (radialPoints cs) - 1)
                       (capSupports g)))%nat.
Proof.
  assert (He : 0 <= 0 < 100) by lra.
  destruct (tessellate_Ok false cornerGeometry) as [m Em]; [discriminate|].
  assert (Hm : ribbon (Spec.removeParallel2D 0) (Spec.intersect2D 0)
                 cornerPath {| width := 1; closed := false |} = Ok m).
  { rewrite ribbon_valid; [|cbn; lia|lra].
    rewrite (corner_filter 0 He), (corner_build 0 He). exact Em. }
  destruct (triangle_counts _ _ _ _ _ Hm) as (g & Hg & _ & _ & _ & _ & _ & Hn).
  exists m, g. repeat split; assumption.
Defined.

(** A witness of C7: a path of one point, and a width of zero. *)
Lemma invalid_input_fails_first_witness :
  ribbon (Spec.removeParallel2D 0) (Spec.intersect2D 0) [V3 0 0 0]
         {| width := 1; closed := false |} = Err InvalidInput /\
  ribbon (Spec.removeParallel2D 0) (Spec.intersect2D 0) straightPath
         {| width := 0; closed := false |} = Err InvalidInput.
Proof.
  split.
  - apply (invalid_input_fails_first (Spec.removeParallel2D 0) (Spec.intersect2D 0)
             [V3 0 0 0] {| width := 1; closed := false |}).
    left. cbn. lia.
  - apply (invalid_input_fails_first (Spec.removeParallel2D 0) (Spec.intersect2D 0)
             straightPath {| width := 0; closed := false |}).
    right. cbn. lra.
Defined.

(** ** The sweep of a fan *)

Lemma atan2_bound (y x : R) : - PI < atan2 y x <= PI.
Proof.
  pose proof PI_RGT_0 as Hpi. pose proof (atan_bound (y / x)) as Hb.
  unfold atan2.
  destruct (Rlt_dec 0 x) as [Hx|Hx]; [lra|].
  destruct (Rlt_dec x 0) as [Hx'|Hx'].
  - destruct (Rle_dec 0 y) as [Hy|Hy].
    + assert (y / x <= 0).
      { unfold Rdiv. pose proof (Rinv_lt_0_compat x Hx'). nra. }
      assert (atan (y / x) <= 0).
      { destruct (Req_dec (y / x) 0) as [E|E].
        - rewrite E, atan_0. lra.
        - rewrite <- atan_0. apply Rlt_le, atan_increasing. lra. }
      lra.
    + assert (0 < y / x).
      { unfold Rdiv. replace (y * / x) with ((- y) * (- / x)) by ring.
        apply Rmult_lt_0_compat; [lra|].
        pose proof (Rinv_lt_0_compat x Hx'). lra. }
      assert (0 < atan (y / x)).
      { rewrite <- atan_0. now apply atan_increasing. }
      lra.
  - destruct (Rlt_dec 0 y); [lra|]. destruct (Rlt_dec y 0); lra.
Qed.

Lemma degrees_bound (a : R) :
  - PI < a <= PI -> -180 < a / PI * 180 <= 180.
Proof.
  intros H. pose proof PI_RGT_0 as Hpi.
  assert (E : a = a / PI * PI) by (field; lra).
  set (t := a / PI) in *. nra.
Qed.

Lemma startAngle_range (cs : triangle) : 0 <= startAngle cs < 360.
Proof.
  unfold startAngle.
  set (y := c1 (cs2 cs) - c1 (cs1 cs)). set (x := c0 (cs2 cs) - c0 (cs1 cs)).
  pose proof (degrees_bound _ (atan2_bound y x)) as H.
  unfold ltb. destruct (Rlt_dec (atan2 y x / PI * 180) 0); lra.
Qed.

Lemma endAngle_range (cs : triangle) : 0 < endAngle cs <= 360.
Proof.
  unfold endAngle.
  set (y := c1 (cs0 cs) - c1 (cs1 cs)). set (x := c0 (cs0 cs) - c0 (cs1 cs)).
  pose proof (degrees_bound _ (atan2_bound y x)) as H.
  unfold ltb, eqb.
  destruct (Rlt_dec (atan2 y x / PI * 180) 0);
    match goal with |- context [Req_dec_T ?u 0] => destruct (Req_dec_T u 0) end;
    lra.
Qed.

Lemma numSlices_le_36 (cs : triangle) : (numSlices cs <= 36)%Z.
Proof.
  unfold numSlices, sliceAngle.
  pose proof (startAngle_range cs) as Hs. pose proof (endAngle_range cs) as He.
  pose proof (Zfloor_bound ((endAngle cs - startAngle cs) / 10)) as [Hf _].
  apply le_IZR. lra.
Qed.

Lemma radialPoints_nth (cs : triangle) (i : nat) :
  (i < Z.to_nat (numIntermediatePoints cs))%nat ->
  nth_error (radialPoints cs) (S i) = Some (radialPoint cs i).
Proof.
  intros H. rewrite radialPoints_eq. cbn [nth_error].
  rewrite nth_error_app1 by (now rewrite length_map, length_seq).
  rewrite nth_error_map, nth_error_seq.
  destruct (Nat.ltb_spec i (Z.to_nat (numIntermediatePoints cs))); [|lia].
  reflexivity.
Qed.

(** C6. For every cap support: the two angles are those of [atan2]
    about the pivot, in degrees, with 360 added to the negative ones,
    so that both lie in [0, 360) before the end angle 0 is replaced by
    360; the number of slices is the floor of the sweep over 10 and
    never exceeds 36, nor does the number of triangles of the fan; the
    rotation of one slice is the sweep divided by the number of slices,
    so that the slices together make the sweep; intermediate point [i]
    is the first radial vector turned by [i + 1] slices about the
    pivot. *)
Theorem fan_angles (cs : triangle) :
  let pivot := cs1 cs in
  let s := atan2 (c1 (cs2 cs) - c1 pivot) (c0 (cs2 cs) - c0 pivot) / PI * 180 in
  let e := atan2 (c1 (cs0 cs) - c1 pivot) (c0 (cs0 cs) - c0 pivot) / PI * 180 in
  let e' := if ltb e 0 then e + 360 else e in
  startAngle cs = (if ltb s 0 then s + 360 else s) /\
  0 <= startAngle cs < 360 /\
  0 <= e' < 360 /\
  endAngle cs = (if eqb e' 0 then 360 else e') /\
  0 < endAngle cs <= 360 /\
  numSlices cs = Zfloor ((endAngle cs - startAngle cs) / 10) /\
  (numSlices cs <= 36)%Z /\
  (List.length (triangles (capStep emptyMesh cs)) <= 36)%nat /\
  rotationAngle cs
  = (endAngle cs - startAngle cs) / IZR (numSlices cs) / 180 * PI /\
  (numSlices cs <> 0%Z ->
   IZR (numSlices cs) * rotationAngle cs
   = (endAngle cs - startAngle cs) / 180 * PI) /\
  (forall i : nat,
      (Z.of_nat i < numIntermediatePoints cs)%Z ->
      let theta := rotationAngle cs * (INR i + 1) in
      let p := v3.sub (cs2 cs) pivot in
      nth_error (radialPoints cs) (S i)
      = Some (v3.add (V3 (c0 p * cos theta - c1 p * sin theta)
                         (c1 p * cos theta + c0 p * sin theta) 0)
                     pivot)).
Proof.
  cbv zeta.
  split; [reflexivity|].
  split; [apply startAngle_range|].
  split.
  { pose proof (degrees_bound _ (atan2_bound (c1 (cs0 cs) - c1 (cs1 cs))
                                            (c0 (cs0 cs) - c0 (cs1 cs)))) as H.
    unfold ltb.
    destruct (Rlt_dec (atan2 (c1 (cs0 cs) - c1 (cs1 cs))
                             (c0 (cs0 cs) - c0 (cs1 cs)) / PI * 180) 0); lra. }
  split; [reflexivity|].
  split; [apply endAngle_range|].
  split; [reflexivity|].
  split; [apply numSlices_le_36|].
  split.
  { unfold capStep. rewrite fanLoop_length, radialPoints_length.
    pose proof (numSlices_le_36 cs). unfold numIntermediatePoints. lia. }
  split; [reflexivity|].
  split.
  { intros Hn. unfold rotationAngle. field.
    intros E. apply Hn. now apply eq_IZR. }
  intros i Hi. apply radialPoints_nth. lia.
Qed.

(** ** Degenerate intersections *)

Lemma intersect2D_parallel (epsilon : R) (a b : line) :
  0 <= epsilon -> Spec.det2D a b = 0 ->
  Spec.intersect2D epsilon a b = Err DegenerateGeometry.
Proof.
  intros He Hd. destruct a as [p1 p2], b as [p3 p4]. unfold Spec.intersect2D.
  rewrite Hd, Rabs_R0. now rewrite (proj2 (leb_true_iff 0 epsilon) He).
Qed.

Lemma intersect2D_error (epsilon : R) (a b : line) (e : error) :
  Spec.intersect2D epsilon a b = Err e -> e = DegenerateGeometry.
Proof.
  destruct a as [p1 p2], b as [p3 p4]. unfold Spec.intersect2D.
  destruct (leb (Rabs (Spec.det2D (p1, p2) (p3, p4))) epsilon);
    intros H; [now injection H|discriminate].
Qed.

Lemma intersections_error (epsilon : R) (lefts rights : list LineSegment.t)
    (e : error) :
  intersections (Spec.intersect2D epsilon) lefts rights = Err e ->
  e = DegenerateGeometry.
Proof.
  revert rights. induction lefts as [|la lefts IH]; intros rights H;
    [discriminate|].
  destruct lefts as [|lb lefts]; [discriminate|].
  destruct rights as [|ra [|rb rights]]; try discriminate.
  rewrite intersections_cons in H.
  destruct (Spec.intersect2D epsilon (lineOf la) (lineOf lb)) as [l3|e1] eqn:E1.
  2:{ cbn [bind] in H. injection H as <-. exact (intersect2D_error _ _ _ _ E1). }
  destruct (Spec.intersect2D epsilon (lineOf ra) (lineOf rb)) as [r3|e2] eqn:E2.
  2:{ cbn [bind] in H. injection H as <-. exact (intersect2D_error _ _ _ _ E2). }
  cbn [bind] in H.
  destruct (intersections (Spec.intersect2D epsilon) (lb :: lefts) (rb :: rights))
    as [rest|e3] eqn:E3; [discriminate|].
  cbn [bind] in H. injection H as <-. exact (IH _ E3).
Qed.

(** C8. When the offset lines of two consecutive segments of the
    filtered path are parallel or coincident, on the left or on the
    right, the intersection of the specification fails with
    [DegenerateGeometry] and so does the builder: no point is
    returned. *)
Theorem parallel_offsets_fail
    (removeParallel2D : list vec3 -> list vec3) (epsilon : R)
    (polygon : list vec3) (options : options) (i : nat) (s s' : LineSegment.t) :
  0 <= epsilon ->
  (2 <= List.length polygon)%nat -> 0 < width options ->
  nth_error (centerSegments (removeParallel2D polygon)) i = Some s ->
  nth_error (centerSegments (removeParallel2D polygon)) (S i) = Some s' ->
  Spec.det2D (lineOf (leftSegment (width options) s))
             (lineOf (leftSegment (width options) s')) = 0 \/
  Spec.det2D (lineOf (rightSegment (width options) s))
             (lineOf (rightSegment (width options) s')) = 0 ->
  (Spec.intersect2D epsilon (lineOf (leftSegment (width options) s))
                    (lineOf (leftSegment (width options) s'))
   = Err DegenerateGeometry \/
   Spec.intersect2D epsilon (lineOf (rightSegment (width options) s))
                    (lineOf (rightSegment (width options) s'))
   = Err DegenerateGeometry) /\
  ribbon removeParallel2D (Spec.intersect2D epsilon) polygon options
  = Err DegenerateGeometry.
Proof.
  intros He Hlen Hw Hs Hs' Hpar.
  split.
  { destruct Hpar as [H|H]; [left|right]; now apply intersect2D_parallel. }
  destruct options as [w flag]. cbn [width] in *.
  rewrite ribbon_valid by assumption.
  destruct (build (Spec.intersect2D epsilon) (removeParallel2D polygon) w)
    as [g|e] eqn:Eg.
  - exfalso.
    destruct (build_Ok _ _ _ _ Eg)
      as (s0 & rest & js & Hcs & Hix & Hlefts & Hrights & _).
    assert (Hlen' : List.length (map (rightSegment w) (s0 :: rest))
                    = List.length (map (leftSegment w) (s0 :: rest)))
      by now rewrite !length_map.
    rewrite Hlefts, Hrights in Hix.
    destruct (intersections_length _ _ _ _ Hlen' Hix) as [Hl Hr].
    cbn [fst snd] in Hl, Hr. rewrite length_map in Hl, Hr.
    rewrite Hcs in Hs, Hs'.
    assert (Hi : (S i < List.length (s0 :: rest))%nat)
      by (apply nth_error_Some; congruence).
    destruct (nth_error (leftIntersections g) i) as [li|] eqn:Eli.
    2:{ apply nth_error_None in Eli. cbn [List.length] in *. lia. }
    destruct (nth_error (rightIntersections g) i) as [ri|] eqn:Eri.
    2:{ apply nth_error_None in Eri. cbn [List.length] in *. lia. }
    destruct (intersections_nth_error _ _ _ _ _ _ _ Hix Eli Eri)
      as (la & lb & ra & rb & l3 & r3 & Hla & Hlb & Hra & Hrb & Hl3 & Hr3 & _).
    rewrite nth_error_map in Hla, Hlb, Hra, Hrb.
    rewrite Hs in Hla, Hra. rewrite Hs' in Hlb, Hrb.
    cbn [option_map] in Hla, Hlb, Hra, Hrb.
    injection Hla as <-. injection Hlb as <-.
    injection Hra as <-. injection Hrb as <-.
    destruct Hpar as [H|H].
    + rewrite (intersect2D_parallel _ _ _ He H) in Hl3. discriminate.
    + rewrite (intersect2D_parallel _ _ _ He H) in Hr3. discriminate.
  - cbn [bind]. f_equal. unfold build in Eg.
    destruct (intersections (Spec.intersect2D epsilon)
                (map (leftSegment w) (centerSegments (removeParallel2D polygon)))
                (map (rightSegment w) (centerSegments (removeParallel2D polygon))))
      as [ix|e'] eqn:Eix.
    + exfalso. cbn [bind] in Eg.
      destruct (centerSegments (removeParallel2D polygon)); [discriminate|].
      discriminate.
    + cbn [bind] in Eg. injection Eg as <-.
      exact (intersections_error _ _ _ _ Eix).
Qed.

Lemma hiddenStraight_filter :
  Spec.removeParallel2D 0 hiddenStraightPath = [V3 0 0 0; V3 10 0 0; V3 20 0 0].
Proof.
  unfold hiddenStraightPath, Spec.removeParallel2D, Spec.removeInterior.
  assert (E1 : Spec.collinear2D 0 (V3 0 0 0) (V3 5 5 0) (V3 5 5 0) = true).
  { unfold Spec.collinear2D. apply leb_true_iff. vec_simpl.
    rabs_value 0. lra. }
  assert (E2 : Spec.collinear2D 0 (V3 5 5 0) (V3 5 5 0) (V3 10 0 0) = true).
  { unfold Spec.collinear2D. apply leb_true_iff. vec_simpl.
    rabs_value 0. lra. }
  assert (E3 : Spec.collinear2D 0 (V3 5 5 0) (V3 10 0 0) (V3 20 0 0) = false).
  { unfold Spec.collinear2D. apply leb_false_iff. vec_simpl.
    rabs_value 50. lra. }
  now rewrite E1, E2, E3.
Qed.

(** A witness of C8: the straight joint at (10,0,0) reaches the
    intersection step, and the builder fails. *)
Lemma parallel_offsets_fail_witness :
  Spec.removeParallel2D 0 hiddenStraightPath
  = [V3 0 0 0; V3 10 0 0; V3 20 0 0] /\
  ribbon (Spec.removeParallel2D 0) (Spec.intersect2D 0) hiddenStraightPath
         {| width := 1; closed := false |} = Err DegenerateGeometry.
Proof.
  split; [exact hiddenStraight_filter|].
  apply (parallel_offsets_fail (Spec.removeParallel2D 0) 0 hiddenStraightPath
           {| width := 1; closed := false |} 0
           (LineSegment.new (V3 0 0 0) (V3 10 0 0))
           (LineSegment.new (V3 10 0 0) (V3 20 0 0))).
  - lra.
  - cbn. lia.
  - cbn. lra.
  - rewrite hiddenStraight_filter. reflexivity.
  - rewrite hiddenStraight_filter. reflexivity.
  - left. cbn [width]. unfold Spec.det2D, leftSegment, lineOf.
    rewrite !to_new, !from_new. vec_simpl. ring.
Defined.

(** ** Planar paths give planar meshes *)

Lemma planar_offsetDir (s : LineSegment.t) : planar (offsetDir s).
Proof.
  unfold planar, offsetDir, v3.norm, v3.cross, zAxis. cbn [c0 c1 c2].
  unfold Rdiv. ring.
Qed.

Lemma planar_shift (p n : vec3) (k : R) :
  planar p -> planar n -> planar (v3.add p (v3.multiply n k)).
Proof.
  unfold planar, v3.add, v3.multiply. cbn [c2]. intros -> ->. ring.
Qed.

Lemma planar_neg (n : vec3) : planar n -> planar (v3.neg n).
Proof. unfold planar, v3.neg. cbn [c2]. intros ->. ring. Qed.

Lemma planar_set2 (p : vec3) : planar (set2 p 0).
Proof. reflexivity. Qed.

Create HintDb planar.

#[local] Hint Resolve planar_offsetDir planar_shift planar_neg planar_set2 : planar.

Lemma planar_resolveJoint (w : R) (s s' : LineSegment.t) (ls rs li ri : vec3) :
  planarSegment s -> planar li -> planar ri ->
  planarJoint (resolveJoint w s s' ls rs li ri).
Proof.
  intros [_ Hto] Hli Hri.
  assert (H1 : planar (v3.norm (v3.cross zAxis (LineSegment.direction s))))
    by apply planar_offsetDir.
  assert (H2 : planar (v3.norm (v3.cross zAxis (LineSegment.direction s'))))
    by apply planar_offsetDir.
  unfold resolveJoint.
  destruct (ltb (v3.length (v3.sub li ls)) (v3.length (v3.sub ri rs)));
    unfold planarJoint, planarQuad, planarTriangle, q0, q1, q2, q3, cs0, cs1, cs2;
    cbn [leftEnd rightEnd nextLeftStart nextRightStart stubA stubB capSupport
         fst snd];
    repeat split; auto with planar.
Qed.

Lemma planar_centerSegments (polygon : list vec3) :
  Forall planar polygon -> Forall planarSegment (centerSegments polygon).
Proof.
  induction polygon as [|a polygon IH]; intros H; [constructor|].
  destruct polygon as [|b polygon]; [constructor|].
  change (centerSegments (a :: b :: polygon))
    with (LineSegment.new a b :: centerSegments (b :: polygon)).
  inversion H as [|? ? Ha Hrest]; subst.
  constructor; [|now apply IH].
  inversion Hrest; subst. now split.
Qed.

Lemma planar_joints (w : R) (segments : list LineSegment.t) :
  forall (lefts rights : list vec3) (ls rs : vec3),
    Forall planarSegment segments -> Forall planar lefts -> Forall planar rights ->
    Forall planarJoint (joints w segments lefts rights ls rs).
Proof.
  induction segments as [|s segments IH]; intros lefts rights ls rs Hs Hl Hr;
    [constructor|].
  destruct segments as [|s' segments]; [constructor|].
  destruct lefts as [|li lefts]; [constructor|].
  destruct rights as [|ri rights]; [constructor|].
  rewrite joints_cons.
  inversion Hs; subst. inversion Hl; subst. inversion Hr; subst.
  constructor; [now apply planar_resolveJoint|now apply IH].
Qed.

Lemma planar_zipRectangles (a b c d : list vec3) :
  Forall planar a -> Forall planar b -> Forall planar c -> Forall planar d ->
  Forall planarQuad (zipRectangles a b c d).
Proof.
  revert b c d. induction a as [|x a IH]; intros [|y b] [|z c] [|t d] Ha Hb Hc Hd;
    simpl; try constructor.
  - inversion Ha; inversion Hb; inversion Hc; inversion Hd; subst.
    now repeat split.
  - inversion Ha; inversion Hb; inversion Hc; inversion Hd; subst.
    now apply IH.
Qed.

Lemma planar_intersections (intersect2D : line -> line -> result vec3)
    (lefts rights : list LineSegment.t) (ix : list vec3 * list vec3) :
  intersections intersect2D lefts rights = Ok ix ->
  Forall planar (fst ix) /\ Forall planar (snd ix).
Proof.
  revert rights ix. induction lefts as [|la lefts IH]; intros rights ix H.
  - injection H as <-. now split.
  - destruct lefts as [|lb lefts]; [injection H as <-; now split|].
    destruct rights as [|ra [|rb rights]]; try (injection H as <-; now split).
    rewrite intersections_cons in H.
    destruct (intersect2D (lineOf la) (lineOf lb)) as [l3|]; [|discriminate].
    destruct (intersect2D (lineOf ra) (lineOf rb)) as [r3|]; [|discriminate].
    cbn [bind] in H.
    destruct (intersections intersect2D (lb :: lefts) (rb :: rights))
      as [rest|] eqn:E; [|discriminate].
    cbn [bind] in H. injection H as <-.
    destruct (IH _ _ E) as [H1 H2]. cbn [fst snd].
    split; constructor; auto with planar.
Qed.

Lemma planar_radialPoints (cs : triangle) :
  planarTriangle cs -> Forall planar (radialPoints cs).
Proof.
  intros (H0 & H1 & H2). rewrite radialPoints_eq.
  constructor; [exact H2|].
  apply Forall_app. split; [|now constructor].
  apply Forall_forall. intros p Hp. apply in_map_iff in Hp.
  destruct Hp as (i & <- & _).
  unfold planar, radialPoint, v3.add. cbn [c2]. rewrite H1. ring.
Qed.

Lemma planar_fanLoop (pivot : vec3) (ps : list vec3) :
  planar pivot -> Forall planar ps ->
  Forall planarTriangle (triangles (fanLoop pivot ps emptyMesh)) /\
  Forall planar (outline (fanLoop pivot ps emptyMesh)).
Proof.
  intros Hp. induction ps as [|a ps IH]; intros H; [now split|].
  destruct ps as [|b ps]; [now split|].
  change (fanLoop pivot (a :: b :: ps) emptyMesh)
    with (fanLoop pivot (b :: ps)
            {| triangles := push [] (a, b, pivot);
               outline := push (push [] a) b |}).
  rewrite fanLoop_app. cbn [triangles outline].
  inversion H as [|? ? Ha Hrest]; subst. inversion Hrest as [|? ? Hb _]; subst.
  destruct (IH Hrest) as [IH1 IH2].
  split; apply Forall_app; split; try assumption.
  - constructor; [|constructor]. now repeat split.
  - unfold push. cbn [app]. now repeat constructor.
Qed.

Lemma Forall_last {A : Type} (P : A -> Prop) (l : list A) (d : A) :
  Forall P l -> P d -> P (last l d).
Proof.
  induction l as [|x l IH]; intros H Hd; [exact Hd|].
  inversion H; subst. destruct l as [|y l]; [assumption|].
  now apply IH.
Qed.

Lemma planar_build (intersect2D : line -> line -> result vec3)
    (polygon : list vec3) (w : R) (g : geometry) :
  Forall planar polygon ->
  build intersect2D polygon w = Ok g ->
  Forall planar (leftIntersections g) /\ Forall planar (rightIntersections g) /\
  Forall planarQuad (rectangles g) /\ Forall planarQuad (stubs g) /\
  Forall planarTriangle (capSupports g).
Proof.
  intros Hp Hb.
  destruct (build_Ok _ _ _ _ Hb)
    as (s0 & rest & js & Hcs & Hix & Hlefts & Hrights & Hjs & Hlen & Hls & Hrs
        & Hle & Hre & Hrect & Hst & Hcap).
  destruct (planar_intersections _ _ _ _ Hix) as [Hli Hri]. cbn [fst snd] in *.
  pose proof (planar_centerSegments _ Hp) as Hsegs. rewrite Hcs in Hsegs.
  assert (Hj : Forall planarJoint js)
    by (rewrite Hjs; now apply planar_joints).
  assert (Hs0 : planarSegment s0) by now inversion Hsegs.
  assert (Hlast : planarSegment (last rest s0)).
  { apply Forall_last; [now inversion Hsegs|exact Hs0]. }
  assert (Hfrom : forall k s, planarSegment s ->
                   planar (v3.add (LineSegment.from s) (v3.multiply (offsetDir s) k)))
    by (intros k s [H _]; auto with planar).
  assert (Hto : forall k s, planarSegment s ->
                 planar (v3.add (LineSegment.to s) (v3.multiply (offsetDir s) k)))
    by (intros k s [_ H]; auto with planar).
  repeat split; try assumption.
  - rewrite Hrect, Hls, Hrs, Hle, Hre.
    apply planar_zipRectangles.
    + constructor; [apply (Hfrom w s0 Hs0)|].
      apply Forall_map. eapply Forall_impl; [|exact Hj]. intros j Pj. apply Pj.
    + constructor; [apply (Hfrom (- w) s0 Hs0)|].
      apply Forall_map. eapply Forall_impl; [|exact Hj]. intros j Pj. apply Pj.
    + apply Forall_app. split.
      * apply Forall_map. eapply Forall_impl; [|exact Hj]. intros j Pj. apply Pj.
      * constructor; [apply (Hto (- w) _ Hlast)|constructor].
    + apply Forall_app. split.
      * apply Forall_map. eapply Forall_impl; [|exact Hj]. intros j Pj. apply Pj.
      * constructor; [apply (Hto w _ Hlast)|constructor].
  - rewrite Hst. apply Forall_flat_map.
    eapply Forall_impl; [|exact Hj]. intros j Pj.
    constructor; [apply Pj|]. constructor; [apply Pj|constructor].
  - rewrite Hcap. apply Forall_map.
    eapply Forall_impl; [|exact Hj]. intros j Pj. apply Pj.
Qed.

Lemma planar_tessellate (flag : bool) (g : geometry) (m : mesh) :
  Forall planarQuad (rectangles g) -> Forall planarQuad (stubs g) ->
  Forall planarTriangle (capSupports g) ->
  tessellate flag g = Ok m ->
  Forall planarTriangle (triangles m) /\ Forall planar (outline m).
Proof.
  intros Hr Hs Hc. rewrite tessellate_eq. intros H.
  destruct (closing flag (rectangles g)) as [extra|] eqn:Ex; [|discriminate].
  cbn [bind] in H. injection H as <-. cbn [triangles outline].
  assert (Hextra : Forall planar extra).
  { unfold closing in Ex. destruct flag; [injection Ex as <-; constructor|].
    destruct (rectangles g) as [|first rs] eqn:Er; [discriminate|].
    injection Ex as <-.
    assert (Hf : planarQuad first) by now inversion Hr.
    assert (Hl : planarQuad (last (first :: rs) first))
      by (apply Forall_last; assumption).
    repeat constructor; solve [apply Hf | apply Hl]. }
  assert (Hfan : forall cs, planarTriangle cs ->
                   Forall planarTriangle (triangles (capStep emptyMesh cs)) /\
                   Forall planar (outline (capStep emptyMesh cs))).
  { intros cs Hcs. unfold capStep. apply planar_fanLoop.
    - apply Hcs.
    - now apply planar_radialPoints. }
  split.
  - repeat (apply Forall_app; split).
    + apply Forall_flat_map. eapply Forall_impl; [|exact Hr].
      intros r Pr. unfold rectangleStep, push. cbn [triangles emptyMesh app].
      repeat constructor; apply Pr.
    + apply Forall_flat_map. eapply Forall_impl; [|exact Hs].
      intros r Pr. unfold stubStep, push. cbn [triangles emptyMesh app].
      repeat constructor; apply Pr.
    + apply Forall_flat_map. eapply Forall_impl; [|exact Hc].
      intros cs Pcs. now apply Hfan.
  - repeat (apply Forall_app; split); try assumption.
    + apply Forall_flat_map. eapply Forall_impl; [|exact Hr].
      intros r Pr. unfold rectangleStep, push. cbn [outline emptyMesh app].
      repeat constructor; apply Pr.
    + apply Forall_flat_map. eapply Forall_impl; [|exact Hs].
      intros r Pr. unfold stubStep, push. cbn [outline emptyMesh app].
      repeat constructor; apply Pr.
    + apply Forall_flat_map. eapply Forall_impl; [|exact Hc].
      intros cs Pcs. now apply Hfan.
Qed.

(** C10. For every accepted path whose points all have [z = 0], with a
    filter that only removes points and leaves no segment of zero
    length: every vertex of every triangle and every outline point of
    the mesh has [z = 0]. On the way, every offset direction has a zero
    [z], every intersection point has [z] forced to 0, and every radial
    point of a fan has [z = 0]. *)
Theorem planar_path_planar_mesh
    (removeParallel2D : list vec3 -> list vec3)
    (intersect2D : line -> line -> result vec3)
    (polygon : list vec3) (options : options) (m : mesh) :
  (forall p : vec3, In p (removeParallel2D polygon) -> In p polygon) ->
  Forall nondegenerate (centerSegments (removeParallel2D polygon)) ->
  (forall p : vec3, In p polygon -> c2 p = 0) ->
  ribbon removeParallel2D intersect2D polygon options = Ok m ->
  (forall a b c : vec3,
      In (a, b, c) (triangles m) -> c2 a = 0 /\ c2 b = 0 /\ c2 c = 0) /\
  (forall p : vec3, In p (outline m) -> c2 p = 0) /\
  (forall s : LineSegment.t, c2 (offsetDir s) = 0) /\
  exists g : geometry,
    build intersect2D (removeParallel2D polygon) (width options) = Ok g /\
    (forall p : vec3,
        In p (leftIntersections g) \/ In p (rightIntersections g) -> c2 p = 0) /\
    (forall (cs : triangle) (p : vec3),
        In cs (capSupports g) -> In p (radialPoints cs) ->
        c2 (cs1 cs) = 0 /\ c2 p = 0).
Proof.
  intros Hsub _ Hz H. unfold ribbon in H.
  destruct (validate polygon options) as [[]|]; [|discriminate].
  cbn [bind] in H.
  destruct (build intersect2D (removeParallel2D polygon) (width options))
    as [g|] eqn:Eg; [|discriminate].
  cbn [bind] in H.
  assert (Hp : Forall planar (removeParallel2D polygon)).
  { apply Forall_forall. intros p Hp. apply Hz, Hsub, Hp. }
  destruct (planar_build _ _ _ _ Hp Eg) as (Hli & Hri & Hr & Hs & Hc).
  destruct (planar_tessellate _ _ _ Hr Hs Hc H) as [Ht Ho].
  split; [|split; [|split]].
  - intros a b c Hin.
    apply (proj1 (Forall_forall _ _) Ht) in Hin.
    destruct Hin as (Ha & Hb & Hc'). now repeat split.
  - intros p Hin. exact (proj1 (Forall_forall _ _) Ho p Hin).
  - exact planar_offsetDir.
  - exists g. split; [reflexivity|]. split.
    + intros p [Hin|Hin].
      * exact (proj1 (Forall_forall _ _) Hli p Hin).
      * exact (proj1 (Forall_forall _ _) Hri p Hin).
    + intros cs p Hcs Hin.
      pose proof (proj1 (Forall_forall _ _) Hc cs Hcs) as Pcs.
      split; [apply Pcs|].
      exact (proj1 (Forall_forall _ _) (planar_radialPoints cs Pcs) p Hin).
Qed.

(** The filter of the specification only removes points. *)
Lemma removeInterior_incl (tolerance : R) (rest : list vec3) :
  forall (previous p : vec3),
    In p (Spec.removeInterior tolerance previous rest) -> In p rest.
Proof.
  induction rest as [|current rest IH]; intros previous p H; [exact H|].
  destruct rest as [|next rest]; [exact H|].
  change (Spec.removeInterior tolerance previous (current :: next :: rest))
    with (if Spec.collinear2D tolerance previous current next
          then Spec.removeInterior tolerance current (next :: rest)
          else current :: Spec.removeInterior tolerance current (next :: rest))
    in H.
  destruct (Spec.collinear2D tolerance previous current next).
  - right. exact (IH _ _ H).
  - destruct H as [H|H]; [now left|right; exact (IH _ _ H)].
Qed.

Lemma removeParallel2D_incl (tolerance : R) (polygon : list vec3) (p : vec3) :
  In p (Spec.removeParallel2D tolerance polygon) -> In p polygon.
Proof.
  destruct polygon as [|first rest]; [intros []|].
  intros [H|H]; [now left|right; exact (removeInterior_incl _ _ _ _ H)].
Qed.

(** A witness of C10: the L-shaped path, which lies in the plane. *)
Lemma planar_path_planar_mesh_witness :
  exists m : mesh,
    ribbon (Spec.removeParallel2D 0) (Spec.intersect2D 0) cornerPath
           {| width := 1; closed := false |} = Ok m /\
    (forall a b c : vec3,
        In (a, b, c) (triangles m) -> c2 a = 0 /\ c2 b = 0 /\ c2 c = 0) /\
    (forall p : vec3, In p (outline m) -> c2 p = 0).
Proof.
  assert (He : 0 <= 0 < 100) by lra.
  destruct (tessellate_Ok false cornerGeometry) as [m Em]; [discriminate|].
  assert (Hm : ribbon (Spec.removeParallel2D 0) (Spec.intersect2D 0)
                 cornerPath {| width := 1; closed := false |} = Ok m).
  { rewrite ribbon_valid; [|cbn; lia|lra].
    rewrite (corner_filter 0 He), (corner_build 0 He). exact Em. }
  exists m. split; [exact Hm|].
  assert (Hnd : Forall nondegenerate
                  (centerSegments (Spec.removeParallel2D 0 cornerPath))).
  { rewrite (corner_filter 0 He). unfold cornerPath.
    change (centerSegments [V3 0 0 0; V3 10 0 0; V3 10 10 0])
      with [LineSegment.new (V3 0 0 0) (V3 10 0 0);
            LineSegment.new (V3 10 0 0) (V3 10 10 0)].
    constructor; [left; cbn; lra|].
    constructor; [right; cbn; lra|constructor]. }
  assert (Hz : forall p : vec3, In p cornerPath -> c2 p = 0).
  { intros p [<-|[<-|[<-|[]]]]; reflexivity. }
  destruct (planar_path_planar_mesh (Spec.removeParallel2D 0) (Spec.intersect2D 0)
              cornerPath {| width := 1; closed := false |} m
              (removeParallel2D_incl 0 cornerPath) Hnd Hz Hm)
    as (Ht & Ho & _).
  split; assumption.
Defined.

(** ** The inside of a bend *)

(** The intersection in parametric form: the point of the first line
    at parameter [s]. *)
Lemma intersect2D_param (epsilon : R) (p1 p2 p3 p4 : vec3) :
  0 <= epsilon ->
  epsilon < Rabs (Spec.det2D (p1, p2) (p3, p4)) ->
  let s := ((c0 p3 - c0 p1) * (c1 p4 - c1 p3) - (c1 p3 - c1 p1) * (c0 p4 - c0 p3))
           / Spec.det2D (p1, p2) (p3, p4) in
  Spec.intersect2D epsilon (p1, p2) (p3, p4)
  = Ok (V3 (c0 p1 + s * (c0 p2 - c0 p1)) (c1 p1 + s * (c1 p2 - c1 p1)) 0).
Proof.
  intros He Hd s.
  assert (Hne : Spec.det2D (p1, p2) (p3, p4) <> 0).
  { intros E. rewrite E, Rabs_R0 in Hd. lra. }
  apply intersect2D_value; try assumption; unfold s.
  - unfold Spec.det2D in *. field. exact Hne.
  - unfold Spec.det2D in *. field. exact Hne.
Qed.

(** The sign of the turn decides which squared parameter is smaller. *)
Lemma bend_algebra (dx0 dy0 dx1 dy1 m0 m1 w : R) :
  0 < m0 -> 0 < m1 ->
  m0 * m0 = dx0 * dx0 + dy0 * dy0 ->
  m1 * m1 = dx1 * dx1 + dy1 * dy1 ->
  0 < w ->
  dx0 * dy1 - dy0 * dx1 <> 0 ->
  let turn := dx0 * dy1 - dy0 * dx1 in
  let C := (- dy1 / m1 - - dy0 / m0) * dy1 - (dx1 / m1 - dx0 / m0) * dx1 in
  let sL := (turn + w * C) / turn in
  let sR := (turn - w * C) / turn in
  (0 < turn -> sL * sL < sR * sR /\ sL < 1 /\ 1 < sR) /\
  (turn < 0 -> sR * sR < sL * sL /\ sR < 1 /\ 1 < sL).
Proof.
  intros Hm0 Hm1 HM0 HM1 Hw Ht turn C sL sR.
  set (D := dx0 * dx1 + dy0 * dy1).
  assert (HK : D < m0 * m1).
  { assert (E : (m0 * m1) * (m0 * m1) = D * D + turn * turn).
    { replace ((m0 * m1) * (m0 * m1)) with ((m0 * m0) * (m1 * m1)) by ring.
      rewrite HM0, HM1. unfold D, turn. ring. }
    assert (0 < turn * turn) by (fold turn in Ht; nra).
    assert (0 < m0 * m1) by nra.
    nra. }
  assert (HC : C = - (m0 * m1 - D) / m0).
  { assert (E : C = - (dx1 * dx1 + dy1 * dy1) / m1 + D / m0)
      by (unfold C, D; field; lra).
    rewrite E, <- HM1. field. lra. }
  assert (HC' : C < 0).
  { rewrite HC. apply Ropp_lt_cancel. rewrite Ropp_0.
    replace (- (- (m0 * m1 - D) / m0)) with ((m0 * m1 - D) / m0) by (field; lra).
    apply Rdiv_lt_0_compat; lra. }
  assert (Hd : sR * sR - sL * sL = 4 * (w * - C) / turn).
  { unfold sL, sR. field. exact Ht. }
  assert (Hp : 0 < 4 * (w * - C)) by nra.
  assert (HsL : sL = 1 - (4 * (w * - C) / turn) / 4)
    by (unfold sL; field; exact Ht).
  assert (HsR : sR = 1 + (4 * (w * - C) / turn) / 4)
    by (unfold sR; field; exact Ht).
  split; intros Hs.
  - assert (0 < 4 * (w * - C) / turn) by (apply Rdiv_lt_0_compat; assumption).
    lra.
  - assert (4 * (w * - C) / turn < 0).
    { unfold Rdiv. pose proof (Rinv_lt_0_compat turn Hs). nra. }
    lra.
Qed.

Lemma turn_nondegenerate (a b c : vec3) :
  turn a b c <> 0 ->
  0 < (c0 b - c0 a) * (c0 b - c0 a) + (c1 b - c1 a) * (c1 b - c1 a) /\
  0 < (c0 c - c0 b) * (c0 c - c0 b) + (c1 c - c1 b) * (c1 c - c1 b).
Proof.
  unfold turn. intros H.
  set (dx0 := c0 b - c0 a) in *. set (dy0 := c1 b - c1 a) in *.
  set (dx1 := c0 c - c0 b) in *. set (dy1 := c1 c - c1 b) in *.
  split.
  - destruct (Req_dec dx0 0) as [Ex|Ex]; destruct (Req_dec dy0 0) as [Ey|Ey];
      nra.
  - destruct (Req_dec dx1 0) as [Ex|Ex]; destruct (Req_dec dy1 0) as [Ey|Ey];
      nra.
Qed.
Lemma scaled_lt (x y M z : R) : 0 < M -> x < y -> x * M + z < y * M + z.
Proof. intros HM H. nra. Qed.

Lemma scaled_neg (x M : R) : 0 < M -> x < 1 -> (x - 1) * M < 0.
Proof. intros HM H. nra. Qed.

Lemma scaled_pos (x M : R) : 0 < M -> 1 < x -> 0 < (x - 1) * M.
Proof. intros HM H. nra. Qed.

Lemma scaled_nonneg (x M z : R) : 0 < M -> 0 <= x * x * M + z * z.
Proof.
  intros HM. pose proof (Rle_0_sqr x) as Hx. pose proof (Rle_0_sqr z) as Hz.
  unfold Rsqr in *. nra.
Qed.

Lemma bend_distances (epsilon w : R) (a b c : vec3) :
  0 <= epsilon -> 0 < w -> epsilon < Rabs (turn a b c) ->
  let s0 := LineSegment.new a b in
  let s1 := LineSegment.new b c in
  exists left3D right3D : vec3,
    Spec.intersect2D epsilon (lineOf (leftSegment w s0)) (lineOf (leftSegment w s1))
    = Ok left3D /\
    Spec.intersect2D epsilon (lineOf (rightSegment w s0)) (lineOf (rightSegment w s1))
    = Ok right3D /\
    (0 < turn a b c ->
     v3.length (v3.sub (set2 left3D 0) (LineSegment.from (leftSegment w s0)))
     < v3.length (v3.sub (set2 right3D 0) (LineSegment.from (rightSegment w s0)))) /\
    (turn a b c < 0 ->
     v3.length (v3.sub (set2 right3D 0) (LineSegment.from (rightSegment w s0)))
     < v3.length (v3.sub (set2 left3D 0) (LineSegment.from (leftSegment w s0)))) /\
    (0 < turn a b c ->
     beyondEnd (lineOf (leftSegment w s0)) (set2 left3D 0) < 0 /\
     0 < beyondEnd (lineOf (rightSegment w s0)) (set2 right3D 0)) /\
    (turn a b c < 0 ->
     beyondEnd (lineOf (rightSegment w s0)) (set2 right3D 0) < 0 /\
     0 < beyondEnd (lineOf (leftSegment w s0)) (set2 left3D 0)).
Proof.
  intros He Hw Ht s0 s1.
  assert (Hne : turn a b c <> 0).
  { intros E. rewrite E, Rabs_R0 in Ht. lra. }
  destruct (turn_nondegenerate a b c Hne) as [HM0 HM1].
  unfold turn in *.
  destruct a as [ax ay az], b as [bx by' bz], c as [cx cy cz].
  cbn [c0 c1 c2] in *.
  set (dx0 := bx - ax) in *. set (dy0 := by' - ay) in *.
  set (dx1 := cx - bx) in *. set (dy1 := cy - by') in *.
  set (m0 := sqrt (dx0 * dx0 + dy0 * dy0)).
  set (m1 := sqrt (dx1 * dx1 + dy1 * dy1)).
  assert (Hm0 : 0 < m0) by (apply sqrt_lt_R0; exact HM0).
  assert (Hm1 : 0 < m1) by (apply sqrt_lt_R0; exact HM1).
  assert (Hmm0 : m0 * m0 = dx0 * dx0 + dy0 * dy0) by (apply sqrt_sqrt; lra).
  assert (Hmm1 : m1 * m1 = dx1 * dx1 + dy1 * dy1) by (apply sqrt_sqrt; lra).
  assert (Hn0 : offsetDir s0 = V3 (- dy0 / m0) (dx0 / m0) 0)
    by (apply offsetDir_new; assumption).
  assert (Hn1 : offsetDir s1 = V3 (- dy1 / m1) (dx1 / m1) 0)
    by (apply offsetDir_new; assumption).
  unfold s0, s1.
  rewrite !lineOf_from.
  rewrite !(lineOf_leftSegment w _ _ _ Hn0), !(lineOf_leftSegment w _ _ _ Hn1).
  rewrite !(lineOf_rightSegment w _ _ _ Hn0), !(lineOf_rightSegment w _ _ _ Hn1).
  cbn [fst]. unfold v3.add, v3.multiply. cbn [c0 c1 c2].
  set (n0x := - dy0 / m0) in *. set (n0y := dx0 / m0) in *.
  set (n1x := - dy1 / m1) in *. set (n1y := dx1 / m1) in *.
  set (tn := dx0 * dy1 - dy0 * dx1) in *.
  match goal with
  | |- context [Spec.intersect2D epsilon (?p1, ?p2) (?p3, ?p4)] =>
      assert (Hdl : Spec.det2D (p1, p2) (p3, p4) = tn)
        by (unfold Spec.det2D, tn, dx0, dy0, dx1, dy1; cbn [c0 c1 c2]; ring);
      rewrite (intersect2D_param epsilon p1 p2 p3 p4 He)
        by (rewrite Hdl; exact Ht);
      cbv zeta; rewrite Hdl
  end.
  match goal with
  | |- context [Spec.intersect2D epsilon (?p1, ?p2) (?p3, ?p4)] =>
      assert (Hdr : Spec.det2D (p1, p2) (p3, p4) = tn)
        by (unfold Spec.det2D, tn, dx0, dy0, dx1, dy1; cbn [c0 c1 c2]; ring);
      rewrite (intersect2D_param epsilon p1 p2 p3 p4 He)
        by (rewrite Hdr; exact Ht);
      cbv zeta; rewrite Hdr
  end.
  do 2 eexists. split; [reflexivity|]. split; [reflexivity|].
  destruct (bend_algebra dx0 dy0 dx1 dy1 m0 m1 w Hm0 Hm1 Hmm0 Hmm1 Hw Hne)
    as [HL HR].
  cbv zeta in HL, HR. fold tn n0x n0y n1x n1y in HL, HR.
  set (C := (n1x - n0x) * dy1 - (n1y - n0y) * dx1) in *.
  unfold set2, v3.sub, v3.length, beyondEnd. cbn [c0 c1 c2 fst snd].
  set (M0 := dx0 * dx0 + dy0 * dy0) in *.
  set (sL := (tn + w * C) / tn) in *. set (sR := (tn - w * C) / tn) in *.
  match goal with
  | |- (_ -> sqrt ?A < sqrt ?B) /\ _ /\ (_ -> ?FL < 0 /\ 0 < ?FR) /\ _ =>
      assert (EA : A = sL * sL * M0 + az * az)
        by (unfold sL, M0, C, tn, dx0, dy0, dx1, dy1; field; exact Hne);
      assert (EB : B = sR * sR * M0 + az * az)
        by (unfold sR, M0, C, tn, dx0, dy0, dx1, dy1; field; exact Hne);
      assert (EL : FL = (sL - 1) * M0)
        by (unfold sL, M0, C, tn, dx0, dy0, dx1, dy1; field; exact Hne);
      assert (ER : FR = (sR - 1) * M0)
        by (unfold sR, M0, C, tn, dx0, dy0, dx1, dy1; field; exact Hne);
      rewrite EA, EB, EL, ER
  end.
  split; [|split; [|split]]; intros Hs.
  - apply sqrt_lt_1_alt.
    split; [apply scaled_nonneg; exact HM0|apply scaled_lt; [exact HM0|]].
    apply (HL Hs).
  - apply sqrt_lt_1_alt.
    split; [apply scaled_nonneg; exact HM0|apply scaled_lt; [exact HM0|]].
    apply (HR Hs).
  - destruct (HL Hs) as (_ & H1 & H2).
    split; [apply scaled_neg|apply scaled_pos]; assumption.
  - destruct (HR Hs) as (_ & H1 & H2).
    split; [apply scaled_neg|apply scaled_pos]; assumption.
Qed.

(** The geometry of a path with one joint, by the side of its bend. *)
Lemma bend_geometry (epsilon w : R) (a b c : vec3) :
  0 <= epsilon -> 0 < w -> epsilon < Rabs (turn a b c) ->
  exists (g : geometry) (li ri : vec3),
    build (Spec.intersect2D epsilon) [a; b; c] w = Ok g /\
    leftIntersections g = [li] /\ rightIntersections g = [ri] /\
    (0 < turn a b c ->
     nth_error (leftEnds g) 0 = Some li /\ nth_error (leftStarts g) 1 = Some li /\
     option_map q0 (hd_error (stubs g)) = Some li) /\
    (turn a b c < 0 ->
     nth_error (rightEnds g) 0 = Some ri /\ nth_error (rightStarts g) 1 = Some ri /\
     option_map q0 (hd_error (stubs g)) = Some ri) /\
    (0 < turn a b c ->
     beyondEnd (lineOf (leftSegment w (LineSegment.new a b))) li < 0 /\
     0 < beyondEnd (lineOf (rightSegment w (LineSegment.new a b))) ri) /\
    (turn a b c < 0 ->
     beyondEnd (lineOf (rightSegment w (LineSegment.new a b))) ri < 0 /\
     0 < beyondEnd (lineOf (leftSegment w (LineSegment.new a b))) li).
Proof.
  intros He Hw Ht.
  destruct (bend_distances epsilon w a b c He Hw Ht)
    as (left3D & right3D & Hl & Hr & Hpos & Hneg & Hin & Hout).
  eexists. exists (set2 left3D 0), (set2 right3D 0).
  split; [apply (build_one_joint _ _ _ _ _ _ _ Hl Hr)|].
  cbn [leftIntersections rightIntersections leftEnds rightEnds leftStarts
       rightStarts stubs nth_error hd_error option_map].
  split; [reflexivity|]. split; [reflexivity|].
  split; [|split; [|split; [exact Hin|exact Hout]]]; intros Hs.
  - destruct (resolveJoint_left w (LineSegment.new a b) (LineSegment.new b c)
                _ _ _ _ (Hpos Hs)) as (_ & Hi & H1 & H2).
    rewrite H1, H2. repeat split.
    rewrite <- Hi at 2. unfold resolveJoint.
    now destruct (ltb _ _).
  - destruct (resolveJoint_right w (LineSegment.new a b) (LineSegment.new b c)
                _ _ _ _ (Rlt_le _ _ (Hneg Hs))) as (_ & Hi & H1 & H2).
    rewrite H1, H2. repeat split.
    rewrite <- Hi at 2. unfold resolveJoint.
    now destruct (ltb _ _).
Qed.

Lemma turn_mirror (a b c : vec3) :
  turn (mirror a) (mirror b) (mirror c) = - turn a b c.
Proof. unfold turn, mirror. cbn [c0 c1]. ring. Qed.

(** C9. A path with one interior joint, bending by an angle strictly
    between 0 and 180 degrees (the signed area [turn] is not zero, and
    not within the tolerance of the intersection): the builder returns
    a geometry; when the path bends to the left the left intersection
    is the inside corner (the shared left vertex of the two rectangles
    and the first vertex of the stubs), when it bends to the right the
    right intersection is; the mirrored path, which bends the other
    way by the same angle, gets the opposite side; and the inside
    intersection lies before the end of its offset segment (the offsets
    converge) while the outside one lies beyond the end of its offset
    segment (the offsets diverge). *)
Theorem inside_corner_follows_bend (epsilon w : R) (a b c : vec3) :
  0 <= epsilon -> 0 < w -> epsilon < Rabs (turn a b c) ->
  exists (g g' : geometry) (li ri li' ri' : vec3),
    build (Spec.intersect2D epsilon) [a; b; c] w = Ok g /\
    build (Spec.intersect2D epsilon) [mirror a; mirror b; mirror c] w = Ok g' /\
    leftIntersections g = [li] /\ rightIntersections g = [ri] /\
    leftIntersections g' = [li'] /\ rightIntersections g' = [ri'] /\
    turn (mirror a) (mirror b) (mirror c) = - turn a b c /\
    (0 < turn a b c ->
     (nth_error (leftEnds g) 0 = Some li /\
      nth_error (leftStarts g) 1 = Some li /\
      option_map q0 (hd_error (stubs g)) = Some li) /\
     (nth_error (rightEnds g') 0 = Some ri' /\
      nth_error (rightStarts g') 1 = Some ri' /\
      option_map q0 (hd_error (stubs g')) = Some ri') /\
     beyondEnd (lineOf (leftSegment w (LineSegment.new a b))) li < 0 /\
     0 < beyondEnd (lineOf (rightSegment w (LineSegment.new a b))) ri) /\
    (turn a b c < 0 ->
     (nth_error (rightEnds g) 0 = Some ri /\
      nth_error (rightStarts g) 1 = Some ri /\
      option_map q0 (hd_error (stubs g)) = Some ri) /\
     (nth_error (leftEnds g') 0 = Some li' /\
      nth_error (leftStarts g') 1 = Some li' /\
      option_map q0 (hd_error (stubs g')) = Some li') /\
     beyondEnd (lineOf (rightSegment w (LineSegment.new a b))) ri < 0 /\
     0 < beyondEnd (lineOf (leftSegment w (LineSegment.new a b))) li).
Proof.
  intros He Hw Ht.
  assert (Ht' : epsilon < Rabs (turn (mirror a) (mirror b) (mirror c)))
    by (rewrite turn_mirror, Rabs_Ropp; exact Ht).
  destruct (bend_geometry epsilon w a b c He Hw Ht)
    as (g & li & ri & Hg & Hli & Hri & Hpos & Hneg & Hin & Hout).
  destruct (bend_geometry epsilon w (mirror a) (mirror b) (mirror c) He Hw Ht')
    as (g' & li' & ri' & Hg' & Hli' & Hri' & Hpos' & Hneg' & _).
  rewrite turn_mirror in Hpos', Hneg'.
  exists g, g', li, ri, li', ri'.
  repeat (split; [assumption || apply turn_mirror|]).
  split; intros Hs.
  - split; [exact (Hpos Hs)|]. split; [apply Hneg'; lra|exact (Hin Hs)].
  - split; [exact (Hneg Hs)|]. split; [apply Hpos'; lra|exact (Hout Hs)].
Qed.

(** A witness of C9: the L-shaped path bends to the left. *)
Lemma inside_corner_follows_bend_witness :
  0 < turn (V3 0 0 0) (V3 10 0 0) (V3 10 10 0) /\
  exists (g g' : geometry) (li ri' : vec3),
    build (Spec.intersect2D 0) cornerPath 1 = Ok g /\
    build (Spec.intersect2D 0) (map mirror cornerPath) 1 = Ok g' /\
    nth_error (leftEnds g) 0 = Some li /\
    leftIntersections g = [li] /\
    nth_error (rightEnds g') 0 = Some ri' /\
    rightIntersections g' = [ri'].
Proof.
  assert (Ht : turn (V3 0 0 0) (V3 10 0 0) (V3 10 10 0) = 100)
    by (unfold turn; cbn [c0 c1]; lra).
  split; [rewrite Ht; lra|].
  destruct (inside_corner_follows_bend 0 1 (V3 0 0 0) (V3 10 0 0) (V3 10 10 0))
    as (g & g' & li & ri & li' & ri' & Hg & Hg' & Hli & _ & _ & Hri' & _ & Hpos & _).
  - lra.
  - lra.
  - rewrite Ht, Rabs_pos_eq; lra.
  - destruct Hpos as ((H1 & _) & (H2 & _) & _); [rewrite Ht; lra|].
    exists g, g', li, ri'. repeat split; assumption.
Defined.

(** ** A bend of less than one slice *)

(** The cap support of a path with one joint that bends to the left. *)
Lemma left_bend_cap (epsilon w : R) (a b c : vec3) :
  0 <= epsilon -> 0 < w -> epsilon < Rabs (turn a b c) -> 0 < turn a b c ->
  exists g : geometry,
    build (Spec.intersect2D epsilon) [a; b; c] w = Ok g /\
    List.length (rectangles g) = 2%nat /\
    capSupports g
    = [(v3.add b (v3.multiply (v3.neg (offsetDir (LineSegment.new b c))) w),
        b,
        v3.add b (v3.multiply (v3.neg (offsetDir (LineSegment.new a b))) w))].
Proof.
  intros He Hw Ht Hpos.
  destruct (bend_distances epsilon w a b c He Hw Ht)
    as (left3D & right3D & Hl & Hr & Hlt & _).
  eexists. split; [apply (build_one_joint _ _ _ _ _ _ _ Hl Hr)|].
  cbn [capSupports rectangles List.length]. split; [reflexivity|].
  rewrite (resolveJoint_true _ _ _ _ _ _ _ (Hlt Hpos)). reflexivity.
Qed.

Lemma PI_gt_3 : 3 < PI.
Proof. pose proof PI2_3_2. lra. Qed.

(** [atan (15/112)], about 7.6 degrees, is less than 10 degrees. *)
Lemma atan_15_112 : 0 < atan (15 / 112) < PI / 18.
Proof.
  pose proof PI_gt_3 as Hpi.
  split.
  { rewrite <- atan_0. apply atan_increasing. lra. }
  assert (Hsin : 1 / 6 - (1 / 6) ^ 3 / 6 <= sin (1 / 6)).
  { pose proof (sin_bound (1 / 6) 0 ltac:(lra) ltac:(lra)) as [H _].
    unfold sin_approx, sin_term in H. simpl in H. lra. }
  assert (Hcos : 0 < cos (1 / 6) <= 1).
  { split; [apply cos_gt_0; lra|apply COS_bound]. }
  assert (Htan : 15 / 112 < tan (1 / 6)).
  { unfold tan.
    assert (Hs : 15 / 112 < sin (1 / 6)) by lra.
    assert (sin (1 / 6) <= sin (1 / 6) / cos (1 / 6)).
    { apply (Rmult_le_reg_r (cos (1 / 6))); [lra|].
      replace (sin (1 / 6) / cos (1 / 6) * cos (1 / 6)) with (sin (1 / 6))
        by (field; lra).
      nra. }
    lra. }
  apply Rlt_trans with (1 / 6); [|lra].
  rewrite <- (atan_tan (1 / 6)) by lra.
  apply atan_increasing. exact Htan.
Qed.

Lemma shallowCap_angles :
  startAngle shallowCap = 270 /\
  270 < endAngle shallowCap < 280 /\
  numSlices shallowCap = 0%Z.
Proof.
  pose proof PI_gt_3 as Hpi. pose proof atan_15_112 as [Ha0 Ha1].
  assert (Hs : startAngle shallowCap = 270).
  { unfold startAngle, shallowCap. vec_simpl.
    replace (10 - 10) with 0 by lra. rewrite atan2_south by lra.
    replace (- (PI / 2) / PI * 180) with (-90) by (field; lra).
    rewrite ltb_true by lra. lra. }
  assert (He : endAngle shallowCap = 270 + atan (15 / 112) / PI * 180).
  { unfold endAngle, shallowCap. vec_simpl.
    rewrite atan2_right by lra.
    replace ((- (112 / 113) - 0) / (10 + 15 / 113 - 10)) with (- / (15 / 112))
      by (field; lra).
    rewrite atan_opp, atan_inv by lra.
    assert (Hd : 0 < atan (15 / 112) / PI * 180 < 10).
    { assert (E : atan (15 / 112) = atan (15 / 112) / PI * PI) by (field; lra).
      set (t := atan (15 / 112) / PI) in *. nra. }
    replace (- (PI / 2 - atan (15 / 112)) / PI * 180)
      with (-90 + atan (15 / 112) / PI * 180) by (field; lra).
    rewrite ltb_true by lra.
    unfold eqb.
    destruct (Req_dec_T (-90 + atan (15 / 112) / PI * 180 + 360) 0); lra. }
  assert (Hd : 0 < atan (15 / 112) / PI * 180 < 10).
  { assert (E : atan (15 / 112) = atan (15 / 112) / PI * PI) by (field; lra).
    set (t := atan (15 / 112) / PI) in *. nra. }
  split; [exact Hs|]. split; [lra|].
  unfold numSlices, sliceAngle. rewrite Hs, He.
  apply Zfloor_eq. lra.
Qed.

Lemma shallow_filter :
  Spec.removeParallel2D 0 shallowPath = shallowPath.
Proof.
  unfold shallowPath, Spec.removeParallel2D, Spec.removeInterior.
  assert (E : Spec.collinear2D 0 (V3 0 0 0) (V3 10 0 0) (V3 122 15 0) = false).
  { unfold Spec.collinear2D. apply leb_false_iff. vec_simpl.
    rabs_value 150. lra. }
  now rewrite E.
Qed.

Lemma shallow_build :
  exists g : geometry,
    build (Spec.intersect2D 0) shallowPath 1 = Ok g /\
    List.length (rectangles g) = 2%nat /\
    capSupports g = [shallowCap].
Proof.
  assert (Ht : turn (V3 0 0 0) (V3 10 0 0) (V3 122 15 0) = 150)
    by (unfold turn; cbn [c0 c1]; lra).
  destruct (left_bend_cap 0 1 (V3 0 0 0) (V3 10 0 0) (V3 122 15 0))
    as (g & Hg & Hn & Hcap); try lra.
  { rewrite Ht, Rabs_pos_eq; lra. }
  exists g. split; [exact Hg|]. split; [exact Hn|].
  rewrite Hcap.
  rewrite (offsetDir_east 0 10 0 0 0) by lra.
  rewrite (offsetDir_new (V3 10 0 0) (V3 122 15 0) 113) by (vec_simpl; lra).
  unfold shallowCap. vec_eq.
Qed.

(** C4, as stated, fails. The path (0,0,0), (10,0,0), (122,15,0) with
    width 1 passes the filter unchanged and is built without error; it
    bends to the left by less than 10 degrees. Its one fan sweeps from
    270 degrees to less than 280, so [numSlices] is 0 and
    [numIntermediatePoints] is -1, while [radialPoints] holds the two
    end points: its length is 2, not [numIntermediatePoints + 2 = 1],
    and the fan is one triangle. *)
Lemma shallow_bend_fan :
  exists (g : geometry) (m : mesh),
    Spec.removeParallel2D 0 shallowPath = shallowPath /\
    build (Spec.intersect2D 0) shallowPath 1 = Ok g /\
    ribbon (Spec.removeParallel2D 0) (Spec.intersect2D 0) shallowPath
           {| width := 1; closed := false |} = Ok m /\
    capSupports g = [shallowCap] /\
    numSlices shallowCap = 0%Z /\
    numIntermediatePoints shallowCap = (-1)%Z /\
    List.length (radialPoints shallowCap) = 2%nat /\
    Z.of_nat (List.length (radialPoints shallowCap))
    <> (numIntermediatePoints shallowCap + 2)%Z /\
    List.length (triangles (capStep emptyMesh shallowCap)) = 1%nat.
Proof.
  destruct shallow_build as (g & Hg & Hn & Hcap).
  destruct shallowCap_angles as (_ & _ & Hs).
  assert (Hi : numIntermediatePoints shallowCap = (-1)%Z)
    by (unfold numIntermediatePoints; rewrite Hs; reflexivity).
  assert (Hl : List.length (radialPoints shallowCap) = 2%nat)
    by (rewrite radialPoints_length, Hi; reflexivity).
  destruct (tessellate_Ok false g) as [m Em].
  { intros E. rewrite E in Hn. discriminate. }
  exists g, m.
  split; [exact shallow_filter|].
  split; [exact Hg|].
  split.
  { rewrite ribbon_valid; [|cbn; lia|lra].
    rewrite shallow_filter, Hg. exact Em. }
  split; [exact Hcap|].
  split; [exact Hs|].
  split; [exact Hi|].
  split; [exact Hl|].
  split; [rewrite Hl, Hi; discriminate|].
  unfold capStep. rewrite fanLoop_length, Hl. reflexivity.
Qed.

(** * Further properties of the builder *)

(** ** Line segments *)

Lemma squares_pos (x y z : R) :
  x <> 0 \/ y <> 0 \/ z <> 0 -> 0 < x * x + y * y + z * z.
Proof. intros [H|[H|H]]; nra. Qed.

Lemma vec3_neq (a b : vec3) :
  a <> b -> c0 b - c0 a <> 0 \/ c1 b - c1 a <> 0 \/ c2 b - c2 a <> 0.
Proof.
  destruct a as [ax ay az], b as [bx by' bz]. cbn [c0 c1 c2]. intros H.
  destruct (Req_dec_T bx ax) as [Ex|Ex]; [|left; lra].
  destruct (Req_dec_T by' ay) as [Ey|Ey]; [|right; left; lra].
  destruct (Req_dec_T bz az) as [Ez|Ez]; [|right; right; lra].
  exfalso. apply H. now subst.
Qed.

(** X1. A line segment between two different points: its length is
    positive, its direction is a unit vector, and the from-point moved
    along the direction by the length is the to-point. *)
Theorem line_segment_unit_direction (from to : vec3) :
  from <> to ->
  0 < LineSegment.length (LineSegment.new from to) /\
  v3.length (LineSegment.direction (LineSegment.new from to)) = 1 /\
  v3.add from (v3.multiply (LineSegment.direction (LineSegment.new from to))
                           (LineSegment.length (LineSegment.new from to)))
  = to.
Proof.
  intros Hne. apply vec3_neq, squares_pos in Hne.
  unfold LineSegment.new. cbn [LineSegment.length LineSegment.direction].
  set (L := v3.length (v3.sub to from)).
  assert (HLL : L * L = (c0 to - c0 from) * (c0 to - c0 from)
                        + (c1 to - c1 from) * (c1 to - c1 from)
                        + (c2 to - c2 from) * (c2 to - c2 from)).
  { unfold L, v3.length. cbn [v3.sub c0 c1 c2]. apply sqrt_sqrt. lra. }
  assert (HL0 : 0 <= L) by apply length_nonneg.
  assert (HL : 0 < L) by nra.
  split; [exact HL|]. split.
  - apply length_of; [lra|].
    unfold v3.norm. fold L. cbn [v3.sub c0 c1 c2].
    replace (1 * 1) with ((L * L) / (L * L)) by (field; lra).
    rewrite HLL at 1. field. lra.
  - unfold v3.norm. fold L. destruct from as [fx fy fz], to as [tx ty tz].
    vec_eq.
Qed.

Lemma centerSegments_cons (a b : vec3) (polygon : list vec3) :
  centerSegments (a :: b :: polygon)
  = LineSegment.new a b :: centerSegments (b :: polygon).
Proof. reflexivity. Qed.

Lemma centerSegments_from (polygon : list vec3) :
  map LineSegment.from (centerSegments polygon) = removelast polygon.
Proof.
  induction polygon as [|a polygon IH]; [reflexivity|].
  destruct polygon as [|b polygon]; [reflexivity|].
  rewrite centerSegments_cons. cbn [map]. rewrite IH. reflexivity.
Qed.

Lemma centerSegments_to (polygon : list vec3) :
  map LineSegment.to (centerSegments polygon) = tl polygon.
Proof.
  induction polygon as [|a polygon IH]; [reflexivity|].
  destruct polygon as [|b polygon]; [reflexivity|].
  rewrite centerSegments_cons. cbn [map tl] in *. rewrite IH. reflexivity.
Qed.

(** X2. The center segments chain the points of the path: their
    from-points are the path without its last point and their to-points
    the path without its first point, so that each segment ends where
    the next one begins; each is the segment the constructor makes of
    its two ends; and there is one segment less than there are points
    (none for a path of fewer than two points). *)
Theorem center_segments_chain (polygon : list vec3) :
  map LineSegment.from (centerSegments polygon) = removelast polygon /\
  map LineSegment.to (centerSegments polygon) = tl polygon /\
  Forall (fun s => s = LineSegment.new (LineSegment.from s) (LineSegment.to s))
         (centerSegments polygon) /\
  List.length (centerSegments polygon) = (List.length polygon - 1)%nat.
Proof.
  split; [apply centerSegments_from|].
  split; [apply centerSegments_to|].
  split; [|apply centerSegments_length].
  induction polygon as [|a polygon IH]; [constructor|].
  destruct polygon as [|b polygon]; [constructor|].
  rewrite centerSegments_cons. constructor; [reflexivity|exact IH].
Qed.

Lemma centerSegments_nth_error (polygon : list vec3) (i : nat) (s : LineSegment.t) :
  nth_error (centerSegments polygon) i = Some s ->
  exists a b : vec3,
    nth_error polygon i = Some a /\ nth_error polygon (S i) = Some b /\
    s = LineSegment.new a b.
Proof.
  revert i. induction polygon as [|a polygon IH]; intros i H.
  - destruct i; discriminate.
  - destruct polygon as [|b polygon]; [destruct i; discriminate|].
    rewrite centerSegments_cons in H. destruct i as [|i].
    + injection H as <-. now exists a, b.
    + cbn [nth_error] in H. destruct (IH _ H) as (a' & b' & H1 & H2 & H3).
      now exists a', b'.
Qed.

Lemma nondegenerate_new (a b : vec3) :
  nondegenerate (LineSegment.new a b) ->
  0 < (c0 b - c0 a) * (c0 b - c0 a) + (c1 b - c1 a) * (c1 b - c1 a).
Proof.
  unfold nondegenerate. rewrite !from_new, !to_new.
  pose proof (Rle_0_sqr (c0 b - c0 a)) as H0.
  pose proof (Rle_0_sqr (c1 b - c1 a)) as H1.
  intros [H|H].
  - pose proof (Rsqr_pos_lt (c0 b - c0 a) ltac:(lra)). unfold Rsqr in *. lra.
  - pose proof (Rsqr_pos_lt (c1 b - c1 a) ltac:(lra)). unfold Rsqr in *. lra.
Qed.

(** The offset direction of a segment with an extent in the XY plane
    is its unit left normal. *)
Lemma offsetDir_unit (a b : vec3) :
  nondegenerate (LineSegment.new a b) ->
  exists nx ny : R,
    offsetDir (LineSegment.new a b) = V3 nx ny 0 /\
    nx * nx + ny * ny = 1 /\
    nx * (c0 b - c0 a) + ny * (c1 b - c1 a) = 0 /\
    0 < (c0 b - c0 a) * ny - (c1 b - c1 a) * nx.
Proof.
  intros H. apply nondegenerate_new in H.
  set (dx := c0 b - c0 a) in *. set (dy := c1 b - c1 a) in *.
  set (m := sqrt (dx * dx + dy * dy)).
  assert (Hm : 0 < m) by (apply sqrt_lt_R0; exact H).
  assert (Hmm : m * m = dx * dx + dy * dy) by (apply sqrt_sqrt; lra).
  exists (- dy / m), (dx / m).
  split; [apply offsetDir_new; assumption|].
  split; [|split].
  - replace (- dy / m * (- dy / m) + dx / m * (dx / m))
      with ((dx * dx + dy * dy) / (m * m)) by (field; lra).
    rewrite <- Hmm. field. lra.
  - field. lra.
  - replace (dx * (dx / m) - dy * (- dy / m))
      with ((dx * dx + dy * dy) / m) by (field; lra).
    apply Rdiv_lt_0_compat; assumption.
Qed.

Lemma sub_shift (p q k : vec3) : v3.sub (v3.add p k) (v3.add q k) = v3.sub p q.
Proof. destruct p, q, k. vec_eq. Qed.

(** X3. The two offset segments of a center segment with an extent in
    the XY plane, for a positive width: each has the direction and the
    length of the center segment, and is the center segment moved as a
    whole; their from-points lie at the distance [width] from the
    from-point of the center segment, on the perpendicular to it, the
    left one to its left and the right one to its right, and at the
    distance [2 * width] from each other. *)
Theorem offset_segments_parallel (w : R) (a b : vec3) :
  nondegenerate (LineSegment.new a b) -> 0 < w ->
  let s := LineSegment.new a b in
  let l := leftSegment w s in
  let r := rightSegment w s in
  (LineSegment.direction l = LineSegment.direction s /\
   LineSegment.direction r = LineSegment.direction s /\
   LineSegment.length l = LineSegment.length s /\
   LineSegment.length r = LineSegment.length s) /\
  (v3.sub (LineSegment.to l) (LineSegment.from l) = v3.sub b a /\
   v3.sub (LineSegment.to r) (LineSegment.from r) = v3.sub b a) /\
  (v3.length (v3.sub (LineSegment.from l) a) = w /\
   v3.length (v3.sub (LineSegment.from r) a) = w /\
   v3.length (v3.sub (LineSegment.from l) (LineSegment.from r)) = 2 * w) /\
  (dotXY (v3.sub (LineSegment.from l) a) (v3.sub b a) = 0 /\
   dotXY (v3.sub (LineSegment.from r) a) (v3.sub b a) = 0) /\
  (0 < turn a b (LineSegment.from l) /\ turn a b (LineSegment.from r) < 0).
Proof.
  intros Hnd Hw s l r.
  destruct (offsetDir_unit a b Hnd) as (nx & ny & Hn & Hunit & Hperp & Hleft).
  split.
  { unfold l, r, leftSegment, rightSegment, LineSegment.new.
    cbn [LineSegment.direction LineSegment.length]. rewrite !sub_shift.
    unfold s. rewrite !to_new, !from_new. now repeat split. }
  unfold l, r, leftSegment, rightSegment, s. rewrite !to_new, !from_new, Hn.
  rewrite !sub_shift. split; [now split|].
  destruct a as [ax ay az], b as [bx by' bz]. cbn [c0 c1 c2] in *.
  split; [|split].
  - repeat split; apply length_of; try lra; vec_simpl; nra.
  - unfold dotXY. vec_simpl. split; nra.
  - unfold turn. vec_simpl. split; nra.
Qed.

(** ** The anatomy of a geometry *)

Lemma nth_error_zipRectangles_Some (a b c d : list vec3) (i : nat) (x y z t : vec3) :
  nth_error a i = Some x -> nth_error b i = Some y ->
  nth_error c i = Some z -> nth_error d i = Some t ->
  nth_error (zipRectangles a b c d) i = Some (x, y, z, t).
Proof.
  revert b c d i.
  induction a as [|x' a IH]; intros [|y' b] [|z' c] [|t' d] [|i] Ha Hb Hc Hd;
    simpl in *; try discriminate.
  - now injection Ha as ->; injection Hb as ->; injection Hc as ->; injection Hd as ->.
  - now apply IH.
Qed.

Lemma nth_error_pairs {A B : Type} (f g : A -> B) (l : list A) (i : nat) :
  nth_error (flat_map (fun a => [f a; g a]) l) (2 * i) = option_map f (nth_error l i) /\
  nth_error (flat_map (fun a => [f a; g a]) l) (2 * i + 1) = option_map g (nth_error l i).
Proof.
  revert i. induction l as [|a l IH]; intros i.
  - cbn [flat_map]. rewrite !nth_error_nil. now split.
  - destruct i as [|i]; [now split|].
    replace (2 * S i)%nat with (S (S (2 * i))) by lia.
    replace (S (S (2 * i)) + 1)%nat with (S (S (2 * i + 1))) by lia.
    cbn [flat_map app nth_error]. apply IH.
Qed.

Lemma last_cons_default {A : Type} (l : list A) (x d : A) :
  last (x :: l) d = last l x.
Proof.
  revert x d. induction l as [|y l IH]; intros x d; [reflexivity|].
  change (last (x :: y :: l) d) with (last (y :: l) d).
  rewrite IH. symmetry. apply IH.
Qed.

Lemma nth_error_last {A : Type} (l : list A) (d : A) :
  nth_error (d :: l) (List.length l) = Some (last l d).
Proof.
  revert d. induction l as [|x l IH]; intros d; [reflexivity|].
  cbn [List.length nth_error]. rewrite IH. now rewrite last_cons_default.
Qed.

Section Anatomy.

Variable intersect2D : line -> line -> result vec3.

(** What the builder makes at joint [i]: the end of rectangle [i], the
    start of rectangle [i + 1], the stubs [2 i] and [2 i + 1] and the
    cap support [i] all come from one iteration of the joint loop, on
    the segments [i] and [i + 1] and the intersections [i]. *)
Lemma joint_anatomy (polygon : list vec3) (w : R) (g : geometry) (i : nat) :
  build intersect2D polygon w = Ok g ->
  (S i < List.length (centerSegments polygon))%nat ->
  exists (s s' : LineSegment.t) (left3D right3D : vec3) (r r' : quad),
    nth_error (centerSegments polygon) i = Some s /\
    nth_error (centerSegments polygon) (S i) = Some s' /\
    intersect2D (lineOf (leftSegment w s)) (lineOf (leftSegment w s')) = Ok left3D /\
    intersect2D (lineOf (rightSegment w s)) (lineOf (rightSegment w s')) = Ok right3D /\
    nth_error (rectangles g) i = Some r /\
    nth_error (rectangles g) (S i) = Some r' /\
    let j := resolveJoint w s s' (q0 r) (q1 r) (set2 left3D 0) (set2 right3D 0) in
    q3 r = leftEnd j /\ q2 r = rightEnd j /\
    q0 r' = nextLeftStart j /\ q1 r' = nextRightStart j /\
    nth_error (stubs g) (2 * i) = Some (stubA j) /\
    nth_error (stubs g) (2 * i + 1) = Some (stubB j) /\
    nth_error (capSupports g) i = Some (capSupport j).
Proof.
  intros Hb Hi.
  destruct (build_Ok _ _ _ _ Hb)
    as (s0 & rest & js & Hcs & Hix & Hlseg & Hrseg & Hjs & Hlen & Hls & Hrs
        & Hle & Hre & Hrect & Hst & Hcap).
  rewrite Hcs in *. cbn [List.length] in Hi.
  assert (Hij : (i < List.length js)%nat) by lia.
  destruct (nth_error js i) as [j|] eqn:Ej;
    [|apply nth_error_None in Ej; lia].
  pose proof Ej as Ej'. rewrite Hjs in Ej'.
  destruct (joints_nth_error _ _ _ _ _ _ _ _ Ej')
    as (s & s' & li & ri & ls & rs & Hs & Hs' & Hli & Hri & Hsl & Hsr & Hj).
  rewrite <- Hjs in Hsl, Hsr. rewrite <- Hls in Hsl. rewrite <- Hrs in Hsr.
  destruct (intersections_nth_error intersect2D i _ _ _ li ri Hix Hli Hri)
    as (la & lb & ra & rb & l3 & r3 & Hla & Hlb & Hra & Hrb & Hl3 & Hr3 & Eli & Eri).
  rewrite Hlseg, nth_error_map in Hla, Hlb.
  rewrite Hrseg, nth_error_map in Hra, Hrb.
  rewrite Hs in Hla, Hra. rewrite Hs' in Hlb, Hrb.
  cbn [option_map] in Hla, Hlb, Hra, Hrb.
  injection Hla as <-. injection Hlb as <-. injection Hra as <-. injection Hrb as <-.
  assert (Hle_i : nth_error (leftEnds g) i = Some (leftEnd j)).
  { rewrite Hle, nth_error_app1 by (now rewrite length_map).
    now rewrite nth_error_map, Ej. }
  assert (Hre_i : nth_error (rightEnds g) i = Some (rightEnd j)).
  { rewrite Hre, nth_error_app1 by (now rewrite length_map).
    now rewrite nth_error_map, Ej. }
  assert (Hls_i : nth_error (leftStarts g) (S i) = Some (nextLeftStart j)).
  { rewrite Hls. cbn [nth_error]. now rewrite nth_error_map, Ej. }
  assert (Hrs_i : nth_error (rightStarts g) (S i) = Some (nextRightStart j)).
  { rewrite Hrs. cbn [nth_error]. now rewrite nth_error_map, Ej. }
  destruct (nth_error (leftEnds g) (S i)) as [le'|] eqn:Ele;
    [|apply nth_error_None in Ele; rewrite Hle, length_app, length_map in Ele;
      cbn [List.length] in Ele; lia].
  destruct (nth_error (rightEnds g) (S i)) as [re'|] eqn:Ere;
    [|apply nth_error_None in Ere; rewrite Hre, length_app, length_map in Ere;
      cbn [List.length] in Ere; lia].
  exists s, s', l3, r3, (ls, rs, rightEnd j, leftEnd j),
    (nextLeftStart j, nextRightStart j, re', le').
  split; [exact Hs|]. split; [exact Hs'|].
  split; [exact Hl3|]. split; [exact Hr3|].
  split; [rewrite Hrect; now apply nth_error_zipRectangles_Some|].
  split; [rewrite Hrect; now apply nth_error_zipRectangles_Some|].
  unfold q0, q1, q2, q3. cbn [fst snd]. rewrite <- Eli, <- Eri, <- Hj.
  do 4 (split; [reflexivity|]).
  rewrite Hst, Hcap, nth_error_map, Ej.
  destruct (nth_error_pairs stubA stubB js i) as [H1 H2].
  rewrite H1, H2, Ej. now repeat split.
Qed.

(** The first rectangle starts at the from-points of the offset
    segments 0, the last one ends at the to-points of the last offset
    segments. *)
Lemma ends_anatomy (polygon : list vec3) (w : R) (g : geometry) :
  build intersect2D polygon w = Ok g ->
  exists (s0 : LineSegment.t) (rest : list LineSegment.t) (first final : quad),
    centerSegments polygon = s0 :: rest /\
    nth_error (rectangles g) 0 = Some first /\
    nth_error (rectangles g) (List.length rest) = Some final /\
    q0 first = LineSegment.from (leftSegment w s0) /\
    q1 first = LineSegment.from (rightSegment w s0) /\
    q2 final = LineSegment.to (rightSegment w (last rest s0)) /\
    q3 final = LineSegment.to (leftSegment w (last rest s0)).
Proof.
  intros Hb.
  destruct (build_Ok _ _ _ _ Hb)
    as (s0 & rest & js & Hcs & Hix & Hlseg & Hrseg & Hjs & Hlen & Hls & Hrs
        & Hle & Hre & Hrect & Hst & Hcap).
  assert (Hle_n : nth_error (leftEnds g) (List.length rest)
                  = Some (LineSegment.to (leftSegment w (last rest s0)))).
  { rewrite Hle, nth_error_app2 by (rewrite length_map; lia).
    rewrite length_map, Hlen, Nat.sub_diag. reflexivity. }
  assert (Hre_n : nth_error (rightEnds g) (List.length rest)
                  = Some (LineSegment.to (rightSegment w (last rest s0)))).
  { rewrite Hre, nth_error_app2 by (rewrite length_map; lia).
    rewrite length_map, Hlen, Nat.sub_diag. reflexivity. }
  assert (Hlens : List.length (leftStarts g) = S (List.length rest))
    by (rewrite Hls; cbn [List.length]; now rewrite length_map, Hlen).
  assert (Hrens : List.length (rightStarts g) = S (List.length rest))
    by (rewrite Hrs; cbn [List.length]; now rewrite length_map, Hlen).
  assert (Hlene : List.length (leftEnds g) = S (List.length rest))
    by (rewrite Hle, length_app, length_map, Hlen; cbn [List.length]; lia).
  assert (Hrene : List.length (rightEnds g) = S (List.length rest))
    by (rewrite Hre, length_app, length_map, Hlen; cbn [List.length]; lia).
  destruct (nth_error (leftStarts g) (List.length rest)) as [ls|] eqn:Els;
    [|apply nth_error_None in Els; lia].
  destruct (nth_error (rightStarts g) (List.length rest)) as [rs|] eqn:Ers;
    [|apply nth_error_None in Ers; lia].
  destruct (nth_error (leftEnds g) 0) as [le|] eqn:Ele;
    [|apply nth_error_None in Ele; lia].
  destruct (nth_error (rightEnds g) 0) as [re|] eqn:Ere;
    [|apply nth_error_None in Ere; lia].
  exists s0, rest,
    (LineSegment.from (leftSegment w s0), LineSegment.from (rightSegment w s0), re, le),
    (ls, rs, LineSegment.to (rightSegment w (last rest s0)),
     LineSegment.to (leftSegment w (last rest s0))).
  split; [exact Hcs|].
  split.
  { rewrite Hrect. apply nth_error_zipRectangles_Some; try assumption.
    - now rewrite Hls.
    - now rewrite Hrs. }
  split; [rewrite Hrect; now apply nth_error_zipRectangles_Some|].
  now repeat split.
Qed.

End Anatomy.

Lemma nth_error_unique {A : Type} (l : list A) (i : nat) (x y : A) :
  nth_error l i = Some x -> nth_error l i = Some y -> x = y.
Proof. intros H1 H2. rewrite H1 in H2. now injection H2. Qed.

Section RectangleAnatomy.

Variable intersect2D : line -> line -> result vec3.

(** Rectangle [i] belongs to segment [i]: it starts at the start of
    the ribbon or at the joint before the segment, and it ends at the
    joint after the segment or at the end of the ribbon. *)
Lemma rectangle_anatomy (polygon : list vec3) (w : R) (g : geometry)
    (i : nat) (r : quad) :
  build intersect2D polygon w = Ok g ->
  nth_error (rectangles g) i = Some r ->
  exists s : LineSegment.t,
    nth_error (centerSegments polygon) i = Some s /\
    ((i = 0%nat /\
      q0 r = LineSegment.from (leftSegment w s) /\
      q1 r = LineSegment.from (rightSegment w s)) \/
     (exists (k : nat) (s_prev : LineSegment.t) (ls rs left3D right3D : vec3),
        i = S k /\
        nth_error (centerSegments polygon) k = Some s_prev /\
        intersect2D (lineOf (leftSegment w s_prev)) (lineOf (leftSegment w s))
        = Ok left3D /\
        intersect2D (lineOf (rightSegment w s_prev)) (lineOf (rightSegment w s))
        = Ok right3D /\
        q0 r = nextLeftStart
                 (resolveJoint w s_prev s ls rs (set2 left3D 0) (set2 right3D 0)) /\
        q1 r = nextRightStart
                 (resolveJoint w s_prev s ls rs (set2 left3D 0) (set2 right3D 0)))) /\
    ((S i = List.length (centerSegments polygon) /\
      q3 r = LineSegment.to (leftSegment w s) /\
      q2 r = LineSegment.to (rightSegment w s)) \/
     (exists (s_next : LineSegment.t) (left3D right3D : vec3),
        nth_error (centerSegments polygon) (S i) = Some s_next /\
        intersect2D (lineOf (leftSegment w s)) (lineOf (leftSegment w s_next))
        = Ok left3D /\
        intersect2D (lineOf (rightSegment w s)) (lineOf (rightSegment w s_next))
        = Ok right3D /\
        q3 r = leftEnd
                 (resolveJoint w s s_next (q0 r) (q1 r)
                    (set2 left3D 0) (set2 right3D 0)) /\
        q2 r = rightEnd
                 (resolveJoint w s s_next (q0 r) (q1 r)
                    (set2 left3D 0) (set2 right3D 0)))).
Proof.
  intros Hb Hr.
  destruct (build_rectangles_length _ _ _ _ Hb) as (Hlen & _ & _ & _).
  assert (Hi : (i < List.length (centerSegments polygon))%nat).
  { rewrite <- Hlen. apply nth_error_Some. now rewrite Hr. }
  destruct (nth_error (centerSegments polygon) i) as [s|] eqn:Es;
    [|apply nth_error_None in Es; lia].
  exists s. split; [reflexivity|]. split.
  - destruct i as [|k].
    + left. destruct (ends_anatomy _ _ _ _ Hb)
        as (s0 & rest & first & final & Hcs & Hfirst & _ & H0 & H1 & _).
      rewrite (nth_error_unique _ _ _ _ Hr Hfirst).
      rewrite Hcs in Es. injection Es as <-. now repeat split.
    + right. destruct (joint_anatomy _ _ _ _ k Hb Hi)
        as (sp & s' & l3 & r3 & rp & r' & Hsp & Hs' & Hl3 & Hr3 & Hrp & Hr'
            & _ & _ & H0 & H1 & _).
      rewrite (nth_error_unique _ _ _ _ Hr Hr').
      rewrite (nth_error_unique _ _ _ _ Es Hs').
      exists k, sp, (q0 rp), (q1 rp), l3, r3. now repeat split.
  - destruct (Nat.eq_dec (S i) (List.length (centerSegments polygon))) as [E|E].
    + left. destruct (ends_anatomy _ _ _ _ Hb)
        as (s0 & rest & first & final & Hcs & _ & Hfinal & _ & _ & H2 & H3).
      rewrite Hcs in E, Es. cbn [List.length] in E. injection E as E. subst i.
      rewrite (nth_error_unique _ _ _ _ Hr Hfinal).
      rewrite nth_error_last in Es. injection Es as <-.
      rewrite Hcs. now repeat split.
    + right. assert (Hi' : (S i < List.length (centerSegments polygon))%nat) by lia.
      destruct (joint_anatomy _ _ _ _ i Hb Hi')
        as (s1 & s' & l3 & r3 & r1 & r' & Hs1 & Hs' & Hl3 & Hr3 & Hr1 & Hr'
            & H3 & H2 & _).
      rewrite (nth_error_unique _ _ _ _ Hr Hr1).
      rewrite (nth_error_unique _ _ _ _ Es Hs1).
      exists s', l3, r3. now repeat split.
Qed.

End RectangleAnatomy.

(** ** The edges of a joint *)

Lemma resolveJoint_edges (w : R) (s s' : LineSegment.t) (ls rs li ri : vec3) :
  v3.sub (leftEnd (resolveJoint w s s' ls rs li ri))
         (rightEnd (resolveJoint w s s' ls rs li ri))
  = v3.multiply (offsetDir s) (2 * w) /\
  v3.sub (nextLeftStart (resolveJoint w s s' ls rs li ri))
         (nextRightStart (resolveJoint w s s' ls rs li ri))
  = v3.multiply (offsetDir s') (2 * w).
Proof.
  unfold resolveJoint.
  change (v3.norm (v3.cross zAxis (LineSegment.direction s))) with (offsetDir s).
  change (v3.norm (v3.cross zAxis (LineSegment.direction s'))) with (offsetDir s').
  destruct (offsetDir s) as [nx ny nz], (offsetDir s') as [mx my mz].
  destruct li as [lx ly lz], ri as [rx ry rz].
  destruct (ltb _ _); cbn [leftEnd rightEnd nextLeftStart nextRightStart];
    split; vec_eq.
Qed.

Lemma offset_edges (w : R) (s : LineSegment.t) :
  v3.sub (LineSegment.from (leftSegment w s)) (LineSegment.from (rightSegment w s))
  = v3.multiply (offsetDir s) (2 * w) /\
  v3.sub (LineSegment.to (leftSegment w s)) (LineSegment.to (rightSegment w s))
  = v3.multiply (offsetDir s) (2 * w).
Proof.
  unfold leftSegment, rightSegment. rewrite !to_new, !from_new.
  destruct (offsetDir s) as [nx ny nz].
  destruct (LineSegment.from s) as [fx fy fz], (LineSegment.to s) as [tx ty tz].
  split; vec_eq.
Qed.

(** X4. The ribbon is [2 * width] wide everywhere: in rectangle [i],
    the start edge (from corner 1 to corner 0) and the end edge (from
    corner 2 to corner 3) are both the offset direction of segment [i]
    times [2 * width]; they have the length [2 * width] and are
    perpendicular to the segment. So every rectangle is a
    parallelogram, whatever the intersection helper returns. *)
Theorem rectangle_edges (intersect2D : line -> line -> result vec3)
    (polygon : list vec3) (w : R) (g : geometry)
    (i : nat) (r : quad) (s : LineSegment.t) :
  Forall nondegenerate (centerSegments polygon) -> 0 < w ->
  build intersect2D polygon w = Ok g ->
  nth_error (rectangles g) i = Some r ->
  nth_error (centerSegments polygon) i = Some s ->
  v3.sub (q0 r) (q1 r) = v3.multiply (offsetDir s) (2 * w) /\
  v3.sub (q3 r) (q2 r) = v3.multiply (offsetDir s) (2 * w) /\
  v3.length (v3.sub (q0 r) (q1 r)) = 2 * w /\
  v3.length (v3.sub (q3 r) (q2 r)) = 2 * w /\
  dotXY (v3.sub (q0 r) (q1 r)) (v3.sub (LineSegment.to s) (LineSegment.from s)) = 0 /\
  dotXY (v3.sub (q3 r) (q2 r)) (v3.sub (LineSegment.to s) (LineSegment.from s)) = 0.
Proof.
  intros Hnd Hw Hb Hr Hs.
  destruct (rectangle_anatomy _ _ _ _ _ _ Hb Hr) as (s1 & Hs1 & Hstart & Hend).
  rewrite (nth_error_unique _ _ _ _ Hs1 Hs) in *. clear Hs1 s1.
  assert (E0 : v3.sub (q0 r) (q1 r) = v3.multiply (offsetDir s) (2 * w)).
  { destruct Hstart as [(_ & -> & ->)|(k & sp & ls & rs & l3 & r3 & _ & _ & _ & _ & -> & ->)].
    - apply offset_edges.
    - apply resolveJoint_edges. }
  assert (E1 : v3.sub (q3 r) (q2 r) = v3.multiply (offsetDir s) (2 * w)).
  { destruct Hend as [(_ & -> & ->)|(sn & l3 & r3 & _ & _ & _ & -> & ->)].
    - apply offset_edges.
    - apply resolveJoint_edges. }
  rewrite E0, E1.
  assert (Hin : nondegenerate s).
  { eapply Forall_forall; [exact Hnd|]. eapply nth_error_In; exact Hs. }
  destruct (centerSegments_nth_error _ _ _ Hs) as (a & b & _ & _ & ->).
  destruct (offsetDir_unit a b Hin) as (nx & ny & -> & Hunit & Hperp & _).
  rewrite to_new, from_new.
  assert (Hlen : v3.length (v3.multiply (V3 nx ny 0) (2 * w)) = 2 * w).
  { apply length_of; [lra|]. vec_simpl. nra. }
  assert (Hdot : dotXY (v3.multiply (V3 nx ny 0) (2 * w)) (v3.sub b a) = 0).
  { destruct a as [ax ay az], b as [bx by' bz]. cbn [c0 c1 c2] in Hperp.
    unfold dotXY. vec_simpl.
    replace (nx * (2 * w) * (bx - ax) + ny * (2 * w) * (by' - ay))
      with (2 * w * (nx * (bx - ax) + ny * (by' - ay))) by ring.
    rewrite Hperp. ring. }
  now repeat split.
Qed.

(** ** The two ends of the ribbon *)

Lemma last_nth_error {A : Type} (l : list A) (n : nat) (x d : A) :
  List.length l = S n -> nth_error l n = Some x -> last l d = x.
Proof.
  destruct l as [|y l]; [discriminate|]. cbn [List.length]. intros Hn H.
  injection Hn as <-. rewrite nth_error_last in H. injection H as <-.
  apply last_cons_default.
Qed.

(** X5. The ribbon ends flush with the path: the start edge of the
    first rectangle is the first point of the path moved by [width]
    along the offset direction of the first segment and against it,
    and the end edge of the last rectangle is the last point of the
    path moved likewise along the offset direction of the last
    segment. This holds for every intersection helper. *)
Theorem ribbon_ends_flush (intersect2D : line -> line -> result vec3)
    (polygon : list vec3) (w : R) (g : geometry) :
  build intersect2D polygon w = Ok g ->
  exists (a z : vec3) (s0 sn : LineSegment.t) (first final : quad),
    hd_error polygon = Some a /\ last polygon a = z /\
    hd_error (centerSegments polygon) = Some s0 /\
    last (centerSegments polygon) s0 = sn /\
    hd_error (rectangles g) = Some first /\
    last (rectangles g) first = final /\
    q0 first = v3.add a (v3.multiply (offsetDir s0) w) /\
    q1 first = v3.add a (v3.multiply (offsetDir s0) (- w)) /\
    q3 final = v3.add z (v3.multiply (offsetDir sn) w) /\
    q2 final = v3.add z (v3.multiply (offsetDir sn) (- w)).
Proof.
  intros Hb.
  destruct (ends_anatomy _ _ _ _ Hb)
    as (s0 & rest & first & final & Hcs & Hfirst & Hfinal & H0 & H1 & H2 & H3).
  destruct (build_rectangles_length _ _ _ _ Hb) as (Hlen & _ & _ & _).
  rewrite Hcs in Hlen. cbn [List.length] in Hlen.
  pose proof (centerSegments_from polygon) as Hfrom.
  pose proof (centerSegments_to polygon) as Hto.
  rewrite Hcs in Hfrom, Hto.
  destruct polygon as [|a [|b polygon]]; try discriminate.
  exists a, (LineSegment.to (last rest s0)), s0, (last rest s0), first, final.
  split; [reflexivity|].
  split.
  { cbn [map tl] in Hto.
    rewrite (last_cons_default (b :: polygon) a a), <- Hto.
    rewrite (last_cons_default (map LineSegment.to rest) (LineSegment.to s0) a).
    apply last_map_default. }
  split; [now rewrite Hcs|].
  split; [rewrite Hcs; apply last_cons_default|].
  split; [now destruct (rectangles g)|].
  split; [exact (last_nth_error _ _ _ _ Hlen Hfinal)|].
  rewrite H0, H1, H2, H3. unfold leftSegment, rightSegment.
  rewrite !to_new, !from_new.
  cbn [map removelast] in Hfrom. injection Hfrom as Hfrom _. rewrite Hfrom.
  now repeat split.
Qed.

(** ** Heights *)

Lemma planar_joint_corners (w : R) (s s' : LineSegment.t) (ls rs li ri : vec3) :
  planar li -> planar ri ->
  planar (insideIntersection (resolveJoint w s s' ls rs li ri)) /\
  planar (leftEnd (resolveJoint w s s' ls rs li ri)) /\
  planar (rightEnd (resolveJoint w s s' ls rs li ri)) /\
  planar (nextLeftStart (resolveJoint w s s' ls rs li ri)) /\
  planar (nextRightStart (resolveJoint w s s' ls rs li ri)).
Proof.
  intros Hli Hri.
  assert (H1 : planar (v3.norm (v3.cross zAxis (LineSegment.direction s))))
    by apply planar_offsetDir.
  assert (H2 : planar (v3.norm (v3.cross zAxis (LineSegment.direction s'))))
    by apply planar_offsetDir.
  unfold resolveJoint.
  destruct (ltb _ _);
    cbn [insideIntersection leftEnd rightEnd nextLeftStart nextRightStart];
    repeat split; auto with planar.
Qed.

(** X6. Heights are dropped at the joints and kept at the two ends:
    the corners of a rectangle that a joint resolves (its start corners
    unless it is the first rectangle, its end corners unless it is the
    last one) have z = 0 whatever the heights of the path; the start
    corners of the first rectangle have the height of the first point,
    and the end corners of the last rectangle the height of the point
    that ends its segment. *)
Theorem joint_corners_at_height_zero (intersect2D : line -> line -> result vec3)
    (polygon : list vec3) (w : R) (g : geometry) (i : nat) (r : quad) :
  Forall nondegenerate (centerSegments polygon) ->
  build intersect2D polygon w = Ok g ->
  nth_error (rectangles g) i = Some r ->
  (i <> 0%nat -> c2 (q0 r) = 0 /\ c2 (q1 r) = 0) /\
  (S i <> List.length (rectangles g) -> c2 (q2 r) = 0 /\ c2 (q3 r) = 0) /\
  (i = 0%nat ->
   exists a, nth_error polygon 0 = Some a /\ c2 (q0 r) = c2 a /\ c2 (q1 r) = c2 a) /\
  (S i = List.length (rectangles g) ->
   exists z, nth_error polygon (S i) = Some z /\ c2 (q2 r) = c2 z /\ c2 (q3 r) = c2 z).
Proof.
  intros _ Hb Hr.
  destruct (build_rectangles_length _ _ _ _ Hb) as (Hlen & _ & _ & _).
  destruct (rectangle_anatomy _ _ _ _ _ _ Hb Hr) as (s & Hs & Hstart & Hend).
  destruct (centerSegments_nth_error _ _ _ Hs) as (a & b & Ha & Hb' & ->).
  pose proof (planar_offsetDir (LineSegment.new a b)) as Hn. unfold planar in Hn.
  split; [|split; [|split]].
  - intros Hi.
    destruct Hstart as [(E & _)|(k & sp & ls & rs & l3 & r3 & _ & _ & _ & _ & -> & ->)];
      [contradiction|].
    split; apply planar_joint_corners; apply planar_set2.
  - intros Hi. rewrite Hlen in Hi.
    destruct Hend as [(E & _)|(sn & l3 & r3 & _ & _ & _ & -> & ->)];
      [contradiction|].
    split; apply planar_joint_corners; apply planar_set2.
  - intros ->.
    destruct Hstart as [(_ & -> & ->)|(k & sp & ls & rs & l3 & r3 & E & _)];
      [|discriminate].
    exists a. split; [exact Ha|].
    unfold leftSegment, rightSegment. rewrite !from_new.
    unfold v3.add, v3.multiply. cbn [c2]. rewrite Hn. split; ring.
  - intros Hi. rewrite Hlen in Hi.
    destruct Hend as [(_ & -> & ->)|(sn & l3 & r3 & Hsn & _)].
    + exists b. split; [exact Hb'|].
      unfold leftSegment, rightSegment. rewrite !to_new.
      unfold v3.add, v3.multiply. cbn [c2]. rewrite Hn. split; ring.
    + exfalso. assert (nth_error (centerSegments polygon) (S i) <> None)
        by (rewrite Hsn; discriminate).
      apply nth_error_Some in H. lia.
Qed.

(** ** The pieces of a joint fit together *)

(** X7. The pieces made at joint [i] meet. The two stubs and the cap
    support turn about point [i + 1] of the path; the stubs share their
    edge from the inside corner to that point; the inside corner is the
    corner that the rectangles [i] and [i + 1] share, on the left or on
    the right; corner 3 of the first stub and corner 2 of the second
    are the outside corners of the two rectangles; and the cap support
    spans from corner 3 of the second stub to corner 2 of the first. *)
Theorem joint_pieces_meet (intersect2D : line -> line -> result vec3)
    (polygon : list vec3) (w : R) (g : geometry) (i : nat) (r r' : quad) :
  build intersect2D polygon w = Ok g ->
  nth_error (rectangles g) i = Some r ->
  nth_error (rectangles g) (S i) = Some r' ->
  exists (a b : quad) (cs : triangle) (p : vec3),
    nth_error (stubs g) (2 * i) = Some a /\
    nth_error (stubs g) (2 * i + 1) = Some b /\
    nth_error (capSupports g) i = Some cs /\
    nth_error polygon (S i) = Some p /\
    (q1 a = p /\ q0 b = p /\ cs1 cs = p) /\
    q1 b = q0 a /\
    (cs0 cs = q2 a /\ cs2 cs = q3 b) /\
    ((q3 r = q0 a /\ q0 r' = q0 a /\ q2 r = q2 b /\ q1 r' = q3 a) \/
     (q2 r = q0 a /\ q1 r' = q0 a /\ q3 r = q3 a /\ q0 r' = q2 b)).
Proof.
  intros Hb Hr Hr'.
  destruct (build_rectangles_length _ _ _ _ Hb) as (Hlen & _ & _ & _).
  assert (Hi : (S i < List.length (centerSegments polygon))%nat).
  { rewrite <- Hlen. apply nth_error_Some. now rewrite Hr'. }
  destruct (joint_anatomy _ _ _ _ i Hb Hi)
    as (s & s' & l3 & r3 & r1 & r1' & Hs & Hs' & _ & _ & Hr1 & Hr1'
        & H3 & H2 & H0 & H1 & Ha & Hb' & Hc).
  rewrite <- (nth_error_unique _ _ _ _ Hr Hr1) in *.
  rewrite <- (nth_error_unique _ _ _ _ Hr' Hr1') in *.
  destruct (centerSegments_nth_error _ _ _ Hs) as (pa & pb & _ & Hp & Es).
  eexists _, _, _, pb.
  split; [exact Ha|]. split; [exact Hb'|]. split; [exact Hc|].
  split; [exact Hp|].
  rewrite H3, H2, H0, H1. rewrite Es, ?to_new.
  unfold resolveJoint. rewrite to_new.
  destruct (ltb _ _);
    cbn [leftEnd rightEnd nextLeftStart nextRightStart stubA stubB capSupport];
    unfold q0, q1, q2, q3, cs0, cs1, cs2; cbn [fst snd];
    (split; [now repeat split|]); (split; [reflexivity|]);
    (split; [now split|]).
  - left. now repeat split.
  - right. now repeat split.
Qed.

(** ** Rectangles lie on the offset lines *)

Lemma onLine_set2 (l : line) (p : vec3) : onLine l p -> onLine l (set2 p 0).
Proof. exact (fun H => H). Qed.

Lemma onLine_from (s : LineSegment.t) : onLine (lineOf s) (LineSegment.from s).
Proof. unfold onLine, lineOf. cbn [fst snd]. ring. Qed.

Lemma onLine_to (s : LineSegment.t) : onLine (lineOf s) (LineSegment.to s).
Proof. unfold onLine, lineOf. cbn [fst snd]. ring. Qed.

Lemma onLine_left_of_right (w : R) (s : LineSegment.t) (p : vec3) :
  onLine (lineOf (rightSegment w s)) p ->
  onLine (lineOf (leftSegment w s)) (v3.add p (v3.multiply (offsetDir s) (w * 2))).
Proof.
  unfold onLine, lineOf, leftSegment, rightSegment.
  rewrite !to_new, !from_new. cbn [fst snd].
  destruct (offsetDir s) as [nx ny nz], p as [px py pz].
  destruct (LineSegment.from s) as [fx fy fz], (LineSegment.to s) as [tx ty tz].
  vec_simpl. intros H. rewrite <- H. ring.
Qed.

Lemma onLine_right_of_left (w : R) (s : LineSegment.t) (p : vec3) :
  onLine (lineOf (leftSegment w s)) p ->
  onLine (lineOf (rightSegment w s))
         (v3.add p (v3.multiply (v3.neg (offsetDir s)) (w * 2))).
Proof.
  unfold onLine, lineOf, leftSegment, rightSegment.
  rewrite !to_new, !from_new. cbn [fst snd].
  destruct (offsetDir s) as [nx ny nz], p as [px py pz].
  destruct (LineSegment.from s) as [fx fy fz], (LineSegment.to s) as [tx ty tz].
  vec_simpl. intros H. rewrite <- H. ring.
Qed.

Lemma onLine_resolveJoint (w : R) (s s' : LineSegment.t) (ls rs li ri : vec3) :
  onLine (lineOf (leftSegment w s)) li ->
  onLine (lineOf (leftSegment w s')) li ->
  onLine (lineOf (rightSegment w s)) ri ->
  onLine (lineOf (rightSegment w s')) ri ->
  onLine (lineOf (leftSegment w s)) (leftEnd (resolveJoint w s s' ls rs li ri)) /\
  onLine (lineOf (rightSegment w s)) (rightEnd (resolveJoint w s s' ls rs li ri)) /\
  onLine (lineOf (leftSegment w s'))
         (nextLeftStart (resolveJoint w s s' ls rs li ri)) /\
  onLine (lineOf (rightSegment w s'))
         (nextRightStart (resolveJoint w s s' ls rs li ri)).
Proof.
  intros H1 H2 H3 H4. unfold resolveJoint.
  change (v3.norm (v3.cross zAxis (LineSegment.direction s))) with (offsetDir s).
  change (v3.norm (v3.cross zAxis (LineSegment.direction s'))) with (offsetDir s').
  destruct (ltb _ _); cbn [leftEnd rightEnd nextLeftStart nextRightStart];
    repeat split;
    assumption || (now apply onLine_left_of_right)
    || (now apply onLine_right_of_left).
Qed.

(** X8. When the intersection helper returns a point that lies on
    both of its lines, the corners 0 and 3 of rectangle [i] lie on the
    line of the left offset segment [i] and the corners 1 and 2 on the
    line of the right one: the long sides of the rectangle run along
    the offset lines of its segment. *)
Theorem rectangle_corners_on_offset_lines
    (intersect2D : line -> line -> result vec3)
    (polygon : list vec3) (w : R) (g : geometry)
    (i : nat) (r : quad) (s : LineSegment.t) :
  (forall (a b : line) (p : vec3),
      intersect2D a b = Ok p -> onLine a p /\ onLine b p) ->
  build intersect2D polygon w = Ok g ->
  nth_error (rectangles g) i = Some r ->
  nth_error (centerSegments polygon) i = Some s ->
  onLine (lineOf (leftSegment w s)) (q0 r) /\
  onLine (lineOf (leftSegment w s)) (q3 r) /\
  onLine (lineOf (rightSegment w s)) (q1 r) /\
  onLine (lineOf (rightSegment w s)) (q2 r).
Proof.
  intros Hix Hb Hr Hs.
  destruct (rectangle_anatomy _ _ _ _ _ _ Hb Hr) as (s1 & Hs1 & Hstart & Hend).
  rewrite (nth_error_unique _ _ _ _ Hs1 Hs) in *. clear Hs1 s1.
  assert (Hs01 : onLine (lineOf (leftSegment w s)) (q0 r) /\
                 onLine (lineOf (rightSegment w s)) (q1 r)).
  { destruct Hstart
      as [(_ & -> & ->)|(k & sp & ls & rs & l3 & r3 & _ & _ & Hl & Hr3 & -> & ->)].
    - split; apply onLine_from.
    - destruct (Hix _ _ _ Hl) as [Hl1 Hl2]. destruct (Hix _ _ _ Hr3) as [Hr1 Hr2].
      apply (onLine_resolveJoint w sp s ls rs (set2 l3 0) (set2 r3 0));
        now apply onLine_set2. }
  assert (Hs23 : onLine (lineOf (leftSegment w s)) (q3 r) /\
                 onLine (lineOf (rightSegment w s)) (q2 r)).
  { destruct Hend as [(_ & -> & ->)|(sn & l3 & r3 & _ & Hl & Hr3 & -> & ->)].
    - split; apply onLine_to.
    - destruct (Hix _ _ _ Hl) as [Hl1 Hl2]. destruct (Hix _ _ _ Hr3) as [Hr1 Hr2].
      destruct (onLine_resolveJoint w s sn (q0 r) (q1 r) (set2 l3 0) (set2 r3 0))
        as (H1 & H2 & _); try (now apply onLine_set2).
      now split. }
  tauto.
Qed.

Lemma Spec_intersect2D_onLine (epsilon : R) (a b : line) (p : vec3) :
  0 <= epsilon ->
  Spec.intersect2D epsilon a b = Ok p -> onLine a p /\ onLine b p.
Proof.
  intros He. destruct a as [p1 p2], b as [p3 p4].
  unfold Spec.intersect2D.
  destruct (leb _ _) eqn:E; [discriminate|].
  apply leb_false_iff in E. intros H. injection H as <-.
  assert (Hd : Spec.det2D (p1, p2) (p3, p4) <> 0).
  { intros E0. rewrite E0, Rabs_R0 in E. lra. }
  unfold Spec.det2D in *. unfold onLine. cbn [fst snd c0 c1].
  destruct p1 as [x1 y1 z1], p2 as [x2 y2 z2], p3 as [x3 y3 z3], p4 as [x4 y4 z4].
  cbn [c0 c1 c2] in *. split; field; exact Hd.
Qed.

(** ** The arc of a cap *)

(** A turn about the pivot keeps the distance to the pivot and puts
    the point at the height of the pivot. *)
Lemma radialPoint_radius (cs : triangle) (i : nat) :
  let p := v3.sub (cs2 cs) (cs1 cs) in
  let q := v3.sub (radialPoint cs i) (cs1 cs) in
  c0 q * c0 q + c1 q * c1 q = c0 p * c0 p + c1 p * c1 p /\ c2 q = 0.
Proof.
  cbv zeta. unfold radialPoint.
  set (theta := rotationAngle cs * (INR i + 1)).
  pose proof (sin2_cos2 theta) as H. unfold Rsqr in H.
  destruct (cs1 cs) as [px py pz], (cs2 cs) as [x y z].
  vec_simpl. split; [|ring].
  replace ((x - px) * (x - px) + (y - py) * (y - py))
    with (((x - px) * (x - px) + (y - py) * (y - py))
          * (sin theta * sin theta + cos theta * cos theta))
    by (rewrite H; ring).
  ring.
Qed.

Lemma capSupport_arms (w : R) (s s' : LineSegment.t) (ls rs li ri : vec3) :
  let cs := capSupport (resolveJoint w s s' ls rs li ri) in
  cs1 cs = LineSegment.to s /\
  ((v3.sub (cs0 cs) (cs1 cs) = v3.multiply (v3.neg (offsetDir s')) w /\
    v3.sub (cs2 cs) (cs1 cs) = v3.multiply (v3.neg (offsetDir s)) w) \/
   (v3.sub (cs0 cs) (cs1 cs) = v3.multiply (offsetDir s) w /\
    v3.sub (cs2 cs) (cs1 cs) = v3.multiply (offsetDir s') w)).
Proof.
  cbv zeta. unfold resolveJoint.
  change (v3.norm (v3.cross zAxis (LineSegment.direction s))) with (offsetDir s).
  change (v3.norm (v3.cross zAxis (LineSegment.direction s'))) with (offsetDir s').
  destruct (offsetDir s) as [nx ny nz], (offsetDir s') as [mx my mz].
  destruct (LineSegment.to s) as [tx ty tz].
  destruct (ltb _ _); cbn [capSupport]; (split; [reflexivity|]);
    [left|right]; split; vec_eq.
Qed.

Lemma arm_length (nx ny w : R) (sign : bool) :
  nx * nx + ny * ny = 1 -> 0 <= w ->
  let n := if sign then v3.neg (V3 nx ny 0) else V3 nx ny 0 in
  c0 (v3.multiply n w) * c0 (v3.multiply n w)
  + c1 (v3.multiply n w) * c1 (v3.multiply n w) = w * w /\
  c2 (v3.multiply n w) = 0.
Proof.
  intros H Hw. destruct sign; vec_simpl; split; try ring.
  - replace (- nx * w * (- nx * w) + - ny * w * (- ny * w))
      with ((nx * nx + ny * ny) * (w * w)) by ring.
    rewrite H. ring.
  - replace (nx * w * (nx * w) + ny * w * (ny * w))
      with ((nx * nx + ny * ny) * (w * w)) by ring.
    rewrite H. ring.
Qed.

(** X9. Every point of the arc of cap [i] (its two ends and the
    points between them) lies at the distance [width] from the pivot,
    which is point [i + 1] of the path, and at the height of the
    pivot. *)
Theorem cap_arc_radius (intersect2D : line -> line -> result vec3)
    (polygon : list vec3) (w : R) (g : geometry)
    (i : nat) (cs : triangle) (p : vec3) :
  Forall nondegenerate (centerSegments polygon) -> 0 < w ->
  build intersect2D polygon w = Ok g ->
  nth_error (capSupports g) i = Some cs ->
  In p (radialPoints cs) ->
  nth_error polygon (S i) = Some (cs1 cs) /\
  v3.length (v3.sub p (cs1 cs)) = w /\
  c2 p = c2 (cs1 cs).
Proof.
  intros Hnd Hw Hb Hcs Hp.
  destruct (build_rectangles_length _ _ _ _ Hb) as (_ & _ & Hlen & _).
  assert (Hi : (S i < List.length (centerSegments polygon))%nat).
  { assert (i < List.length (capSupports g))%nat
      by (apply nth_error_Some; now rewrite Hcs).
    lia. }
  destruct (joint_anatomy _ _ _ _ i Hb Hi)
    as (s & s' & l3 & r3 & r1 & r1' & Hs & Hs' & _ & _ & _ & _
        & _ & _ & _ & _ & _ & _ & Hc).
  rewrite Hcs in Hc. injection Hc as Hc. cbv zeta in Hc.
  assert (Hns : nondegenerate s)
    by (eapply Forall_forall; [exact Hnd|eapply nth_error_In; exact Hs]).
  assert (Hns' : nondegenerate s')
    by (eapply Forall_forall; [exact Hnd|eapply nth_error_In; exact Hs']).
  destruct (centerSegments_nth_error _ _ _ Hs) as (a & b & _ & Hpb & Es).
  destruct (centerSegments_nth_error _ _ _ Hs') as (b' & c & _ & _ & Es').
  subst s s'.
  destruct (offsetDir_unit a b Hns) as (nx & ny & Hn & Hunit & _).
  destruct (offsetDir_unit b' c Hns') as (mx & my & Hm & Hunit' & _).
  destruct (capSupport_arms w (LineSegment.new a b) (LineSegment.new b' c)
              (q0 r1) (q1 r1) (set2 l3 0) (set2 r3 0)) as (Hpivot & Harms).
  rewrite <- Hc in Hpivot, Harms. rewrite to_new in Hpivot. rewrite Hn, Hm in Harms.
  split; [now rewrite Hpivot|].
  assert (H0 : let q := v3.sub (cs0 cs) (cs1 cs) in
               c0 q * c0 q + c1 q * c1 q = w * w /\ c2 q = 0).
  { cbv zeta. destruct Harms as [[-> _]|[-> _]].
    - apply (arm_length mx my w true); [assumption|lra].
    - apply (arm_length nx ny w false); [assumption|lra]. }
  assert (H2 : let q := v3.sub (cs2 cs) (cs1 cs) in
               c0 q * c0 q + c1 q * c1 q = w * w /\ c2 q = 0).
  { cbv zeta. destruct Harms as [[_ ->]|[_ ->]].
    - apply (arm_length nx ny w true); [assumption|lra].
    - apply (arm_length mx my w false); [assumption|lra]. }
  assert (Hq : let q := v3.sub p (cs1 cs) in
               c0 q * c0 q + c1 q * c1 q = w * w /\ c2 q = 0).
  { rewrite radialPoints_eq in Hp. destruct Hp as [<-|Hp]; [exact H2|].
    apply in_app_or in Hp. destruct Hp as [Hp|[<-|[]]]; [|exact H0].
    apply in_map_iff in Hp. destruct Hp as (k & <- & _).
    destruct (radialPoint_radius cs k) as [Hr Hz]. cbv zeta in *.
    split; [|exact Hz]. rewrite Hr. apply H2. }
  cbv zeta in Hq. destruct Hq as [Hq Hz].
  split.
  - apply length_of; [lra|]. rewrite Hz. lra.
  - unfold v3.sub in Hz. cbn [c2] in Hz. lra.
Qed.

(** ** The slices of a fan *)

Lemma sweep_per_slice (cs : triangle) :
  (1 <= numSlices cs)%Z ->
  10 <= (endAngle cs - startAngle cs) / IZR (numSlices cs) < 20.
Proof.
  intros Hn.
  set (x := endAngle cs - startAngle cs).
  pose proof (Zfloor_bound (x / sliceAngle)) as [H1 H2].
  fold x in H1, H2. change (Zfloor (x / sliceAngle)) with (numSlices cs) in H1, H2.
  unfold sliceAngle in H1, H2.
  assert (Hn' : 1 <= IZR (numSlices cs)) by (apply IZR_le in Hn; exact Hn).
  set (n := IZR (numSlices cs)) in *.
  split.
  - apply Rmult_le_reg_r with n; [lra|].
    replace (x / n * n) with x by (field; lra). lra.
  - apply Rmult_lt_reg_r with n; [lra|].
    replace (x / n * n) with x by (field; lra). lra.
Qed.

(** X10. When a fan has at least one slice, a slice spans at least 10
    and less than 20 degrees: the rotation angle lies between PI/18
    (included) and PI/9 (excluded), and its sine is positive. *)
Theorem fan_slice_size (cs : triangle) :
  (1 <= numSlices cs)%Z ->
  10 <= (endAngle cs - startAngle cs) / IZR (numSlices cs) < 20 /\
  PI / 18 <= rotationAngle cs < PI / 9 /\
  0 < sin (rotationAngle cs).
Proof.
  intros Hn. pose proof (sweep_per_slice cs Hn) as Hq.
  split; [exact Hq|].
  pose proof PI_RGT_0 as Hpi.
  assert (Hr : PI / 18 <= rotationAngle cs < PI / 9).
  { unfold rotationAngle. split.
    - replace (PI / 18) with (10 / 180 * PI) by field.
      apply Rmult_le_compat_r; lra.
    - replace (PI / 9) with (20 / 180 * PI) by field.
      apply Rmult_lt_compat_r; lra. }
  split; [exact Hr|]. apply sin_gt_0; lra.
Qed.

(** X11. When the end angle is less than 20 degrees above the start
    angle, and so whenever it is below it (an arc that crosses the
    direction of the positive X axis), the loop of the intermediate
    points does not run: the radial points are the two ends of the arc,
    and the fan is the one triangle of the two ends and the pivot. *)
Theorem narrow_sweep_single_triangle (cs : triangle) (m : mesh) :
  endAngle cs - startAngle cs < 20 ->
  radialPoints cs = [cs2 cs; cs0 cs] /\
  capStep m cs
  = {| triangles := triangles m ++ [(cs2 cs, cs0 cs, cs1 cs)];
       outline := outline m ++ [cs2 cs; cs0 cs] |}.
Proof.
  intros H.
  assert (Hn : (numSlices cs <= 1)%Z).
  { unfold numSlices, sliceAngle.
    pose proof (Zfloor_bound ((endAngle cs - startAngle cs) / 10)) as [H1 _].
    assert (IZR (Zfloor ((endAngle cs - startAngle cs) / 10)) < 2) by lra.
    apply lt_IZR in H0. lia. }
  assert (Hr : radialPoints cs = [cs2 cs; cs0 cs]).
  { rewrite radialPoints_eq. unfold numIntermediatePoints.
    replace (Z.to_nat (numSlices cs - 1)) with 0%nat by lia. reflexivity. }
  split; [exact Hr|].
  unfold capStep. rewrite Hr. cbn [fanLoop]. unfold push.
  now rewrite <- app_assoc.
Qed.

(** ** The outcomes of a call *)

Lemma build_short (intersect2D : line -> line -> result vec3)
    (polygon : list vec3) (w : R) :
  (List.length polygon < 2)%nat -> build intersect2D polygon w = Err TypeError.
Proof.
  intros H. destruct polygon as [|a [|b polygon]];
    [reflexivity|reflexivity|cbn [List.length] in H; lia].
Qed.

Lemma build_long (intersect2D : line -> line -> result vec3)
    (polygon : list vec3) (w : R) :
  (2 <= List.length polygon)%nat ->
  build intersect2D polygon w
  = match intersections intersect2D
            (map (leftSegment w) (centerSegments polygon))
            (map (rightSegment w) (centerSegments polygon)) with
    | Ok ix => build intersect2D polygon w
    | Err e => Err e
    end /\
  (forall ix,
      intersections intersect2D
        (map (leftSegment w) (centerSegments polygon))
        (map (rightSegment w) (centerSegments polygon)) = Ok ix ->
      exists g, build intersect2D polygon w = Ok g /\ rectangles g <> []).
Proof.
  intros H. destruct polygon as [|a [|b polygon]];
    try (cbn [List.length] in H; lia).
  unfold build. rewrite centerSegments_cons.
  destruct (intersections intersect2D _ _) as [ix|e] eqn:E.
  - split; [reflexivity|]. intros ix' Hix. injection Hix as <-.
    cbn [bind map]. eexists. split; [reflexivity|].
    cbn [rectangles]. unfold push.
    destruct (map leftEnd _); destruct (map rightEnd _); discriminate.
  - split; [reflexivity|]. discriminate.
Qed.

(** X12. The outcomes of a call that passes the validation: when the
    filter returns fewer than two points the call fails with a
    [TypeError] (line 91 reads a property of [undefined]); when an
    intersection fails the call fails with the error of the helper;
    otherwise the call returns a mesh (the faces and the outline never
    fail once the geometry is built). *)
Theorem ribbon_outcomes
    (removeParallel2D : list vec3 -> list vec3)
    (intersect2D : line -> line -> result vec3)
    (polygon : list vec3) (options : options) :
  (2 <= List.length polygon)%nat -> 0 < width options ->
  let filtered := removeParallel2D polygon in
  let lefts := map (leftSegment (width options)) (centerSegments filtered) in
  let rights := map (rightSegment (width options)) (centerSegments filtered) in
  ((List.length filtered < 2)%nat ->
   ribbon removeParallel2D intersect2D polygon options = Err TypeError) /\
  (forall e : error,
      intersections intersect2D lefts rights = Err e ->
      ribbon removeParallel2D intersect2D polygon options = Err e) /\
  (forall ix : list vec3 * list vec3,
      (2 <= List.length filtered)%nat ->
      intersections intersect2D lefts rights = Ok ix ->
      exists m : mesh,
        ribbon removeParallel2D intersect2D polygon options = Ok m).
Proof.
  intros Hlen Hw filtered lefts rights.
  destruct options as [w flag]. cbn [width] in *.
  rewrite (ribbon_valid _ _ _ _ _ Hlen Hw). fold filtered.
  split; [|split].
  - intros H. now rewrite build_short.
  - intros e He.
    destruct (Nat.ltb_spec (List.length filtered) 2) as [Hs|Hl].
    + exfalso. unfold lefts, rights in He.
      destruct filtered as [|a [|b f]]; try discriminate.
      cbn [List.length] in Hs. lia.
    + destruct (build_long intersect2D filtered w Hl) as [Hb _].
      rewrite Hb. fold lefts rights. now rewrite He.
  - intros ix Hl Hix.
    destruct (build_long intersect2D filtered w Hl) as [_ Hb].
    destruct (Hb ix Hix) as (g & Hg & Hne). rewrite Hg. cbn [bind].
    now apply tessellate_Ok.
Qed.

(** ** The outline *)

Lemma fanLoop_cons (pivot a b : vec3) (ps : list vec3) :
  fanLoop pivot (a :: b :: ps) emptyMesh
  = {| triangles := (a, b, pivot) :: triangles (fanLoop pivot (b :: ps) emptyMesh);
       outline := a :: b :: outline (fanLoop pivot (b :: ps) emptyMesh) |}.
Proof.
  change (fanLoop pivot (a :: b :: ps) emptyMesh)
    with (fanLoop pivot (b :: ps)
            {| triangles := push [] (a, b, pivot);
               outline := push (push [] a) b |}).
  rewrite fanLoop_app. reflexivity.
Qed.

Lemma fanLoop_outline_length (pivot : vec3) (ps : list vec3) :
  List.length (outline (fanLoop pivot ps emptyMesh))
  = (2 * (List.length ps - 1))%nat.
Proof.
  induction ps as [|a ps IH]; [reflexivity|].
  destruct ps as [|b ps]; [reflexivity|].
  rewrite fanLoop_cons. cbn [outline List.length] in *. lia.
Qed.

Lemma fanLoop_outline_vertices (pivot : vec3) (ps : list vec3) (p : vec3) :
  In p (outline (fanLoop pivot ps emptyMesh)) ->
  exists t : triangle,
    In t (triangles (fanLoop pivot ps emptyMesh)) /\ In p (vertices t).
Proof.
  induction ps as [|a ps IH]; [intros []|].
  destruct ps as [|b ps]; [intros []|].
  rewrite fanLoop_cons. cbn [outline triangles].
  intros [<-|[<-|H]].
  - exists (a, b, pivot). split; [now left|now left].
  - exists (a, b, pivot). split; [now left|right; now left].
  - destruct (IH H) as (t & Ht & Hp). exists t. split; [now right|exact Hp].
Qed.

Lemma outline_mk (t : list triangle) (o : list vec3) :
  outline {| triangles := t; outline := o |} = o.
Proof. reflexivity. Qed.

Lemma triangles_mk (t : list triangle) (o : list vec3) :
  triangles {| triangles := t; outline := o |} = t.
Proof. reflexivity. Qed.

(** X13. The outline holds four points for each rectangle, four more
    when the ribbon is open, two for each stub and two for each
    triangle of a fan; with twice the number of stubs added it is twice
    the number of triangles, plus the four points of an open ribbon;
    and its length is even. *)
Theorem outline_counts
    (removeParallel2D : list vec3 -> list vec3)
    (intersect2D : line -> line -> result vec3)
    (polygon : list vec3) (options : options) (m : mesh) :
  ribbon removeParallel2D intersect2D polygon options = Ok m ->
  exists g : geometry,
    build intersect2D (removeParallel2D polygon) (width options) = Ok g /\
    List.length (outline m)
    = (4 * List.length (rectangles g)
       + (if closed options then 0 else 4)
       + 2 * List.length (stubs g)
       + 2 * list_sum (map (fun cs => List.length (radialPoints cs) - 1)
                           (capSupports g)))%nat /\
    (List.length (outline m) + 2 * List.length (stubs g)
     = 2 * List.length (triangles m) + (if closed options then 0 else 4))%nat /\
    Nat.Even (List.length (outline m)).
Proof.
  unfold ribbon. intros H.
  destruct (validate polygon options) as [[]|]; [|discriminate].
  cbn [bind] in H.
  destruct (build intersect2D (removeParallel2D polygon) (width options))
    as [g|] eqn:Eg; [|discriminate].
  cbn [bind] in H. exists g. split; [reflexivity|].
  pose proof (tessellate_triangles_length _ _ _ H) as Ht.
  rewrite tessellate_eq in H.
  destruct (build_rectangles_length _ _ _ _ Eg) as (Hlen & _ & _ & Hpos).
  assert (Hex : exists extra,
             closing (closed options) (rectangles g) = Ok extra /\
             List.length extra = if closed options then 0%nat else 4%nat).
  { unfold closing. destruct (closed options); [now exists []|].
    destruct (rectangles g) as [|first rs]; [cbn [List.length] in Hlen; lia|].
    eexists. split; reflexivity. }
  destruct Hex as (extra & Hc & Hextra). rewrite Hc in H. cbn [bind] in H.
  injection H as Hm.
  assert (Ho : List.length (outline m)
               = (4 * List.length (rectangles g)
                  + (if closed options then 0 else 4)
                  + 2 * List.length (stubs g)
                  + 2 * list_sum (map (fun cs => List.length (radialPoints cs) - 1)
                                      (capSupports g)))%nat).
  { rewrite <- Hm, outline_mk, !length_app, Hextra.
    rewrite (flat_map_constant_length (c := 4%nat)) by reflexivity.
    rewrite (flat_map_constant_length (c := 2%nat)) by reflexivity.
    rewrite length_flat_map.
    rewrite (map_ext (fun c => List.length (outline (capStep emptyMesh c)))
                     (fun cs => (2 * (List.length (radialPoints cs) - 1))%nat))
      by (intros cs; unfold capStep; apply fanLoop_outline_length).
    assert (Hsum : forall l : list triangle,
               list_sum (map (fun cs => (2 * (List.length (radialPoints cs) - 1))%nat) l)
               = (2 * list_sum (map (fun cs => (List.length (radialPoints cs) - 1)%nat) l))%nat).
    { induction l as [|c l IH]; [reflexivity|].
      cbn [map]. unfold list_sum in *. cbn [fold_right]. rewrite IH. lia. }
    rewrite Hsum. unfold quad. lia. }
  split; [exact Ho|]. rewrite Ho, Ht.
  split; [unfold quad; lia|].
  exists (2 * List.length (rectangles g)
          + (if closed options then 0 else 2)
          + List.length (stubs g)
          + list_sum (map (fun cs => List.length (radialPoints cs) - 1)
                          (capSupports g)))%nat.
  destruct (closed options); unfold quad; lia.
Qed.

(** X14. Every point of the outline is a vertex of a triangle of the
    mesh. *)
Theorem outline_points_are_vertices
    (removeParallel2D : list vec3 -> list vec3)
    (intersect2D : line -> line -> result vec3)
    (polygon : list vec3) (options : options) (m : mesh) (p : vec3) :
  ribbon removeParallel2D intersect2D polygon options = Ok m ->
  In p (outline m) ->
  exists t : triangle, In t (triangles m) /\ In p (vertices t).
Proof.
  unfold ribbon. intros H Hp.
  destruct (validate polygon options) as [[]|]; [|discriminate].
  cbn [bind] in H.
  destruct (build intersect2D (removeParallel2D polygon) (width options))
    as [g|] eqn:Eg; [|discriminate].
  cbn [bind] in H. rewrite tessellate_eq in H.
  destruct (closing (closed options) (rectangles g)) as [extra|] eqn:Ec;
    [|discriminate].
  cbn [bind] in H. injection H as <-. rewrite outline_mk in Hp.
  rewrite triangles_mk.
  assert (Hrect : forall r, In r (rectangles g) ->
            In p [q0 r; q1 r; q2 r; q3 r] ->
            exists t,
              In t (flat_map (fun r => triangles (rectangleStep emptyMesh r))
                             (rectangles g)) /\ In p (vertices t)).
  { intros r Hr Hin.
    destruct Hin as [<-|[<-|[<-|[<-|[]]]]].
    - exists (q0 r, q1 r, q2 r). split; [|now left].
      apply in_flat_map. exists r. split; [exact Hr|now left].
    - exists (q0 r, q1 r, q2 r). split; [|right; now left].
      apply in_flat_map. exists r. split; [exact Hr|now left].
    - exists (q0 r, q1 r, q2 r). split; [|right; right; now left].
      apply in_flat_map. exists r. split; [exact Hr|now left].
    - exists (q0 r, q2 r, q3 r). split; [|right; right; now left].
      apply in_flat_map. exists r. split; [exact Hr|right; now left]. }
  apply in_app_or in Hp. destruct Hp as [Hp|Hp].
  - apply in_app_or in Hp. destruct Hp as [Hp|Hp].
    + apply in_flat_map in Hp. destruct Hp as (r & Hr & Hin).
      destruct (Hrect r Hr) as (t & Ht & Hv).
      { cbn in Hin. cbn. tauto. }
      exists t. split; [apply in_or_app; now left|exact Hv].
    + unfold closing in Ec. destruct (closed options).
      { injection Ec as <-. destruct Hp. }
      destruct (rectangles g) as [|first rs] eqn:Er; [discriminate|].
      injection Ec as <-.
      assert (Hfirst : In first (first :: rs)) by now left.
      assert (Hfinal : In (last (first :: rs) first) (first :: rs)).
      { destruct (exists_last (l := first :: rs)) as (l' & x & E);
          [discriminate|].
        rewrite E, last_last. apply in_or_app. right. now left. }
      destruct Hp as [<-|[<-|[<-|[<-|[]]]]].
      * destruct (Hrect first Hfirst) as (t & Ht & Hv); [now left|].
        exists t. split; [apply in_or_app; now left|exact Hv].
      * destruct (Hrect first Hfirst) as (t & Ht & Hv); [right; now left|].
        exists t. split; [apply in_or_app; now left|exact Hv].
      * destruct (Hrect _ Hfinal) as (t & Ht & Hv); [right; right; now left|].
        exists t. split; [apply in_or_app; now left|exact Hv].
      * destruct (Hrect _ Hfinal) as (t & Ht & Hv);
          [right; right; right; now left|].
        exists t. split; [apply in_or_app; now left|exact Hv].
  - apply in_app_or in Hp. destruct Hp as [Hp|Hp].
    + apply in_flat_map in Hp. destruct Hp as (c & Hc & Hin).
      exists (q0 c, q2 c, q3 c). split.
      * apply in_or_app. right. apply in_or_app. left.
        apply in_flat_map. exists c. split; [exact Hc|right; now left].
      * destruct Hin as [<-|[<-|[]]]; [right; now left|right; right; now left].
    + apply in_flat_map in Hp. destruct Hp as (cs & Hcs & Hin).
      unfold capStep in Hin.
      destruct (fanLoop_outline_vertices _ _ _ Hin) as (t & Ht & Hv).
      exists t. split; [|exact Hv].
      apply in_or_app. right. apply in_or_app. right.
      apply in_flat_map. exists cs. split; [exact Hcs|exact Ht].
Qed.

(** ** The arc joins the outer offset segments *)

Lemma capSupport_ends (w : R) (a b c : vec3) (ls rs li ri : vec3) :
  let s := LineSegment.new a b in
  let s' := LineSegment.new b c in
  let j := resolveJoint w s s' ls rs li ri in
  (leftIsShorter j = true /\
   leftEnd j = nextLeftStart j /\
   cs2 (capSupport j) = LineSegment.to (rightSegment w s) /\
   cs0 (capSupport j) = LineSegment.from (rightSegment w s')) \/
  (leftIsShorter j = false /\
   rightEnd j = nextRightStart j /\
   cs0 (capSupport j) = LineSegment.to (leftSegment w s) /\
   cs2 (capSupport j) = LineSegment.from (leftSegment w s')).
Proof.
  cbv zeta. unfold resolveJoint, leftSegment, rightSegment.
  rewrite !to_new, !from_new.
  change (v3.norm (v3.cross zAxis (LineSegment.direction (LineSegment.new a b))))
    with (offsetDir (LineSegment.new a b)).
  change (v3.norm (v3.cross zAxis (LineSegment.direction (LineSegment.new b c))))
    with (offsetDir (LineSegment.new b c)).
  destruct (offsetDir (LineSegment.new a b)) as [nx ny nz].
  destruct (offsetDir (LineSegment.new b c)) as [mx my mz].
  destruct b as [bx by' bz].
  destruct (ltb _ _); [left|right];
    cbn [leftIsShorter leftEnd rightEnd nextLeftStart nextRightStart capSupport];
    unfold cs0, cs2; cbn [fst snd];
    (split; [reflexivity|]); (split; [reflexivity|]); split; vec_eq.
Qed.

(** X15. The arc of a cap joins the two offset segments on the outside
    of the joint: when the rectangles [i] and [i + 1] share their left
    corner, the arc of cap [i] starts at the to-point of the right
    offset segment [i] and ends at the from-point of the right offset
    segment [i + 1]; when they share their right corner, it starts at
    the from-point of the left offset segment [i + 1] and ends at the
    to-point of the left offset segment [i]. *)
Theorem cap_joins_outer_offsets (intersect2D : line -> line -> result vec3)
    (polygon : list vec3) (w : R) (g : geometry)
    (i : nat) (cs : triangle) :
  build intersect2D polygon w = Ok g ->
  nth_error (capSupports g) i = Some cs ->
  exists (r r' : quad) (la lb ra rb : LineSegment.t),
    nth_error (rectangles g) i = Some r /\
    nth_error (rectangles g) (S i) = Some r' /\
    nth_error (leftSegments g) i = Some la /\
    nth_error (leftSegments g) (S i) = Some lb /\
    nth_error (rightSegments g) i = Some ra /\
    nth_error (rightSegments g) (S i) = Some rb /\
    ((q3 r = q0 r' /\
      cs2 cs = LineSegment.to ra /\ cs0 cs = LineSegment.from rb) \/
     (q2 r = q1 r' /\
      cs0 cs = LineSegment.to la /\ cs2 cs = LineSegment.from lb)).
Proof.
  intros Hb Hcs.
  destruct (build_rectangles_length _ _ _ _ Hb) as (_ & _ & Hlen & _).
  assert (Hi : (S i < List.length (centerSegments polygon))%nat).
  { assert (i < List.length (capSupports g))%nat
      by (apply nth_error_Some; now rewrite Hcs).
    lia. }
  destruct (joint_anatomy _ _ _ _ i Hb Hi)
    as (s & s' & l3 & r3 & r & r' & Hs & Hs' & _ & _ & Hr & Hr'
        & H3 & H2 & H0 & H1 & _ & _ & Hc).
  rewrite Hcs in Hc. injection Hc as Hc.
  destruct (build_Ok _ _ _ _ Hb)
    as (s0 & rest & js & Hseg & _ & Hlseg & Hrseg & _).
  destruct (centerSegments_nth_error _ _ _ Hs) as (a & b & _ & Hpb & Es).
  destruct (centerSegments_nth_error _ _ _ Hs') as (b' & c & Hpb' & _ & Es').
  rewrite Hpb in Hpb'. injection Hpb' as <-.
  exists r, r', (leftSegment w s), (leftSegment w s'),
    (rightSegment w s), (rightSegment w s').
  split; [exact Hr|]. split; [exact Hr'|].
  rewrite Hlseg, Hrseg, <- Hseg, !nth_error_map, Hs, Hs'.
  do 4 (split; [reflexivity|]).
  rewrite H3, H2, H0, H1, Hc. subst s s'.
  destruct (capSupport_ends w a b c (q0 r) (q1 r) (set2 l3 0) (set2 r3 0))
    as [(_ & E & E2 & E0)|(_ & E & E0 & E2)]; cbv zeta in *.
  - left. now repeat split.
  - right. now repeat split.
Qed.

(** ** The last slice of a fan *)

Lemma hypot_pos (x y : R) : x <> 0 \/ y <> 0 -> 0 < x * x + y * y.
Proof.
  pose proof (Rle_0_sqr x) as Hx. pose proof (Rle_0_sqr y) as Hy.
  unfold Rsqr in *. intros [H|H].
  - pose proof (Rsqr_pos_lt x H) as H'. unfold Rsqr in H'. lra.
  - pose proof (Rsqr_pos_lt y H) as H'. unfold Rsqr in H'. lra.
Qed.

Lemma atan_polar (x y : R) :
  x <> 0 ->
  Rabs x = sqrt (x * x + y * y) * cos (atan (y / x)) /\
  Rabs x * (y / x) = sqrt (x * x + y * y) * sin (atan (y / x)).
Proof.
  intros Hx. set (u := y / x).
  rewrite cos_atan, sin_atan. unfold Rsqr.
  assert (Hq : 0 < 1 + u * u) by nra.
  assert (Hs : 0 < sqrt (1 + u * u)) by now apply sqrt_lt_R0.
  assert (E : sqrt (x * x + y * y) = Rabs x * sqrt (1 + u * u)).
  { rewrite <- sqrt_Rsqr_abs, <- sqrt_mult; [|apply Rle_0_sqr|lra].
    f_equal. unfold u, Rsqr. field. exact Hx. }
  rewrite E. split; field; lra.
Qed.

(** [atan2 y x] is the polar angle of the point [(x, y)]. *)
Lemma atan2_polar (x y : R) :
  x <> 0 \/ y <> 0 ->
  x = sqrt (x * x + y * y) * cos (atan2 y x) /\
  y = sqrt (x * x + y * y) * sin (atan2 y x).
Proof.
  intros H. unfold atan2.
  destruct (Rlt_dec 0 x) as [Hx|Hx].
  - destruct (atan_polar x y ltac:(lra)) as [Hc Hs].
    rewrite Rabs_pos_eq in Hc, Hs by lra.
    split; [exact Hc|]. rewrite <- Hs. field. lra.
  - destruct (Rlt_dec x 0) as [Hx'|Hx'].
    + destruct (atan_polar x y ltac:(lra)) as [Hc Hs].
      rewrite Rabs_left in Hc, Hs by lra.
      assert (Hy : y = - (- x * (y / x))) by (field; lra).
      destruct (Rle_dec 0 y).
      * rewrite neg_cos, neg_sin. split; [lra|]. rewrite Hy at 1. rewrite Hs. ring.
      * rewrite cos_minus, sin_minus, cos_PI, sin_PI.
        split; [lra|]. rewrite Hy at 1. rewrite Hs. ring.
    + assert (E : x = 0) by lra. subst x.
      replace (0 * 0 + y * y) with (Rsqr y) by (unfold Rsqr; ring).
      rewrite sqrt_Rsqr_abs.
      destruct (Rlt_dec 0 y) as [Hy|Hy].
      * rewrite cos_PI2, sin_PI2, Rabs_pos_eq by lra. split; ring.
      * destruct (Rlt_dec y 0) as [Hy'|Hy']; [|lra].
        rewrite cos_neg, sin_neg, cos_PI2, sin_PI2, Rabs_left by lra.
        split; ring.
Qed.

Lemma cos_turn (a : R) : cos (a + 2 * PI) = cos a.
Proof. rewrite cos_plus, cos_2PI, sin_2PI. ring. Qed.

Lemma sin_turn (a : R) : sin (a + 2 * PI) = sin a.
Proof. rewrite sin_plus, cos_2PI, sin_2PI. ring. Qed.

(** The start and end angles, back in radians, are polar angles of
    the two arms of the cap support. *)
Lemma startAngle_polar (cs : triangle) :
  let p := v3.sub (cs2 cs) (cs1 cs) in
  c0 p <> 0 \/ c1 p <> 0 ->
  c0 p = sqrt (c0 p * c0 p + c1 p * c1 p) * cos (startAngle cs / 180 * PI) /\
  c1 p = sqrt (c0 p * c0 p + c1 p * c1 p) * sin (startAngle cs / 180 * PI).
Proof.
  cbv zeta. unfold v3.sub. cbn [c0 c1]. intros H.
  pose proof PI_RGT_0 as Hpi.
  unfold startAngle.
  set (x := c0 (cs2 cs) - c0 (cs1 cs)) in *.
  set (y := c1 (cs2 cs) - c1 (cs1 cs)) in *.
  destruct (atan2_polar x y H) as [Hc Hs].
  destruct (ltb _ _).
  - replace ((atan2 y x / PI * 180 + 360) / 180 * PI) with (atan2 y x + 2 * PI)
      by (field; lra).
    now rewrite cos_turn, sin_turn.
  - replace (atan2 y x / PI * 180 / 180 * PI) with (atan2 y x) by (field; lra).
    now split.
Qed.

Lemma endAngle_polar (cs : triangle) :
  let q := v3.sub (cs0 cs) (cs1 cs) in
  c0 q <> 0 \/ c1 q <> 0 ->
  c0 q = sqrt (c0 q * c0 q + c1 q * c1 q) * cos (endAngle cs / 180 * PI) /\
  c1 q = sqrt (c0 q * c0 q + c1 q * c1 q) * sin (endAngle cs / 180 * PI).
Proof.
  cbv zeta. unfold v3.sub. cbn [c0 c1]. intros H.
  pose proof PI_RGT_0 as Hpi.
  unfold endAngle.
  set (x := c0 (cs0 cs) - c0 (cs1 cs)) in *.
  set (y := c1 (cs0 cs) - c1 (cs1 cs)) in *.
  destruct (atan2_polar x y H) as [Hc Hs].
  set (e := if ltb (atan2 y x / PI * 180) 0
            then atan2 y x / PI * 180 + 360 else atan2 y x / PI * 180).
  assert (He : cos (e / 180 * PI) = cos (atan2 y x) /\
               sin (e / 180 * PI) = sin (atan2 y x)).
  { unfold e. destruct (ltb _ _).
    - replace ((atan2 y x / PI * 180 + 360) / 180 * PI) with (atan2 y x + 2 * PI)
        by (field; lra).
      now rewrite cos_turn, sin_turn.
    - replace (atan2 y x / PI * 180 / 180 * PI) with (atan2 y x) by (field; lra).
      now split. }
  destruct He as [Hec Hes].
  destruct (eqb e 0) eqn:E.
  - apply eqb_true_iff in E. rewrite E in Hec, Hes.
    replace (0 / 180 * PI) with 0 in Hec, Hes by (field; lra).
    replace (360 / 180 * PI) with (0 + 2 * PI) by (field; lra).
    rewrite cos_turn, sin_turn, Hec, Hes. now split.
  - rewrite Hec, Hes. now split.
Qed.

(** The start arm turned by the whole sweep is the end arm, when the
    two arms have the same length. *)
Lemma arms_rotation (cs : triangle) :
  let p := v3.sub (cs2 cs) (cs1 cs) in
  let q := v3.sub (cs0 cs) (cs1 cs) in
  let sweep := endAngle cs / 180 * PI - startAngle cs / 180 * PI in
  c0 p <> 0 \/ c1 p <> 0 ->
  c0 q * c0 q + c1 q * c1 q = c0 p * c0 p + c1 p * c1 p ->
  c0 p * cos sweep - c1 p * sin sweep = c0 q /\
  c1 p * cos sweep + c0 p * sin sweep = c1 q.
Proof.
  cbv zeta. intros Hp Hlen.
  assert (Hq : c0 (v3.sub (cs0 cs) (cs1 cs)) <> 0 \/
               c1 (v3.sub (cs0 cs) (cs1 cs)) <> 0).
  { apply hypot_pos in Hp. rewrite <- Hlen in Hp.
    destruct (Req_dec_T (c0 (v3.sub (cs0 cs) (cs1 cs))) 0) as [E0|E0]; [|now left].
    destruct (Req_dec_T (c1 (v3.sub (cs0 cs) (cs1 cs))) 0) as [E1|E1]; [|now right].
    rewrite E0, E1 in Hp. lra. }
  destruct (startAngle_polar cs Hp) as [Hpc Hps].
  destruct (endAngle_polar cs Hq) as [Hqc Hqs].
  rewrite Hlen in Hqc, Hqs.
  set (r := sqrt (c0 (v3.sub (cs2 cs) (cs1 cs)) * c0 (v3.sub (cs2 cs) (cs1 cs))
                  + c1 (v3.sub (cs2 cs) (cs1 cs)) * c1 (v3.sub (cs2 cs) (cs1 cs))))
    in *.
  set (S := startAngle cs / 180 * PI) in *.
  set (E := endAngle cs / 180 * PI) in *.
  set (px := c0 (v3.sub (cs2 cs) (cs1 cs))) in *.
  set (py := c1 (v3.sub (cs2 cs) (cs1 cs))) in *.
  pose proof (sin2_cos2 S) as H1. unfold Rsqr in H1.
  split.
  - rewrite Hqc, Hpc, Hps. rewrite cos_minus, sin_minus.
    replace (r * cos S * (cos E * cos S + sin E * sin S)
             - r * sin S * (sin E * cos S - cos E * sin S))
      with (r * cos E * (sin S * sin S + cos S * cos S)) by ring.
    rewrite H1. ring.
  - rewrite Hqs, Hpc, Hps. rewrite cos_minus, sin_minus.
    replace (r * sin S * (cos E * cos S + sin E * sin S)
             + r * cos S * (sin E * cos S - cos E * sin S))
      with (r * sin E * (sin S * sin S + cos S * cos S)) by ring.
    rewrite H1. ring.
Qed.

(** All the slices together make the sweep. *)
Lemma slices_sweep (cs : triangle) :
  (1 <= numSlices cs)%Z ->
  rotationAngle cs * (INR (Z.to_nat (numIntermediatePoints cs)) + 1)
  = endAngle cs / 180 * PI - startAngle cs / 180 * PI.
Proof.
  intros Hn. unfold numIntermediatePoints.
  replace (INR (Z.to_nat (numSlices cs - 1)) + 1) with (IZR (numSlices cs)).
  - unfold rotationAngle. field. apply not_0_IZR. lia.
  - rewrite INR_IZR_INZ, Z2Nat.id by lia. rewrite minus_IZR. ring.
Qed.

(** X16. The slices of a fan fill its sweep: when the fan has at
    least one slice and the two arms of the cap support have the same
    length in the XY plane, the point that the loop of the intermediate
    points would push if it ran once more is the end of the arc (at the
    height of the pivot). So the last triangle of a fan spans the same
    angle as the others. *)
Theorem fan_reaches_end (cs : triangle) :
  let p := v3.sub (cs2 cs) (cs1 cs) in
  let q := v3.sub (cs0 cs) (cs1 cs) in
  (1 <= numSlices cs)%Z ->
  c0 p <> 0 \/ c1 p <> 0 ->
  c0 q * c0 q + c1 q * c1 q = c0 p * c0 p + c1 p * c1 p ->
  radialPoint cs (Z.to_nat (numIntermediatePoints cs))
  = V3 (c0 (cs0 cs)) (c1 (cs0 cs)) (c2 (cs1 cs)).
Proof.
  cbv zeta. intros Hn Hp Hlen.
  destruct (arms_rotation cs Hp Hlen) as [Hx Hy]. cbv zeta in Hx, Hy.
  unfold radialPoint. rewrite (slices_sweep cs Hn), Hx, Hy.
  unfold v3.add, v3.sub. cbn [c0 c1 c2].
  apply V3_eq; ring.
Qed.

(** ** Maps of points that the builder commutes with *)

Lemma zipRectangles_map (f : vec3 -> vec3) (a b c d : list vec3) :
  zipRectangles (map f a) (map f b) (map f c) (map f d)
  = map (mapQuad f) (zipRectangles a b c d).
Proof.
  revert b c d. induction a as [|x a IH]; intros [|y b] [|z c] [|u d];
    try reflexivity.
  cbn [map zipRectangles]. now rewrite IH.
Qed.

Lemma flat_map_map_list {A A' B B' : Type} (k : A -> list B) (k' : A' -> list B')
    (g : A -> A') (h : B -> B') (l : list A) :
  (forall x, k' (g x) = map h (k x)) ->
  flat_map k' (map g l) = map h (flat_map k l).
Proof.
  intros H. induction l as [|x l IH]; [reflexivity|].
  cbn [map flat_map]. now rewrite map_app, IH, H.
Qed.

Lemma fanLoop_map (f : vec3 -> vec3) (pivot : vec3) (ps : list vec3) :
  fanLoop (f pivot) (map f ps) emptyMesh = mapMesh f (fanLoop pivot ps emptyMesh).
Proof.
  induction ps as [|a ps IH]; [reflexivity|].
  destruct ps as [|b ps]; [reflexivity|].
  cbn [map] in *. rewrite !fanLoop_cons, IH. reflexivity.
Qed.

Lemma closing_map (f : vec3 -> vec3) (flag : bool) (rs : list quad) :
  closing flag (map (mapQuad f) rs) = mapResult (map f) (closing flag rs).
Proof.
  unfold closing. destruct flag; [reflexivity|].
  destruct rs as [|first rs]; [reflexivity|].
  change (map (mapQuad f) (first :: rs))
    with (mapQuad f first :: map (mapQuad f) rs) at 1.
  cbv iota beta.
  change (mapQuad f first :: map (mapQuad f) rs)
    with (map (mapQuad f) (first :: rs)).
  rewrite last_map_default. reflexivity.
Qed.

Lemma planar_neg_offsetDir (s : LineSegment.t) : planar (v3.neg (offsetDir s)).
Proof. apply planar_neg, planar_offsetDir. Qed.

Lemma offset_heights (w : R) (s : LineSegment.t) :
  c2 (LineSegment.from (leftSegment w s))
  = c2 (LineSegment.from (rightSegment w s)).
Proof.
  unfold leftSegment, rightSegment. rewrite !from_new.
  pose proof (planar_offsetDir s) as H. unfold planar in H.
  unfold v3.add, v3.multiply. cbn [c2]. rewrite H. ring.
Qed.

Section PointMap.

Variable removeParallel2D : list vec3 -> list vec3.
Variable intersect2D : line -> line -> result vec3.

(** The map of points, the map of segments that goes with it, and
    the segments on which the two agree. *)
Variable f : vec3 -> vec3.
Variable fs : LineSegment.t -> LineSegment.t.
Variable good : LineSegment.t -> Prop.

Hypothesis fs_new :
  forall a b : vec3, fs (LineSegment.new a b) = LineSegment.new (f a) (f b).
Hypothesis fs_from :
  forall s : LineSegment.t, LineSegment.from (fs s) = f (LineSegment.from s).
Hypothesis fs_to :
  forall s : LineSegment.t, LineSegment.to (fs s) = f (LineSegment.to s).
Hypothesis fs_offsetDir :
  forall s : LineSegment.t, good s -> offsetDir (fs s) = offsetDir s.
Hypothesis f_add :
  forall (p n : vec3) (k : R),
    planar n -> f (v3.add p (v3.multiply n k)) = v3.add (f p) (v3.multiply n k).
Hypothesis f_add_r :
  forall k p : vec3, planar k -> f (v3.add k p) = v3.add k (f p).
Hypothesis f_diff :
  forall a b : vec3,
    c0 (f a) - c0 (f b) = c0 a - c0 b /\ c1 (f a) - c1 (f b) = c1 a - c1 b.
Hypothesis f_shorter :
  forall li ri ls rs : vec3,
    planar li -> planar ri -> c2 ls = c2 rs ->
    ltb (v3.length (v3.sub (f li) (f ls))) (v3.length (v3.sub (f ri) (f rs)))
    = ltb (v3.length (v3.sub li ls)) (v3.length (v3.sub ri rs)).
Hypothesis intersect2D_map :
  forall a b : line,
    mapResult (fun p => set2 p 0) (intersect2D (mapLine f a) (mapLine f b))
    = mapResult (fun p => f (set2 p 0)) (intersect2D a b).
Hypothesis removeParallel2D_map :
  forall polygon : list vec3,
    removeParallel2D (map f polygon) = map f (removeParallel2D polygon).

Lemma centerSegments_map (polygon : list vec3) :
  centerSegments (map f polygon) = map fs (centerSegments polygon).
Proof.
  induction polygon as [|a polygon IH]; [reflexivity|].
  destruct polygon as [|b polygon]; [reflexivity|].
  cbn [map] in *. rewrite !centerSegments_cons. cbn [map].
  now rewrite IH, fs_new.
Qed.

Lemma leftSegment_map (w : R) (s : LineSegment.t) :
  good s -> leftSegment w (fs s) = fs (leftSegment w s).
Proof.
  intros Hs. unfold leftSegment.
  rewrite (fs_offsetDir s Hs), fs_from, fs_to, fs_new.
  now rewrite !f_add by apply planar_offsetDir.
Qed.

Lemma rightSegment_map (w : R) (s : LineSegment.t) :
  good s -> rightSegment w (fs s) = fs (rightSegment w s).
Proof.
  intros Hs. unfold rightSegment.
  rewrite (fs_offsetDir s Hs), fs_from, fs_to, fs_new.
  now rewrite !f_add by apply planar_offsetDir.
Qed.

Lemma lineOf_map (s : LineSegment.t) : lineOf (fs s) = mapLine f (lineOf s).
Proof. unfold lineOf, mapLine. cbn [fst snd]. now rewrite fs_from, fs_to. Qed.

Lemma intersect2D_map_cases (a b : line) :
  match intersect2D a b with
  | Ok p =>
      exists p', intersect2D (mapLine f a) (mapLine f b) = Ok p' /\
                 set2 p' 0 = f (set2 p 0)
  | Err e => intersect2D (mapLine f a) (mapLine f b) = Err e
  end.
Proof.
  pose proof (intersect2D_map a b) as H.
  destruct (intersect2D a b) as [p|e];
    destruct (intersect2D (mapLine f a) (mapLine f b)) as [p'|e'];
    cbn [mapResult] in H; try discriminate.
  - injection H as H. now exists p'.
  - exact H.
Qed.

Lemma intersections_map (lefts rights : list LineSegment.t) :
  intersections intersect2D (map fs lefts) (map fs rights)
  = mapResult (fun ix => (map f (fst ix), map f (snd ix)))
              (intersections intersect2D lefts rights).
Proof.
  revert rights. induction lefts as [|la lefts IH]; intros rights; [reflexivity|].
  destruct lefts as [|lb lefts]; [reflexivity|].
  destruct rights as [|ra [|rb rights]]; try reflexivity.
  cbn [map] in *. rewrite !intersections_cons, !lineOf_map.
  pose proof (intersect2D_map_cases (lineOf la) (lineOf lb)) as Hl.
  pose proof (intersect2D_map_cases (lineOf ra) (lineOf rb)) as Hr.
  destruct (intersect2D (lineOf la) (lineOf lb)) as [l3|].
  2:{ now rewrite Hl. }
  destruct Hl as (l3' & -> & El). cbn [bind].
  destruct (intersect2D (lineOf ra) (lineOf rb)) as [r3|].
  2:{ now rewrite Hr. }
  destruct Hr as (r3' & -> & Er). cbn [bind].
  specialize (IH (rb :: rights)). cbn [map] in IH. rewrite IH.
  destruct (intersections intersect2D (lb :: lefts) (rb :: rights)) as [rest|];
    [|reflexivity].
  cbn [mapResult bind fst snd map]. now rewrite El, Er.
Qed.

Lemma resolveJoint_map (w : R) (s s' : LineSegment.t) (ls rs li ri : vec3) :
  good s -> good s' -> planar li -> planar ri -> c2 ls = c2 rs ->
  resolveJoint w (fs s) (fs s') (f ls) (f rs) (f li) (f ri)
  = mapJoint f (resolveJoint w s s' ls rs li ri).
Proof.
  intros Hs Hs' Hli Hri Hz. unfold resolveJoint.
  rewrite (f_shorter li ri ls rs Hli Hri Hz).
  change (v3.norm (v3.cross zAxis (LineSegment.direction (fs s))))
    with (offsetDir (fs s)).
  change (v3.norm (v3.cross zAxis (LineSegment.direction (fs s'))))
    with (offsetDir (fs s')).
  change (v3.norm (v3.cross zAxis (LineSegment.direction s))) with (offsetDir s).
  change (v3.norm (v3.cross zAxis (LineSegment.direction s'))) with (offsetDir s').
  rewrite (fs_offsetDir s Hs), (fs_offsetDir s' Hs'), fs_to.
  pose proof (planar_offsetDir s) as H1. pose proof (planar_offsetDir s') as H2.
  pose proof (planar_neg_offsetDir s) as H3.
  pose proof (planar_neg_offsetDir s') as H4.
  destruct (ltb _ _); unfold mapJoint, mapQuad, mapTriangle,
    q0, q1, q2, q3, cs0, cs1, cs2;
    cbn [leftIsShorter insideIntersection leftEnd rightEnd nextLeftStart
         nextRightStart stubA stubB capSupport fst snd];
    now rewrite !f_add by assumption.
Qed.

Lemma nextStart_heights (w : R) (s s' : LineSegment.t) (ls rs li ri : vec3) :
  planar li -> planar ri ->
  c2 (nextLeftStart (resolveJoint w s s' ls rs li ri))
  = c2 (nextRightStart (resolveJoint w s s' ls rs li ri)).
Proof.
  intros Hli Hri.
  destruct (planar_joint_corners w s s' ls rs li ri Hli Hri)
    as (_ & _ & _ & H1 & H2).
  unfold planar in H1, H2. now rewrite H1, H2.
Qed.

Lemma joints_map (w : R) (segments : list LineSegment.t) :
  forall (lefts rights : list vec3) (ls rs : vec3),
    Forall good segments -> Forall planar lefts -> Forall planar rights ->
    c2 ls = c2 rs ->
    joints w (map fs segments) (map f lefts) (map f rights) (f ls) (f rs)
    = map (mapJoint f) (joints w segments lefts rights ls rs).
Proof.
  induction segments as [|s segments IH]; intros lefts rights ls rs Hg Hl Hr Hz;
    [reflexivity|].
  destruct segments as [|s' segments]; [reflexivity|].
  destruct lefts as [|li lefts]; [reflexivity|].
  destruct rights as [|ri rights]; [reflexivity|].
  inversion Hg as [|? ? Hs Hg']; subst. inversion Hg' as [|? ? Hs' _]; subst.
  inversion Hl as [|? ? Hli Hl']; subst. inversion Hr as [|? ? Hri Hr']; subst.
  cbn [map] in *. rewrite !joints_cons. cbn [map].
  rewrite (resolveJoint_map w s s' ls rs li ri Hs Hs' Hli Hri Hz). f_equal.
  change (nextLeftStart (mapJoint f ?j)) with (f (nextLeftStart j)).
  change (nextRightStart (mapJoint f ?j)) with (f (nextRightStart j)).
  apply (IH lefts rights); try assumption.
  now apply nextStart_heights.
Qed.

Lemma last_to_map (l : list LineSegment.t) (d : LineSegment.t) :
  LineSegment.to (last (map fs l) (fs d)) = f (LineSegment.to (last l d)).
Proof. now rewrite last_map_default, fs_to. Qed.

Lemma build_map (polygon : list vec3) (w : R) :
  Forall good (centerSegments polygon) ->
  build intersect2D (map f polygon) w
  = mapResult (mapGeometry fs f) (build intersect2D polygon w).
Proof.
  intros Hg. unfold build. rewrite centerSegments_map.
  assert (Hl : map (leftSegment w) (map fs (centerSegments polygon))
               = map fs (map (leftSegment w) (centerSegments polygon))).
  { rewrite !map_map. apply map_ext_in. intros s Hs.
    apply leftSegment_map. eapply Forall_forall; eassumption. }
  assert (Hr : map (rightSegment w) (map fs (centerSegments polygon))
               = map fs (map (rightSegment w) (centerSegments polygon))).
  { rewrite !map_map. apply map_ext_in. intros s Hs.
    apply rightSegment_map. eapply Forall_forall; eassumption. }
  rewrite Hl, Hr. clear Hl Hr.
  rewrite intersections_map.
  destruct (intersections intersect2D _ _) as [ix|] eqn:Eix; [|reflexivity].
  destruct (planar_intersections _ _ _ _ Eix) as [Hpl Hpr].
  cbn [mapResult bind fst snd].
  destruct (centerSegments polygon) as [|s0 rest]; [reflexivity|].
  cbn [map]. cbn [mapResult]. f_equal.
  rewrite !fs_from.
  pose proof (joints_map w (s0 :: rest) (fst ix) (snd ix) _ _ Hg Hpl Hpr
                (offset_heights w s0)) as Hj.
  cbn [map] in Hj. rewrite Hj. clear Hj.
  set (js := joints w (s0 :: rest) (fst ix) (snd ix)
               (LineSegment.from (leftSegment w s0))
               (LineSegment.from (rightSegment w s0))).
  unfold mapGeometry.
  cbn [leftSegments rightSegments leftIntersections rightIntersections
       leftStarts rightStarts leftEnds rightEnds rectangles stubs capSupports].
  assert (Hle : push (map leftEnd (map (mapJoint f) js))
                  (LineSegment.to
                     (last (fs (leftSegment w s0)
                            :: map fs (map (leftSegment w) rest))
                        (fs (leftSegment w s0))))
                = map f
                    (push (map leftEnd js)
                       (LineSegment.to
                          (last (leftSegment w s0 :: map (leftSegment w) rest)
                             (leftSegment w s0))))).
  { unfold push. rewrite map_app. f_equal; [now rewrite !map_map|].
    cbn [map]. f_equal.
    apply (last_to_map (leftSegment w s0 :: map (leftSegment w) rest)). }
  assert (Hre : push (map rightEnd (map (mapJoint f) js))
                  (LineSegment.to
                     (last (fs (rightSegment w s0)
                            :: map fs (map (rightSegment w) rest))
                        (fs (rightSegment w s0))))
                = map f
                    (push (map rightEnd js)
                       (LineSegment.to
                          (last (rightSegment w s0 :: map (rightSegment w) rest)
                             (rightSegment w s0))))).
  { unfold push. rewrite map_app. f_equal; [now rewrite !map_map|].
    cbn [map]. f_equal.
    apply (last_to_map (rightSegment w s0 :: map (rightSegment w) rest)). }
  rewrite Hle, Hre.
  assert (Hls : f (LineSegment.from (leftSegment w s0))
                :: map nextLeftStart (map (mapJoint f) js)
                = map f (LineSegment.from (leftSegment w s0) :: map nextLeftStart js))
    by (cbn [map]; now rewrite !map_map).
  assert (Hrs : f (LineSegment.from (rightSegment w s0))
                :: map nextRightStart (map (mapJoint f) js)
                = map f (LineSegment.from (rightSegment w s0)
                         :: map nextRightStart js))
    by (cbn [map]; now rewrite !map_map).
  rewrite Hls, Hrs, zipRectangles_map.
  f_equal.
  - apply (flat_map_map_list (fun j => [stubA j; stubB j])
             (fun j => [stubA j; stubB j]) (mapJoint f) (mapQuad f)).
    reflexivity.
  - now rewrite !map_map.
Qed.

Lemma angles_map (cs : triangle) :
  startAngle (mapTriangle f cs) = startAngle cs /\
  endAngle (mapTriangle f cs) = endAngle cs.
Proof.
  unfold startAngle, endAngle, mapTriangle, cs0, cs1, cs2. cbn [fst snd].
  destruct (f_diff (snd cs) (snd (fst cs))) as [-> ->].
  destruct (f_diff (fst (fst cs)) (snd (fst cs))) as [-> ->].
  now split.
Qed.

Lemma numSlices_map (cs : triangle) :
  numSlices (mapTriangle f cs) = numSlices cs.
Proof.
  unfold numSlices. destruct (angles_map cs) as [-> ->]. reflexivity.
Qed.

Lemma radialPoint_map (cs : triangle) (i : nat) :
  radialPoint (mapTriangle f cs) i = f (radialPoint cs i).
Proof.
  unfold radialPoint, rotationAngle.
  rewrite numSlices_map. destruct (angles_map cs) as [-> ->].
  change (cs2 (mapTriangle f cs)) with (f (cs2 cs)).
  change (cs1 (mapTriangle f cs)) with (f (cs1 cs)).
  cbv zeta. unfold v3.sub at 1 2 3 4. cbn [c0 c1].
  destruct (f_diff (cs2 cs) (cs1 cs)) as [-> ->].
  symmetry. apply f_add_r. reflexivity.
Qed.

Lemma radialPoints_map (cs : triangle) :
  radialPoints (mapTriangle f cs) = map f (radialPoints cs).
Proof.
  rewrite !radialPoints_eq. unfold numIntermediatePoints.
  rewrite numSlices_map. cbn [map]. rewrite map_app, map_map. cbn [map].
  f_equal. f_equal. apply map_ext. intros i. apply radialPoint_map.
Qed.

Lemma capStep_map (cs : triangle) :
  capStep emptyMesh (mapTriangle f cs) = mapMesh f (capStep emptyMesh cs).
Proof.
  unfold capStep. rewrite radialPoints_map. apply fanLoop_map.
Qed.

Lemma tessellate_map (flag : bool) (g : geometry) :
  tessellate flag (mapGeometry fs f g)
  = mapResult (mapMesh f) (tessellate flag g).
Proof.
  rewrite !tessellate_eq. unfold mapGeometry.
  cbn [rectangles stubs capSupports]. rewrite closing_map.
  destruct (closing flag (rectangles g)) as [extra|]; [|reflexivity].
  cbn [mapResult bind]. unfold mapMesh. rewrite outline_mk, triangles_mk.
  rewrite !map_app. f_equal. f_equal.
  - f_equal; [|f_equal].
    + now apply flat_map_map_list.
    + now apply flat_map_map_list.
    + apply flat_map_map_list. intros cs. now rewrite capStep_map.
  - f_equal; [f_equal|f_equal].
    + now apply flat_map_map_list.
    + now apply flat_map_map_list.
    + apply flat_map_map_list. intros cs. now rewrite capStep_map.
Qed.

(** The builder commutes with the map of points. *)
Lemma ribbon_map (polygon : list vec3) (options : options) :
  Forall good (centerSegments (removeParallel2D polygon)) ->
  ribbon removeParallel2D intersect2D (map f polygon) options
  = mapResult (mapMesh f) (ribbon removeParallel2D intersect2D polygon options).
Proof.
  intros Hg. unfold ribbon, validate. rewrite length_map.
  destruct (List.length polygon <? 2)%nat; [reflexivity|].
  destruct (ltb 0 (width options)); [|reflexivity].
  cbn [bind]. rewrite removeParallel2D_map, (build_map _ _ Hg).
  destruct (build intersect2D (removeParallel2D polygon) (width options))
    as [g|]; [|reflexivity].
  cbn [mapResult bind]. apply tessellate_map.
Qed.

End PointMap.

(** ** Translations in the XY plane *)

Lemma sub_shifted (t p q : vec3) : v3.sub (shift t p) (shift t q) = v3.sub p q.
Proof. apply sub_shift. Qed.

Lemma shift_add (t p k : vec3) : shift t (v3.add p k) = v3.add (shift t p) k.
Proof. unfold shift. destruct t, p, k. vec_eq. Qed.

Lemma shift_add_r (t k p : vec3) : shift t (v3.add k p) = v3.add k (shift t p).
Proof. unfold shift. destruct t, p, k. vec_eq. Qed.

Lemma set2_shift (t p : vec3) : c2 t = 0 -> set2 (shift t p) 0 = shift t (set2 p 0).
Proof.
  unfold shift. destruct t as [tx ty tz], p as [x y z]. cbn [c2]. intros ->.
  vec_eq.
Qed.

Lemma new_shift (t a b : vec3) :
  shiftSegment t (LineSegment.new a b) = LineSegment.new (shift t a) (shift t b).
Proof. unfold LineSegment.new, shiftSegment. now rewrite sub_shifted. Qed.

Lemma diff_shift (x y k : R) : x + k - (y + k) = x - y.
Proof. ring. Qed.

(** X17. The builder commutes with the translations of the XY plane:
    when the two helpers do, the call on a path moved by [t] (a vector
    with no z part) fails as the call on the path does, or returns the
    mesh of the path moved by [t]. *)
Theorem ribbon_translation
    (removeParallel2D : list vec3 -> list vec3)
    (intersect2D : line -> line -> result vec3)
    (t : vec3) (polygon : list vec3) (options : options) :
  c2 t = 0 ->
  (forall a b : line,
      intersect2D (mapLine (shift t) a) (mapLine (shift t) b)
      = mapResult (shift t) (intersect2D a b)) ->
  (forall polygon : list vec3,
      removeParallel2D (map (shift t) polygon)
      = map (shift t) (removeParallel2D polygon)) ->
  ribbon removeParallel2D intersect2D (map (shift t) polygon) options
  = mapResult (mapMesh (shift t))
      (ribbon removeParallel2D intersect2D polygon options).
Proof.
  intros Ht Hi Hr.
  apply (ribbon_map removeParallel2D intersect2D (shift t) (shiftSegment t)
           (fun _ => True)).
  - apply new_shift.
  - reflexivity.
  - reflexivity.
  - reflexivity.
  - intros p n k _. apply shift_add.
  - intros k p _. apply shift_add_r.
  - intros a b. unfold shift, v3.add. cbn [c0 c1]. now rewrite !diff_shift.
  - intros li ri ls rs _ _ _. now rewrite !sub_shifted.
  - intros a b. rewrite Hi. destruct (intersect2D a b) as [p|]; [|reflexivity].
    cbn [mapResult]. now rewrite set2_shift.
  - exact Hr.
  - apply Forall_forall. intros s _. exact I.
Qed.

(** ** Heights do not matter *)

Lemma ltb_iff (x y x' y' : R) : (x < y <-> x' < y') -> ltb x y = ltb x' y'.
Proof.
  intros H. unfold ltb.
  destruct (Rlt_dec x y) as [H1|H1], (Rlt_dec x' y') as [H2|H2];
    try reflexivity; tauto.
Qed.

Lemma sqrt_lt_shift (a b c : R) :
  0 <= a -> 0 <= b -> 0 <= c -> (sqrt a < sqrt b <-> sqrt (a + c) < sqrt (b + c)).
Proof.
  intros Ha Hb Hc. split; intros H.
  - apply sqrt_lt_1_alt. apply sqrt_lt_0_alt in H. lra.
  - apply sqrt_lt_1_alt. apply sqrt_lt_0_alt in H. lra.
Qed.

Lemma sum_squares_nonneg (x y : R) : 0 <= x * x + y * y.
Proof.
  pose proof (Rle_0_sqr x) as Hx. pose proof (Rle_0_sqr y) as Hy.
  unfold Rsqr in *. lra.
Qed.

Lemma flat_shorter (li ri ls rs : vec3) :
  planar li -> planar ri -> c2 ls = c2 rs ->
  ltb (v3.length (v3.sub (flat li) (flat ls)))
      (v3.length (v3.sub (flat ri) (flat rs)))
  = ltb (v3.length (v3.sub li ls)) (v3.length (v3.sub ri rs)).
Proof.
  unfold planar, flat, set2, v3.length, v3.sub.
  destruct li as [lx ly lz], ri as [rx ry rz], ls as [ax ay az], rs as [bx by' bz].
  cbn [c0 c1 c2]. intros -> -> ->.
  apply ltb_iff.
  replace ((lx - ax) * (lx - ax) + (ly - ay) * (ly - ay) + (0 - 0) * (0 - 0))
    with ((lx - ax) * (lx - ax) + (ly - ay) * (ly - ay)) by ring.
  replace ((rx - bx) * (rx - bx) + (ry - by') * (ry - by') + (0 - 0) * (0 - 0))
    with ((rx - bx) * (rx - bx) + (ry - by') * (ry - by')) by ring.
  apply sqrt_lt_shift; try apply sum_squares_nonneg.
  pose proof (Rle_0_sqr (0 - bz)) as H. unfold Rsqr in H. exact H.
Qed.

Lemma flat_offsetDir (s : LineSegment.t) :
  pathSegment s -> offsetDir (flatSegment s) = offsetDir s.
Proof.
  intros [Hs Hn]. rewrite Hs in Hn |- *. unfold flatSegment.
  rewrite from_new, to_new.
  set (a := LineSegment.from s) in *. set (b := LineSegment.to s) in *.
  apply nondegenerate_new in Hn.
  set (m := sqrt ((c0 b - c0 a) * (c0 b - c0 a) + (c1 b - c1 a) * (c1 b - c1 a))).
  assert (Hm : 0 < m) by (apply sqrt_lt_R0; exact Hn).
  assert (Hmm : m * m = (c0 b - c0 a) * (c0 b - c0 a)
                        + (c1 b - c1 a) * (c1 b - c1 a))
    by (apply sqrt_sqrt; lra).
  rewrite (offsetDir_new a b m Hm Hmm).
  apply (offsetDir_new (flat a) (flat b) m Hm Hmm).
Qed.

Lemma flat_add (p n : vec3) (k : R) :
  planar n -> flat (v3.add p (v3.multiply n k)) = v3.add (flat p) (v3.multiply n k).
Proof.
  unfold planar, flat. destruct p as [x y z], n as [nx ny nz]. cbn [c2].
  intros ->. vec_eq.
Qed.

Lemma flat_add_r (k p : vec3) :
  planar k -> flat (v3.add k p) = v3.add k (flat p).
Proof.
  unfold planar, flat. destruct p as [x y z], k as [kx ky kz]. cbn [c2].
  intros ->. vec_eq.
Qed.

Lemma centerSegments_pathSegment (polygon : list vec3) :
  Forall nondegenerate (centerSegments polygon) ->
  Forall pathSegment (centerSegments polygon).
Proof.
  induction polygon as [|a polygon IH]; [constructor|].
  destruct polygon as [|b polygon]; [constructor|].
  rewrite centerSegments_cons. intros H. inversion H as [|? ? H1 H2]; subst.
  constructor; [now split|now apply IH].
Qed.

(** X18. The heights of the path do not change where the ribbon lies
    in the XY plane. When the two helpers look at X and Y only and no
    segment of the filtered path is vertical, the call on the path
    projected on the plane [z = 0] fails as the call on the path does,
    or returns the projection of the mesh of the path. *)
Theorem ribbon_ignores_heights
    (removeParallel2D : list vec3 -> list vec3)
    (intersect2D : line -> line -> result vec3)
    (polygon : list vec3) (options : options) :
  (forall a b : line,
      mapResult flat (intersect2D (mapLine flat a) (mapLine flat b))
      = mapResult flat (intersect2D a b)) ->
  (forall polygon : list vec3,
      removeParallel2D (map flat polygon) = map flat (removeParallel2D polygon)) ->
  Forall nondegenerate (centerSegments (removeParallel2D polygon)) ->
  ribbon removeParallel2D intersect2D (map flat polygon) options
  = mapResult (mapMesh flat)
      (ribbon removeParallel2D intersect2D polygon options).
Proof.
  intros Hi Hr Hn.
  apply (ribbon_map removeParallel2D intersect2D flat flatSegment pathSegment).
  - intros a b. unfold flatSegment. now rewrite from_new, to_new.
  - intros s. unfold flatSegment. apply from_new.
  - intros s. unfold flatSegment. apply to_new.
  - apply flat_offsetDir.
  - apply flat_add.
  - apply flat_add_r.
  - intros a b. now split.
  - apply flat_shorter.
  - intros a b. specialize (Hi a b).
    destruct (intersect2D (mapLine flat a) (mapLine flat b));
      destruct (intersect2D a b); exact Hi.
  - exact Hr.
  - now apply centerSegments_pathSegment.
Qed.

(** ** The helpers of the specification and the maps of points *)

Lemma Spec_removeParallel2D_map (tolerance : R) (f : vec3 -> vec3)
    (polygon : list vec3) :
  (forall a b c : vec3,
      Spec.collinear2D tolerance (f a) (f b) (f c)
      = Spec.collinear2D tolerance a b c) ->
  Spec.removeParallel2D tolerance (map f polygon)
  = map f (Spec.removeParallel2D tolerance polygon).
Proof.
  intros Hc.
  assert (Hi : forall rest previous,
             Spec.removeInterior tolerance (f previous) (map f rest)
             = map f (Spec.removeInterior tolerance previous rest)).
  { induction rest as [|current rest IH]; intros previous; [reflexivity|].
    destruct rest as [|next rest]; [reflexivity|].
    cbn [map] in *.
    change (Spec.removeInterior tolerance (f previous)
              (f current :: f next :: map f rest))
      with (if Spec.collinear2D tolerance (f previous) (f current) (f next)
            then Spec.removeInterior tolerance (f current) (f next :: map f rest)
            else f current
                 :: Spec.removeInterior tolerance (f current)
                      (f next :: map f rest)).
    change (Spec.removeInterior tolerance previous (current :: next :: rest))
      with (if Spec.collinear2D tolerance previous current next
            then Spec.removeInterior tolerance current (next :: rest)
            else current :: Spec.removeInterior tolerance current (next :: rest)).
    rewrite Hc, IH. now destruct (Spec.collinear2D tolerance previous current next). }
  destruct polygon as [|first rest]; [reflexivity|].
  cbn [map Spec.removeParallel2D]. now rewrite Hi.
Qed.

Lemma Spec_collinear2D_shift (tolerance : R) (t a b c : vec3) :
  Spec.collinear2D tolerance (shift t a) (shift t b) (shift t c)
  = Spec.collinear2D tolerance a b c.
Proof.
  unfold Spec.collinear2D, shift, v3.add. cbn [c0 c1]. now rewrite !diff_shift.
Qed.

Lemma Spec_intersect2D_shift (epsilon : R) (t : vec3) (a b : line) :
  0 <= epsilon -> c2 t = 0 ->
  Spec.intersect2D epsilon (mapLine (shift t) a) (mapLine (shift t) b)
  = mapResult (shift t) (Spec.intersect2D epsilon a b).
Proof.
  intros He Ht. destruct a as [p1 p2], b as [p3 p4].
  unfold mapLine. cbn [fst snd]. unfold Spec.intersect2D.
  assert (Hd : Spec.det2D (shift t p1, shift t p2) (shift t p3, shift t p4)
               = Spec.det2D (p1, p2) (p3, p4)).
  { unfold Spec.det2D, shift, v3.add. cbn [c0 c1]. ring. }
  rewrite Hd.
  destruct (leb _ _) eqn:E; [reflexivity|].
  apply leb_false_iff in E.
  assert (Hne : Spec.det2D (p1, p2) (p3, p4) <> 0).
  { intros E0. rewrite E0, Rabs_R0 in E. lra. }
  cbn [mapResult]. f_equal. unfold Spec.det2D in *. unfold shift.
  destruct t as [tx ty tz], p1 as [x1 y1 z1], p2 as [x2 y2 z2],
    p3 as [x3 y3 z3], p4 as [x4 y4 z4].
  cbn [c0 c1 c2] in *. subst tz. unfold v3.add. cbn [c0 c1 c2].
  apply V3_eq; [field; exact Hne|field; exact Hne|ring].
Qed.

Lemma Spec_intersect2D_flat (epsilon : R) (a b : line) :
  Spec.intersect2D epsilon (mapLine flat a) (mapLine flat b)
  = Spec.intersect2D epsilon a b.
Proof. destruct a as [p1 p2], b as [p3 p4]. reflexivity. Qed.

(** ** The winding of the faces *)

Lemma joints_In (w : R) (segments : list LineSegment.t)
    (lefts rights : list vec3) (ls rs : vec3) (j : joint) :
  In j (joints w segments lefts rights ls rs) ->
  exists (s s' : LineSegment.t) (ls' rs' li ri : vec3),
    j = resolveJoint w s s' ls' rs' li ri.
Proof.
  intros H. apply In_nth_error in H. destruct H as [i Hi].
  destruct (joints_nth_error _ _ _ _ _ _ _ _ Hi)
    as (s & s' & li & ri & ls' & rs' & _ & _ & _ & _ & _ & _ & Hj).
  now exists s, s', ls', rs', li, ri.
Qed.

Lemma stub_winding (w : R) (s s' : LineSegment.t) (ls rs li ri : vec3) :
  let a := stubA (resolveJoint w s s' ls rs li ri) in
  let b := stubB (resolveJoint w s s' ls rs li ri) in
  turn (q0 a) (q2 a) (q3 a) = 2 * turn (q0 a) (q1 a) (q2 a) /\
  turn (q0 b) (q1 b) (q2 b) = 2 * turn (q0 b) (q2 b) (q3 b).
Proof.
  cbv zeta. unfold resolveJoint.
  change (v3.norm (v3.cross zAxis (LineSegment.direction s))) with (offsetDir s).
  change (v3.norm (v3.cross zAxis (LineSegment.direction s'))) with (offsetDir s').
  destruct (offsetDir s) as [nx ny nz], (offsetDir s') as [mx my mz].
  destruct (LineSegment.to s) as [tx ty tz].
  destruct li as [lx ly lz], ri as [rx ry rz].
  destruct (ltb _ _); cbn [stubA stubB]; unfold q0, q1, q2, q3, turn;
    vec_simpl; split; ring.
Qed.

Lemma parallelogram_winding (a b c d e : vec3) :
  v3.sub a b = e -> v3.sub d c = e -> turn a b c = turn a c d.
Proof.
  destruct a as [ax ay az], b as [bx by' bz], c as [cx cy cz], d as [dx dy dz].
  unfold v3.sub, turn. cbn [c0 c1 c2]. intros <- H. injection H as Hx Hy _.
  replace dx with (cx + (ax - bx)) by lra. replace dy with (cy + (ay - by')) by lra.
  ring.
Qed.

(** X19. The two triangles of a quad never wind opposite ways in the
    XY plane: those of a rectangle have the same signed area, and of
    those of a stub one has twice the signed area of the other. *)
Theorem quad_triangles_wind_alike (intersect2D : line -> line -> result vec3)
    (polygon : list vec3) (w : R) (g : geometry) :
  build intersect2D polygon w = Ok g ->
  (forall r : quad,
      In r (rectangles g) ->
      turn (q0 r) (q1 r) (q2 r) = turn (q0 r) (q2 r) (q3 r)) /\
  (forall c : quad,
      In c (stubs g) ->
      (turn (q0 c) (q2 c) (q3 c) = 2 * turn (q0 c) (q1 c) (q2 c) \/
       turn (q0 c) (q1 c) (q2 c) = 2 * turn (q0 c) (q2 c) (q3 c)) /\
      0 <= turn (q0 c) (q1 c) (q2 c) * turn (q0 c) (q2 c) (q3 c)).
Proof.
  intros Hb. split.
  - intros r Hr. apply In_nth_error in Hr. destruct Hr as [i Hi].
    destruct (rectangle_anatomy _ _ _ _ _ _ Hb Hi) as (s & Hs & Hstart & Hend).
    apply (parallelogram_winding _ _ _ _ (v3.multiply (offsetDir s) (2 * w))).
    + destruct Hstart
        as [(_ & -> & ->)|(k & sp & ls & rs & l3 & r3 & _ & _ & _ & _ & -> & ->)].
      * apply offset_edges.
      * apply resolveJoint_edges.
    + destruct Hend as [(_ & -> & ->)|(sn & l3 & r3 & _ & _ & _ & -> & ->)].
      * apply offset_edges.
      * apply resolveJoint_edges.
  - intros c Hc.
    destruct (build_Ok _ _ _ _ Hb)
      as (s0 & rest & js & _ & _ & _ & _ & Hjs & _ & _ & _ & _ & _ & _ & Hst & _).
    rewrite Hst in Hc. apply in_flat_map in Hc. destruct Hc as (j & Hj & Hc).
    rewrite Hjs in Hj. apply joints_In in Hj.
    destruct Hj as (s & s' & ls & rs & li & ri & ->).
    destruct (stub_winding w s s' ls rs li ri) as [HA HB]. cbv zeta in HA, HB.
    destruct Hc as [<-|[<-|[]]].
    + split; [now left|]. rewrite HA. nra.
    + split; [now right|]. rewrite HB. nra.
Qed.

(** ** The fan turns counter-clockwise *)

Lemma fanLoop_triangles_In (pivot : vec3) (ps : list vec3) (t : triangle) :
  In t (triangles (fanLoop pivot ps emptyMesh)) ->
  exists (k : nat) (a b : vec3),
    nth_error ps k = Some a /\ nth_error ps (S k) = Some b /\ t = (a, b, pivot).
Proof.
  induction ps as [|a ps IH]; [intros []|].
  destruct ps as [|b ps]; [intros []|].
  rewrite fanLoop_cons. cbn [triangles]. intros [<-|H].
  - now exists 0%nat, a, b.
  - destruct (IH H) as (k & a' & b' & H1 & H2 & ->).
    now exists (S k), a', b'.
Qed.

(** The first radial vector turned by [k] slices. *)
Lemma radialPoints_polar (cs : triangle) (k : nat) (a : vec3) :
  let p := v3.sub (cs2 cs) (cs1 cs) in
  let q := v3.sub (cs0 cs) (cs1 cs) in
  (1 <= numSlices cs)%Z ->
  c0 p <> 0 \/ c1 p <> 0 ->
  c0 q * c0 q + c1 q * c1 q = c0 p * c0 p + c1 p * c1 p ->
  nth_error (radialPoints cs) k = Some a ->
  let theta := rotationAngle cs * INR k in
  c0 a = c0 p * cos theta - c1 p * sin theta + c0 (cs1 cs) /\
  c1 a = c1 p * cos theta + c0 p * sin theta + c1 (cs1 cs).
Proof.
  cbv zeta. intros Hn Hp Hlen Hk.
  destruct (arms_rotation cs Hp Hlen) as [Hx Hy]. cbv zeta in Hx, Hy.
  pose proof (slices_sweep cs Hn) as Hsweep.
  rewrite radialPoints_eq in Hk.
  set (n := Z.to_nat (numIntermediatePoints cs)) in *.
  destruct k as [|k].
  - injection Hk as <-. cbn [INR]. rewrite Rmult_0_r, cos_0, sin_0.
    unfold v3.sub. cbn [c0 c1]. split; ring.
  - cbn [nth_error] in Hk.
    assert (Hr : forall i, radialPoint cs i =
               V3 (c0 (v3.sub (cs2 cs) (cs1 cs)) * cos (rotationAngle cs * INR (S i))
                   - c1 (v3.sub (cs2 cs) (cs1 cs)) * sin (rotationAngle cs * INR (S i))
                   + c0 (cs1 cs))
                  (c1 (v3.sub (cs2 cs) (cs1 cs)) * cos (rotationAngle cs * INR (S i))
                   + c0 (v3.sub (cs2 cs) (cs1 cs)) * sin (rotationAngle cs * INR (S i))
                   + c1 (cs1 cs))
                  (0 + c2 (cs1 cs))).
    { intros i. unfold radialPoint. rewrite S_INR. reflexivity. }
    destruct (Nat.lt_ge_cases k n) as [Hlt|Hge].
    + rewrite nth_error_app1 in Hk by (now rewrite length_map, length_seq).
      rewrite nth_error_map, nth_error_seq in Hk.
      destruct (Nat.ltb_spec k n); [|lia]. cbn [option_map Nat.add] in Hk.
      injection Hk as <-. rewrite Hr. cbn [c0 c1]. now split.
    + rewrite nth_error_app2 in Hk by (rewrite length_map, length_seq; lia).
      rewrite length_map, length_seq in Hk.
      destruct (k - n)%nat as [|d] eqn:Ed; [|destruct d; discriminate].
      injection Hk as <-. assert (k = n) by lia. subst k.
      rewrite S_INR. fold n in Hsweep. rewrite Hsweep, Hx, Hy.
      unfold v3.sub. cbn [c0 c1]. split; ring.
Qed.

Lemma turn_polar (px py cx cy ca sa cb sb : R) :
  turn (V3 (px * ca - py * sa + cx) (py * ca + px * sa + cy) 0)
       (V3 (px * cb - py * sb + cx) (py * cb + px * sb + cy) 0)
       (V3 cx cy 0)
  = (px * px + py * py) * (sb * ca - cb * sa).
Proof. unfold turn. cbn [c0 c1]. ring. Qed.

Lemma turn_xy (a b c a' b' c' : vec3) :
  c0 a = c0 a' -> c1 a = c1 a' -> c0 b = c0 b' -> c1 b = c1 b' ->
  c0 c = c0 c' -> c1 c = c1 c' -> turn a b c = turn a' b' c'.
Proof. unfold turn. now intros -> -> -> -> -> ->. Qed.

(** X20. Under the conditions of X16 every triangle of a fan has the
    pivot as its third vertex and the same positive signed area in the
    XY plane ([turn] is twice it: the square of the length of the arms
    times the sine of the rotation angle): the fan turns
    counter-clockwise, in equal triangles. *)
Theorem fan_triangles_turn_left (cs : triangle) (t : triangle) :
  let p := v3.sub (cs2 cs) (cs1 cs) in
  let q := v3.sub (cs0 cs) (cs1 cs) in
  (1 <= numSlices cs)%Z ->
  c0 p <> 0 \/ c1 p <> 0 ->
  c0 q * c0 q + c1 q * c1 q = c0 p * c0 p + c1 p * c1 p ->
  In t (triangles (capStep emptyMesh cs)) ->
  cs2 t = cs1 cs /\
  turn (cs0 t) (cs1 t) (cs2 t)
  = (c0 p * c0 p + c1 p * c1 p) * sin (rotationAngle cs) /\
  0 < turn (cs0 t) (cs1 t) (cs2 t).
Proof.
  cbv zeta. intros Hn Hp Hlen Ht.
  unfold capStep in Ht. apply fanLoop_triangles_In in Ht.
  destruct Ht as (k & a & b & Ha & Hb & ->).
  destruct (radialPoints_polar cs k a Hn Hp Hlen Ha) as [Hax Hay].
  destruct (radialPoints_polar cs (S k) b Hn Hp Hlen Hb) as [Hbx Hby].
  cbv zeta in *. unfold cs0, cs1, cs2. cbn [fst snd].
  fold (cs1 cs) (cs2 cs).
  split; [reflexivity|].
  set (px := c0 (v3.sub (cs2 cs) (cs1 cs))) in *.
  set (py := c1 (v3.sub (cs2 cs) (cs1 cs))) in *.
  set (rho := rotationAngle cs) in *.
  assert (E : turn a b (cs1 cs) = (px * px + py * py) * sin rho).
  { rewrite (turn_xy a b (cs1 cs)
               (V3 (px * cos (rho * INR k) - py * sin (rho * INR k) + c0 (cs1 cs))
                   (py * cos (rho * INR k) + px * sin (rho * INR k) + c1 (cs1 cs)) 0)
               (V3 (px * cos (rho * INR (S k)) - py * sin (rho * INR (S k))
                    + c0 (cs1 cs))
                   (py * cos (rho * INR (S k)) + px * sin (rho * INR (S k))
                    + c1 (cs1 cs)) 0)
               (V3 (c0 (cs1 cs)) (c1 (cs1 cs)) 0)); try assumption; try reflexivity.
    rewrite turn_polar. f_equal.
    rewrite S_INR.
    replace (rho * (INR k + 1)) with (rho * INR k + rho) by ring.
    rewrite sin_plus, cos_plus.
    pose proof (sin2_cos2 (rho * INR k)) as H1. unfold Rsqr in H1.
    replace ((sin (rho * INR k) * cos rho + cos (rho * INR k) * sin rho)
             * cos (rho * INR k)
             - (cos (rho * INR k) * cos rho - sin (rho * INR k) * sin rho)
               * sin (rho * INR k))
      with (sin rho * (sin (rho * INR k) * sin (rho * INR k)
                       + cos (rho * INR k) * cos (rho * INR k))) by ring.
    rewrite H1. ring. }
  split; [exact E|]. rewrite E.
  apply Rmult_lt_0_compat; [now apply hypot_pos|].
  pose proof (sweep_per_slice cs Hn) as [Hlo Hhi].
  pose proof PI_RGT_0 as Hpi.
  apply sin_gt_0; unfold rho, rotationAngle.
  - apply Rmult_lt_0_compat; lra.
  - replace PI with (180 / 180 * PI) at 2 by field.
    apply Rmult_lt_compat_r; lra.
Qed.

(** ** Concrete paths *)

Lemma corner_nondegenerate : Forall nondegenerate (centerSegments cornerPath).
Proof.
  unfold cornerPath. rewrite !centerSegments_cons.
  constructor; [left; cbn; lra|].
  constructor; [right; cbn; lra|constructor].
Qed.

Lemma corner_ribbon :
  exists m : mesh,
    ribbon (Spec.removeParallel2D 0) (Spec.intersect2D 0) cornerPath
           {| width := 1; closed := false |} = Ok m.
Proof.
  assert (He : 0 <= 0 < 100) by lra.
  destruct (tessellate_Ok false cornerGeometry) as [m Em]; [discriminate|].
  exists m. rewrite ribbon_valid; [|cbn; lia|lra].
  rewrite (corner_filter 0 He), (corner_build 0 He). exact Em.
Qed.

Lemma raised_build :
  exists (g : geometry) (r0 r1 : quad),
    build (Spec.intersect2D 0) raisedCornerPath 1 = Ok g /\
    nth_error (rectangles g) 0 = Some r0 /\
    nth_error (rectangles g) 1 = Some r1 /\
    List.length (rectangles g) = 2%nat.
Proof.
  assert (Ht : turn (V3 0 0 5) (V3 10 0 5) (V3 10 10 5) = 100)
    by (unfold turn; cbn [c0 c1]; lra).
  destruct (bend_distances 0 1 (V3 0 0 5) (V3 10 0 5) (V3 10 10 5))
    as (left3D & right3D & Hl & Hr & _); try lra.
  { rewrite Ht, Rabs_pos_eq; lra. }
  eexists _, _, _.
  split; [apply (build_one_joint _ _ _ _ _ _ _ Hl Hr)|].
  cbn [rectangles nth_error List.length]. now repeat split.
Qed.

Lemma raised_nondegenerate :
  Forall nondegenerate (centerSegments raisedCornerPath).
Proof.
  unfold raisedCornerPath. rewrite !centerSegments_cons.
  constructor; [left; cbn; lra|].
  constructor; [right; cbn; lra|constructor].
Qed.

Lemma wrap_build :
  exists g : geometry,
    build (Spec.intersect2D 0) wrapPath 5 = Ok g /\
    capSupports g = [wrapCap].
Proof.
  assert (Ht : turn (V3 0 0 0) (V3 3 4 0) (V3 0 8 0) = 24)
    by (unfold turn; cbn [c0 c1]; lra).
  destruct (left_bend_cap 0 5 (V3 0 0 0) (V3 3 4 0) (V3 0 8 0))
    as (g & Hg & _ & Hcap); try lra.
  { rewrite Ht, Rabs_pos_eq; lra. }
  exists g. split; [exact Hg|]. rewrite Hcap.
  rewrite (offsetDir_new (V3 0 0 0) (V3 3 4 0) 5) by (vec_simpl; lra).
  rewrite (offsetDir_new (V3 3 4 0) (V3 0 8 0) 5) by (vec_simpl; lra).
  unfold wrapCap. vec_eq.
Qed.

Lemma atan_pos (x : R) : 0 < x -> 0 < atan x < PI / 2.
Proof.
  intros H. pose proof (atan_bound x) as [_ Hb]. split; [|exact Hb].
  rewrite <- atan_0. now apply atan_increasing.
Qed.

(** The arc of [wrapCap] starts after 270 degrees and ends before 90. *)
Lemma wrapCap_angles :
  270 < startAngle wrapCap < 360 /\ 0 < endAngle wrapCap < 90.
Proof.
  pose proof PI_RGT_0 as Hpi.
  pose proof (atan_pos (3 / 4) ltac:(lra)) as [Ha0 Ha1].
  assert (Hd : 0 < atan (3 / 4) / PI * 180 < 90).
  { assert (E : atan (3 / 4) = atan (3 / 4) / PI * PI) by (field; lra).
    set (u := atan (3 / 4) / PI) in *. nra. }
  split.
  - unfold startAngle, wrapCap. vec_simpl.
    rewrite atan2_right by lra.
    replace ((1 - 4) / (7 - 3)) with (- (3 / 4)) by lra.
    rewrite atan_opp.
    replace (- atan (3 / 4) / PI * 180) with (- (atan (3 / 4) / PI * 180))
      by (field; lra).
    rewrite ltb_true by lra. lra.
  - unfold endAngle, wrapCap. vec_simpl.
    rewrite atan2_right by lra.
    replace ((7 - 4) / (7 - 3)) with (3 / 4) by lra.
    rewrite ltb_false by lra.
    unfold eqb. destruct (Req_dec_T (atan (3 / 4) / PI * 180) 0); lra.
Qed.

Lemma raised_filter :
  Spec.removeParallel2D 0 raisedCornerPath = raisedCornerPath.
Proof.
  unfold raisedCornerPath, Spec.removeParallel2D, Spec.removeInterior.
  assert (E : Spec.collinear2D 0 (V3 0 0 5) (V3 10 0 5) (V3 10 10 5) = false).
  { unfold Spec.collinear2D. apply leb_false_iff. vec_simpl.
    replace ((10 - 0) * (10 - 0) - (0 - 0) * (10 - 10)) with 100 by lra.
    rewrite Rabs_pos_eq; lra. }
  now rewrite E.
Qed.

(** ** Witnesses *)

(** A witness of X1: the segment from (0,0,0) to (3,4,0). *)
Lemma line_segment_unit_direction_witness :
  V3 0 0 0 <> V3 3 4 0 /\
  v3.length (LineSegment.direction (LineSegment.new (V3 0 0 0) (V3 3 4 0))) = 1.
Proof.
  assert (H : V3 0 0 0 <> V3 3 4 0) by (apply V3_neq_c0; cbn [c0]; lra).
  split; [exact H|].
  apply (line_segment_unit_direction (V3 0 0 0) (V3 3 4 0) H).
Defined.

(** A witness of X3: the segment from (0,0,0) to (10,0,0), width 1. *)
Lemma offset_segments_parallel_witness :
  nondegenerate (LineSegment.new (V3 0 0 0) (V3 10 0 0)) /\
  LineSegment.direction (leftSegment 1 (LineSegment.new (V3 0 0 0) (V3 10 0 0)))
  = LineSegment.direction (LineSegment.new (V3 0 0 0) (V3 10 0 0)) /\
  v3.length
    (v3.sub (LineSegment.from
               (leftSegment 1 (LineSegment.new (V3 0 0 0) (V3 10 0 0))))
            (LineSegment.from
               (rightSegment 1 (LineSegment.new (V3 0 0 0) (V3 10 0 0)))))
  = 2 * 1.
Proof.
  assert (H : nondegenerate (LineSegment.new (V3 0 0 0) (V3 10 0 0)))
    by (left; cbn; lra).
  split; [exact H|].
  destruct (offset_segments_parallel 1 (V3 0 0 0) (V3 10 0 0) H ltac:(lra))
    as ((Hd & _) & _ & (_ & _ & Hl) & _).
  split; [exact Hd|exact Hl].
Defined.

(** A witness of X4: the second rectangle of the L-shaped path. *)
Lemma rectangle_edges_witness :
  build (Spec.intersect2D 0) cornerPath 1 = Ok cornerGeometry /\
  v3.length (v3.sub (V3 9 1 0) (V3 11 1 0)) = 2 * 1 /\
  v3.length (v3.sub (V3 9 10 0) (V3 11 10 0)) = 2 * 1.
Proof.
  assert (Hb : build (Spec.intersect2D 0) cornerPath 1 = Ok cornerGeometry)
    by (apply corner_build; lra).
  split; [exact Hb|].
  destruct (rectangle_edges (Spec.intersect2D 0) cornerPath 1 cornerGeometry 1
              (V3 9 1 0, V3 11 1 0, V3 11 10 0, V3 9 10 0)
              (LineSegment.new (V3 10 0 0) (V3 10 10 0))
              corner_nondegenerate ltac:(lra) Hb eq_refl eq_refl)
    as (_ & _ & H1 & H2 & _).
  split; [exact H1|exact H2].
Defined.

(** A witness of X5: the straight path. *)
Lemma ribbon_ends_flush_witness :
  build (Spec.intersect2D 0) straightPath 1 = Ok straightGeometry /\
  exists (a z : vec3) (s0 sn : LineSegment.t) (first final : quad),
    hd_error straightPath = Some a /\ last straightPath a = z /\
    hd_error (centerSegments straightPath) = Some s0 /\
    last (centerSegments straightPath) s0 = sn /\
    hd_error (rectangles straightGeometry) = Some first /\
    last (rectangles straightGeometry) first = final /\
    q0 first = v3.add a (v3.multiply (offsetDir s0) 1) /\
    q1 first = v3.add a (v3.multiply (offsetDir s0) (- 1)) /\
    q3 final = v3.add z (v3.multiply (offsetDir sn) 1) /\
    q2 final = v3.add z (v3.multiply (offsetDir sn) (- 1)).
Proof.
  split; [apply straight_build|].
  exact (ribbon_ends_flush (Spec.intersect2D 0) straightPath 1 straightGeometry
           (straight_build (Spec.intersect2D 0))).
Defined.

(** A witness of X6: the L-shaped path at the height 5. Each of its
    two rectangles has two corners at the height 5 and two at the
    height 0. *)
Lemma joint_corners_at_height_zero_witness :
  exists (g : geometry) (r0 r1 : quad),
    build (Spec.intersect2D 0) raisedCornerPath 1 = Ok g /\
    nth_error (rectangles g) 0 = Some r0 /\
    nth_error (rectangles g) 1 = Some r1 /\
    (c2 (q0 r0) = 5 /\ c2 (q1 r0) = 5 /\ c2 (q2 r0) = 0 /\ c2 (q3 r0) = 0) /\
    (c2 (q0 r1) = 0 /\ c2 (q1 r1) = 0 /\ c2 (q2 r1) = 5 /\ c2 (q3 r1) = 5).
Proof.
  destruct raised_build as (g & r0 & r1 & Hb & H0 & H1 & Hlen).
  exists g, r0, r1. do 3 (split; [assumption|]).
  destruct (joint_corners_at_height_zero (Spec.intersect2D 0) raisedCornerPath 1
              g 0 r0 raised_nondegenerate Hb H0) as (_ & Hend & Hstart & _).
  destruct (joint_corners_at_height_zero (Spec.intersect2D 0) raisedCornerPath 1
              g 1 r1 raised_nondegenerate Hb H1) as (Hstart' & _ & _ & Hend').
  destruct (Hstart eq_refl) as (a & Ha & Ha0 & Ha1).
  injection Ha as <-.
  destruct Hend as [He2 He3]; [rewrite Hlen; discriminate|].
  destruct Hstart' as [Hs0 Hs1]; [discriminate|].
  destruct (Hend' (eq_sym Hlen)) as (z & Hz & Hz2 & Hz3).
  injection Hz as <-.
  now repeat split.
Defined.

(** A witness of X7: the joint of the L-shaped path. *)
Lemma joint_pieces_meet_witness :
  build (Spec.intersect2D 0) cornerPath 1 = Ok cornerGeometry /\
  exists (a b : quad) (cs : triangle),
    nth_error (stubs cornerGeometry) 0 = Some a /\
    nth_error (stubs cornerGeometry) 1 = Some b /\
    nth_error (capSupports cornerGeometry) 0 = Some cs /\
    q1 a = V3 10 0 0 /\ q0 b = V3 10 0 0 /\ cs1 cs = V3 10 0 0 /\
    q1 b = q0 a /\ cs0 cs = q2 a /\ cs2 cs = q3 b.
Proof.
  assert (Hb : build (Spec.intersect2D 0) cornerPath 1 = Ok cornerGeometry)
    by (apply corner_build; lra).
  split; [exact Hb|].
  destruct (joint_pieces_meet (Spec.intersect2D 0) cornerPath 1 cornerGeometry 0
              (V3 0 1 0, V3 0 (-1) 0, V3 9 (-1) 0, V3 9 1 0)
              (V3 9 1 0, V3 11 1 0, V3 11 10 0, V3 9 10 0)
              Hb eq_refl eq_refl)
    as (a & b & cs & p & Ha & Hb' & Hcs & Hp & (H1 & H2 & H3) & H4 & (H5 & H6) & _).
  injection Hp as <-.
  exists a, b, cs. now repeat split.
Defined.

(** A witness of X8: the first rectangle of the L-shaped path, with
    the intersection helper of the specification. *)
Lemma rectangle_corners_on_offset_lines_witness :
  build (Spec.intersect2D 0) cornerPath 1 = Ok cornerGeometry /\
  onLine (lineOf (leftSegment 1 (LineSegment.new (V3 0 0 0) (V3 10 0 0))))
         (V3 9 1 0) /\
  onLine (lineOf (rightSegment 1 (LineSegment.new (V3 0 0 0) (V3 10 0 0))))
         (V3 9 (-1) 0).
Proof.
  assert (Hb : build (Spec.intersect2D 0) cornerPath 1 = Ok cornerGeometry)
    by (apply corner_build; lra).
  split; [exact Hb|].
  destruct (rectangle_corners_on_offset_lines (Spec.intersect2D 0) cornerPath 1
              cornerGeometry 0
              (V3 0 1 0, V3 0 (-1) 0, V3 9 (-1) 0, V3 9 1 0)
              (LineSegment.new (V3 0 0 0) (V3 10 0 0))
              (fun a b p => Spec_intersect2D_onLine 0 a b p (Rle_refl 0))
              Hb eq_refl eq_refl)
    as (_ & H3 & _ & H2).
  split; [exact H3|exact H2].
Defined.

(** A witness of X9: the first intermediate point of the cap of the
    L-shaped path. *)
Lemma cap_arc_radius_witness :
  build (Spec.intersect2D 0) cornerPath 1 = Ok cornerGeometry /\
  In (radialPoint cornerCap 0) (radialPoints cornerCap) /\
  v3.length (v3.sub (radialPoint cornerCap 0) (V3 10 0 0)) = 1.
Proof.
  assert (Hb : build (Spec.intersect2D 0) cornerPath 1 = Ok cornerGeometry)
    by (apply corner_build; lra).
  assert (Hin : In (radialPoint cornerCap 0) (radialPoints cornerCap)).
  { apply (nth_error_In _ 1). apply radialPoints_nth.
    unfold numIntermediatePoints.
    destruct cornerCap_angles as (_ & _ & ->). cbn. lia. }
  split; [exact Hb|]. split; [exact Hin|].
  destruct (cap_arc_radius (Spec.intersect2D 0) cornerPath 1 cornerGeometry 0
              cornerCap (radialPoint cornerCap 0)
              corner_nondegenerate ltac:(lra) Hb eq_refl Hin)
    as (_ & H & _).
  exact H.
Defined.

(** A witness of X10: the cap of the L-shaped path, of nine slices. *)
Lemma fan_slice_size_witness :
  (1 <= numSlices cornerCap)%Z /\
  PI / 18 <= rotationAngle cornerCap < PI / 9.
Proof.
  assert (H : (1 <= numSlices cornerCap)%Z)
    by (destruct cornerCap_angles as (_ & _ & ->); lia).
  split; [exact H|].
  destruct (fan_slice_size cornerCap H) as (_ & Hr & _). exact Hr.
Defined.

(** A witness of X11: the cap of a path that bends to the left while
    it heads north. Its arc crosses the direction of the positive X
    axis, and its fan is one triangle. *)
Lemma narrow_sweep_single_triangle_witness :
  (exists g : geometry,
      build (Spec.intersect2D 0) wrapPath 5 = Ok g /\ capSupports g = [wrapCap]) /\
  endAngle wrapCap - startAngle wrapCap < 20 /\
  radialPoints wrapCap = [V3 7 1 0; V3 7 7 0] /\
  triangles (capStep emptyMesh wrapCap) = [(V3 7 1 0, V3 7 7 0, V3 3 4 0)].
Proof.
  split; [exact wrap_build|].
  assert (H : endAngle wrapCap - startAngle wrapCap < 20)
    by (pose proof wrapCap_angles; lra).
  split; [exact H|].
  destruct (narrow_sweep_single_triangle wrapCap emptyMesh H) as [Hr Hc].
  split; [exact Hr|]. rewrite Hc. reflexivity.
Defined.

(** A witness of X12: the straight path. *)
Lemma ribbon_outcomes_witness :
  (2 <= List.length straightPath)%nat /\
  exists m : mesh,
    ribbon (Spec.removeParallel2D 0) (Spec.intersect2D 0) straightPath
           {| width := 1; closed := false |} = Ok m.
Proof.
  assert (Hlen : (2 <= List.length straightPath)%nat) by (cbn; lia).
  split; [exact Hlen|].
  destruct (ribbon_outcomes (Spec.removeParallel2D 0) (Spec.intersect2D 0)
              straightPath {| width := 1; closed := false |} Hlen ltac:(cbn; lra))
    as (_ & _ & H).
  apply (H ([], [])); [cbn; lia|reflexivity].
Defined.

(** A witness of X13: the L-shaped path, open. *)
Lemma outline_counts_witness :
  exists (m : mesh) (g : geometry),
    ribbon (Spec.removeParallel2D 0) (Spec.intersect2D 0) cornerPath
           {| width := 1; closed := false |} = Ok m /\
    build (Spec.intersect2D 0) (Spec.removeParallel2D 0 cornerPath) 1 = Ok g /\
    (List.length (outline m) + 2 * List.length (stubs g)
     = 2 * List.length (triangles m) + 4)%nat.
Proof.
  destruct corner_ribbon as (m & Hm).
  destruct (outline_counts _ _ _ _ _ Hm) as (g & Hg & _ & H & _).
  exists m, g. now repeat split.
Defined.

(** A witness of X14: a corner of the straight ribbon. *)
Lemma outline_points_are_vertices_witness :
  exists (m : mesh) (t : triangle),
    ribbon (Spec.removeParallel2D 0) (Spec.intersect2D 0) straightPath
           {| width := 1; closed := false |} = Ok m /\
    In (V3 10 1 0) (outline m) /\
    In t (triangles m) /\ In (V3 10 1 0) (vertices t).
Proof.
  assert (Hm : ribbon (Spec.removeParallel2D 0) (Spec.intersect2D 0) straightPath
                 {| width := 1; closed := false |}
               = Ok {| triangles := [(V3 0 1 0, V3 0 (-1) 0, V3 10 (-1) 0);
                                     (V3 0 1 0, V3 10 (-1) 0, V3 10 1 0)];
                       outline := [V3 0 (-1) 0; V3 10 (-1) 0; V3 10 1 0; V3 0 1 0;
                                   V3 0 1 0; V3 0 (-1) 0; V3 10 (-1) 0; V3 10 1 0] |})
    by (rewrite straight_ribbon; reflexivity).
  assert (Hin : In (V3 10 1 0)
                  [V3 0 (-1) 0; V3 10 (-1) 0; V3 10 1 0; V3 0 1 0;
                   V3 0 1 0; V3 0 (-1) 0; V3 10 (-1) 0; V3 10 1 0])
    by (right; right; now left).
  destruct (outline_points_are_vertices _ _ _ _ _ (V3 10 1 0) Hm Hin)
    as (t & Ht & Hv).
  eexists _, t. split; [exact Hm|]. now repeat split.
Defined.

(** A witness of X15: the cap of the L-shaped path. *)
Lemma cap_joins_outer_offsets_witness :
  build (Spec.intersect2D 0) cornerPath 1 = Ok cornerGeometry /\
  exists (r r' : quad) (la lb ra rb : LineSegment.t),
    nth_error (rectangles cornerGeometry) 0 = Some r /\
    nth_error (rectangles cornerGeometry) 1 = Some r' /\
    nth_error (leftSegments cornerGeometry) 0 = Some la /\
    nth_error (leftSegments cornerGeometry) 1 = Some lb /\
    nth_error (rightSegments cornerGeometry) 0 = Some ra /\
    nth_error (rightSegments cornerGeometry) 1 = Some rb /\
    ((q3 r = q0 r' /\
      cs2 cornerCap = LineSegment.to ra /\ cs0 cornerCap = LineSegment.from rb) \/
     (q2 r = q1 r' /\
      cs0 cornerCap = LineSegment.to la /\ cs2 cornerCap = LineSegment.from lb)).
Proof.
  assert (Hb : build (Spec.intersect2D 0) cornerPath 1 = Ok cornerGeometry)
    by (apply corner_build; lra).
  split; [exact Hb|].
  exact (cap_joins_outer_offsets (Spec.intersect2D 0) cornerPath 1 cornerGeometry
           0 cornerCap Hb eq_refl).
Defined.

(** A witness of X16: the cap of the L-shaped path. *)
Lemma fan_reaches_end_witness :
  (1 <= numSlices cornerCap)%Z /\
  radialPoint cornerCap (Z.to_nat (numIntermediatePoints cornerCap)) = V3 11 0 0.
Proof.
  assert (H : (1 <= numSlices cornerCap)%Z)
    by (destruct cornerCap_angles as (_ & _ & ->); lia).
  split; [exact H|].
  apply (fan_reaches_end cornerCap H).
  - right. unfold cornerCap. vec_simpl. lra.
  - unfold cornerCap. vec_simpl. lra.
Defined.

(** A witness of X17: the L-shaped path moved by (1, 2, 0), with the
    helpers of the specification. *)
Lemma ribbon_translation_witness :
  c2 (V3 1 2 0) = 0 /\
  ribbon (Spec.removeParallel2D 0) (Spec.intersect2D 0)
         (map (shift (V3 1 2 0)) cornerPath) {| width := 1; closed := false |}
  = mapResult (mapMesh (shift (V3 1 2 0)))
      (ribbon (Spec.removeParallel2D 0) (Spec.intersect2D 0)
              cornerPath {| width := 1; closed := false |}).
Proof.
  split; [reflexivity|].
  apply (ribbon_translation (Spec.removeParallel2D 0) (Spec.intersect2D 0)
           (V3 1 2 0) cornerPath {| width := 1; closed := false |} eq_refl).
  - intros a b. apply Spec_intersect2D_shift; [lra|reflexivity].
  - intros polygon. apply Spec_removeParallel2D_map.
    apply Spec_collinear2D_shift.
Defined.

(** A witness of X18: the L-shaped path at the height 5 and its
    projection, the L-shaped path, with the helpers of the
    specification. *)
Lemma ribbon_ignores_heights_witness :
  Forall nondegenerate (centerSegments (Spec.removeParallel2D 0 raisedCornerPath)) /\
  map flat raisedCornerPath = cornerPath /\
  ribbon (Spec.removeParallel2D 0) (Spec.intersect2D 0)
         cornerPath {| width := 1; closed := false |}
  = mapResult (mapMesh flat)
      (ribbon (Spec.removeParallel2D 0) (Spec.intersect2D 0)
              raisedCornerPath {| width := 1; closed := false |}).
Proof.
  assert (Hn : Forall nondegenerate
                 (centerSegments (Spec.removeParallel2D 0 raisedCornerPath)))
    by (rewrite raised_filter; exact raised_nondegenerate).
  split; [exact Hn|]. split; [reflexivity|].
  apply (ribbon_ignores_heights (Spec.removeParallel2D 0) (Spec.intersect2D 0)
           raisedCornerPath {| width := 1; closed := false |}).
  - intros a b. now rewrite Spec_intersect2D_flat.
  - intros polygon. apply Spec_removeParallel2D_map. reflexivity.
  - exact Hn.
Defined.

(** A witness of X19: the first rectangle and the first stub of the
    L-shaped path. *)
Lemma quad_triangles_wind_alike_witness :
  build (Spec.intersect2D 0) cornerPath 1 = Ok cornerGeometry /\
  turn (V3 0 1 0) (V3 0 (-1) 0) (V3 9 (-1) 0)
  = turn (V3 0 1 0) (V3 9 (-1) 0) (V3 9 1 0) /\
  0 <= turn (V3 9 1 0) (V3 10 0 0) (V3 11 0 0)
       * turn (V3 9 1 0) (V3 11 0 0) (V3 11 1 0).
Proof.
  assert (Hb : build (Spec.intersect2D 0) cornerPath 1 = Ok cornerGeometry)
    by (apply corner_build; lra).
  split; [exact Hb|].
  destruct (quad_triangles_wind_alike (Spec.intersect2D 0) cornerPath 1
              cornerGeometry Hb) as [Hr Hs].
  split.
  - apply (Hr (V3 0 1 0, V3 0 (-1) 0, V3 9 (-1) 0, V3 9 1 0)). now left.
  - apply (Hs (V3 9 1 0, V3 10 0 0, V3 11 0 0, V3 11 1 0)). now left.
Defined.

(** A witness of X20: the first triangle of the cap of the L-shaped path. *)
Lemma fan_triangles_turn_left_witness :
  (1 <= numSlices cornerCap)%Z /\
  In (V3 10 (-1) 0, radialPoint cornerCap 0, V3 10 0 0)
     (triangles (capStep emptyMesh cornerCap)) /\
  0 < turn (V3 10 (-1) 0) (radialPoint cornerCap 0) (V3 10 0 0).
Proof.
  assert (H : (1 <= numSlices cornerCap)%Z)
    by (destruct cornerCap_angles as (_ & _ & ->); lia).
  assert (Hin : In (V3 10 (-1) 0, radialPoint cornerCap 0, V3 10 0 0)
                  (triangles (capStep emptyMesh cornerCap))).
  { unfold capStep. rewrite radialPoints_eq. unfold numIntermediatePoints.
    destruct cornerCap_angles as (_ & _ & ->).
    change (Z.to_nat (9 - 1)) with 8%nat. cbn [seq map app].
    rewrite fanLoop_cons. now left. }
  split; [exact H|]. split; [exact Hin|].
  destruct (fan_triangles_turn_left cornerCap
              (V3 10 (-1) 0, radialPoint cornerCap 0, V3 10 0 0) H)
    as (_ & _ & Hpos).
  - right. unfold cornerCap. vec_simpl. lra.
  - unfold cornerCap. vec_simpl. lra.
  - exact Hin.
  - exact Hpos.
Defined.
